(** * Recurring-event resolution of events/events.js

    A shallow embedding of the cadence resolvers of [events/events.js]
    ([nextWeeklyOccurrence], [nextMonthlyOccurrence], [nextOccurrenceForEvent])
    and of the calendar helpers they call, together with the part of the
    ECMAScript [Date] object and of the value conversions they run on; of
    [escapeHtml] and [renderLinks]; and of the loop of [main] that sorts the
    events into the lists [special] and [regular], with [isRecurring] and
    [isUpcomingOneOff].  What reads the network, the locale or the document
    ([loadEvents], the [toLocale...String] formatters, [renderCard],
    [setEmpty]) is not modelled.

    Conventions of the embedding.
    - Finite Numbers are exact rationals ([Q]); [NaN] and the two infinities
      are values of their own.  The rounding of binary64 is outside the
      model.  The arithmetic of the source on whole numbers is exact in
      binary64 as long as the dates stay within the range of the time
      value; of Numbers that are not whole only bounds on the date that
      the dispatcher returns are stated, and the examples of the weekday
      2.5 and of the interval 1.5, whose arithmetic is exact.
    - There are two models of [Date].  In the first a valid [Date] is its
      time value, an integer number of milliseconds since the epoch (type
      [Z]), the host has a constant offset [LocalTZA] from UTC and the time
      value has no limit: it serves the guards of the resolvers, the
      calendar of the monthly resolver and the properties of the helpers
      that are stated for such a host.  The second, "Date objects in full",
      has what the first leaves out: the offset of the host is a function
      of the instant ([LocalTZA_at], ECMAScript 21.4.1.24 - 21.4.1.26), so
      that daylight saving is covered; the time value is limited to
      8.64e15 ms either side of the epoch ([TimeClip]); and an Invalid Date
      is a value that goes through the source as it does in the engine.
      What concerns the dates that the resolvers, the dispatcher and the loop
      of [main] return is stated on the second model.  On a host of constant
      offset a valid date computed by the second model is the date the
      first computes ([weekly_full_sim], [occurrence_full_fixed]), which is
      how the calendar lemmas are used.
    - The calendar functions are those of ECMAScript 21.4.1.
    - A String is a [string]: one character for each code unit (the
      characters that [escapeHtml] replaces and writes are single code
      units).
    - Values read from the parsed JSON document are [jsval]s.  The host's
      [StringToNumber], [Number::toString] and [Date.parse] are variables of
      the development.
    - A call completes with an [outcome]: a value, a thrown [TypeError], or
      [OutOfFuel] when the [while] loop of the weekly resolver was given too
      small a budget of iterations. *)

From Stdlib Require Import ZArith QArith Qround Bool List Ascii String Lia.
Import ListNotations.
Local Open Scope Z_scope.

(** ** Day number and time within day (ECMAScript 21.4.1.3 - 21.4.1.14) *)

Definition msPerSecond : Z := 1000.
Definition msPerMinute : Z := 60000.
Definition msPerHour : Z := 3600000.
Definition msPerDay : Z := 86400000.

Definition Day (t : Z) : Z := t / msPerDay.
Definition TimeWithinDay (t : Z) : Z := t mod msPerDay.

Definition DaysInYear (y : Z) : Z :=
  if negb (y mod 4 =? 0) then 365
  else if negb (y mod 100 =? 0) then 366
  else if negb (y mod 400 =? 0) then 365
  else 366.

Definition DayFromYear (y : Z) : Z :=
  365 * (y - 1970) + (y - 1969) / 4 - (y - 1901) / 100 + (y - 1601) / 400.

(** The year of a day number: the largest [y] with [DayFromYear y <= d]
    (see [YearFromDay_spec] and [YearFromDay_unique]).  It is computed from
    the mean length of a Gregorian year, 146097/400 days, and corrected by at
    most one year. *)
Definition YearFromDay (d : Z) : Z :=
  let y := 1970 + (400 * d) / 146097 in
  if d <? DayFromYear y then y - 1
  else if DayFromYear (y + 1) <=? d then y + 1
  else y.

Definition YearFromTime (t : Z) : Z := YearFromDay (Day t).

Definition InLeapYear (t : Z) : Z :=
  if DaysInYear (YearFromTime t) =? 366 then 1 else 0.

Definition DayWithinYear (t : Z) : Z := Day t - DayFromYear (YearFromTime t).

Definition MonthFromTime (t : Z) : Z :=
  let d := DayWithinYear t in
  let leap := InLeapYear t in
  if d <? 31 then 0
  else if d <? 59 + leap then 1
  else if d <? 90 + leap then 2
  else if d <? 120 + leap then 3
  else if d <? 151 + leap then 4
  else if d <? 181 + leap then 5
  else if d <? 212 + leap then 6
  else if d <? 243 + leap then 7
  else if d <? 273 + leap then 8
  else if d <? 304 + leap then 9
  else if d <? 334 + leap then 10
  else 11.

Definition DateFromTime (t : Z) : Z :=
  let d := DayWithinYear t in
  let leap := InLeapYear t in
  match MonthFromTime t with
  | 0 => d + 1
  | 1 => d - 30
  | 2 => d - 58 - leap
  | 3 => d - 89 - leap
  | 4 => d - 119 - leap
  | 5 => d - 150 - leap
  | 6 => d - 180 - leap
  | 7 => d - 211 - leap
  | 8 => d - 242 - leap
  | 9 => d - 272 - leap
  | 10 => d - 303 - leap
  | _ => d - 333 - leap
  end.

Definition WeekDay (t : Z) : Z := (Day t + 4) mod 7.

Definition HourFromTime (t : Z) : Z := (t / msPerHour) mod 24.
Definition MinFromTime (t : Z) : Z := (t / msPerMinute) mod 60.
Definition SecFromTime (t : Z) : Z := (t / msPerSecond) mod 60.
Definition msFromTime (t : Z) : Z := t mod msPerSecond.

(** ** MakeTime, MakeDay, MakeDate (ECMAScript 21.4.1.27 - 21.4.1.29),
    on integer arguments *)

Definition MakeTime (hour min sec ms : Z) : Z :=
  hour * msPerHour + min * msPerMinute + sec * msPerSecond + ms.

(** Day within the year on which month [mn] (0..11) starts. *)
Definition MonthStart (mn leap : Z) : Z :=
  match mn with
  | 0 => 0
  | 1 => 31
  | 2 => 59 + leap
  | 3 => 90 + leap
  | 4 => 120 + leap
  | 5 => 151 + leap
  | 6 => 181 + leap
  | 7 => 212 + leap
  | 8 => 243 + leap
  | 9 => 273 + leap
  | 10 => 304 + leap
  | _ => 334 + leap
  end.

Definition LeapDays (y : Z) : Z := if DaysInYear y =? 366 then 1 else 0.

(** [MakeDay year month date]: the day number of the first day of month
    [month mod 12] of year [year + floor(month / 12)], plus [date - 1]. *)
Definition MakeDay (year month date : Z) : Z :=
  let ym := year + month / 12 in
  let mn := month mod 12 in
  DayFromYear ym + MonthStart mn (LeapDays ym) + date - 1.

Definition MakeDate (day time : Z) : Z := day * msPerDay + time.

(** Number of days of month [m] (0..11) of year [y]. *)
Definition DaysInMonth (y m : Z) : Z :=
  match m with
  | 1 => 28 + LeapDays y
  | 3 | 5 | 8 | 10 => 30
  | _ => 31
  end.

(** Day number of the first day of the month of absolute index
    [k = 12 * year + month]. *)
Definition MonthDay (k : Z) : Z := MakeDay 0 k 1.

(** The local time value of a calendar date and time of day. *)
Definition civil (year monthIndex day hours minutes : Z) : Z :=
  MakeDate (MakeDay year monthIndex day) (MakeTime hours minutes 0 0).

(** The year a year argument of the [Date] constructor denotes: an argument
    from 0 to 99 stands for 1900 + year (ECMAScript 21.4.2.1, step 5.j). *)
Definition full_year (year : Z) : Z :=
  if (0 <=? year) && (year <=? 99) then 1900 + year else year.

(** ** Numbers, JSON values and completions *)

(** A Number: not-a-number, an infinity, or a finite value. *)
Inductive number : Type :=
| NaN
| Infinity (negative : bool)
| Fin (q : Q).

Definition Number_isFinite (n : number) : bool :=
  match n with Fin _ => true | _ => false end.

(** [a < b] on Numbers; every comparison with [NaN] is false. *)
Definition num_lt (a b : number) : bool :=
  match a, b with
  | NaN, _ | _, NaN => false
  | Fin x, Fin y => negb (Qle_bool y x)
  | Infinity true, Infinity true => false
  | Infinity true, _ => true
  | Infinity false, _ => false
  | Fin _, Infinity negative => negb negative
  end.

(** ToIntegerOrInfinity on a finite Number: truncation toward zero. *)
Definition Qtrunc (q : Q) : Z := Z.quot (Qnum q) (Zpos (Qden q)).

(** The remainder operator [a % b] on finite Numbers ([b] not zero): the
    result has the sign of the dividend. *)
Definition js_rem (a b : Q) : Q := (a - b * inject_Z (Qtrunc (a / b)))%Q.

(** *** Arithmetic on Numbers that may be [NaN] or infinite

    The operators of the source on Numbers, with the rules of IEEE 754 for
    [NaN] and the infinities; on finite Numbers the result is the exact
    rational (a zero carries no sign). *)

Definition Qneg_bool (q : Q) : bool := negb (Qle_bool 0 q).

Definition num_opp (a : number) : number :=
  match a with
  | NaN => NaN
  | Infinity negative => Infinity (negb negative)
  | Fin q => Fin (- q)
  end.

(** [a + b] *)
Definition num_add (a b : number) : number :=
  match a, b with
  | NaN, _ | _, NaN => NaN
  | Fin x, Fin y => Fin (x + y)
  | Infinity s, Infinity s' => if Bool.eqb s s' then Infinity s else NaN
  | Infinity s, Fin _ | Fin _, Infinity s => Infinity s
  end.

(** [a - b] *)
Definition num_sub (a b : number) : number :=
  match a, b with
  | Fin x, Fin y => Fin (x - y)
  | _, _ => num_add a (num_opp b)
  end.

(** [a * b] *)
Definition num_mul (a b : number) : number :=
  match a, b with
  | NaN, _ | _, NaN => NaN
  | Fin x, Fin y => Fin (x * y)
  | Infinity s, Infinity s' => Infinity (xorb s s')
  | Infinity s, Fin y | Fin y, Infinity s =>
      if Qeq_bool y 0 then NaN else Infinity (xorb s (Qneg_bool y))
  end.

(** [a / b] *)
Definition num_div (a b : number) : number :=
  match a, b with
  | NaN, _ | _, NaN => NaN
  | Infinity _, Infinity _ => NaN
  | Infinity s, Fin y => Infinity (xorb s (Qneg_bool y))
  | Fin _, Infinity _ => Fin 0
  | Fin x, Fin y =>
      if Qeq_bool y 0 then
        if Qeq_bool x 0 then NaN else Infinity (Qneg_bool x)
      else Fin (x / y)
  end.

(** [a % b] *)
Definition num_rem (a b : number) : number :=
  match a, b with
  | Fin x, Fin y => if Qeq_bool y 0 then NaN else Fin (js_rem x y)
  | Fin x, Infinity _ => Fin x
  | _, _ => NaN
  end.

(** [Math.floor(a)] *)
Definition num_floor (a : number) : number :=
  match a with
  | Fin q => Fin (inject_Z (Qfloor q))
  | _ => a
  end.

(** [a <= b]; every comparison with [NaN] is false. *)
Definition num_le (a b : number) : bool :=
  match a, b with
  | NaN, _ | _, NaN => false
  | Fin x, Fin y => Qle_bool x y
  | Infinity true, _ => true
  | _, Infinity false => true
  | _, _ => false
  end.

(** [a === b] on Numbers; [NaN] is equal to nothing. *)
Definition num_eq (a b : number) : bool :=
  match a, b with
  | Fin x, Fin y => Qeq_bool x y
  | Infinity s, Infinity s' => Bool.eqb s s'
  | _, _ => false
  end.

(** *** Date objects with their range

    The time value of a [Date] object is an integer of at most 8.64e15
    milliseconds either side of the epoch, or [NaN]: the object is then an
    Invalid Date.  [TimeClip] (ECMAScript 21.4.1.31) makes the time value
    of a result that has left the range [NaN]. *)
Inductive Date : Type :=
| Valid (t : Z)
| Invalid.

Definition maxTime : Z := 8640000000000000.

Definition TimeClip (t : Z) : Date :=
  if Z.abs t <=? maxTime then Valid t else Invalid.

(** [TimeClip] on a Number: the range is tested before the Number is
    truncated to an integer. *)
Definition TimeClip_number (tv : number) : Date :=
  match tv with
  | Fin q =>
      if Qle_bool (- inject_Z maxTime) q && Qle_bool q (inject_Z maxTime)
      then Valid (Qtrunc q)
      else Invalid
  | _ => Invalid
  end.

(** A value of the parsed JSON document, or [undefined] (the value of a
    property that is not there).  [VObject] lists the own properties of a
    plain object, [VArray] the elements of an array. *)
#[warnings="-register-all"] Inductive jsval : Type :=
| VUndefined
| VNull
| VBool (b : bool)
| VNum (n : number)
| VStr (s : string)
| VObject (props : list (string * jsval))
| VArray (elems : list jsval).

(** How a call completes: normally with a value, abruptly with a thrown
    [TypeError], or [OutOfFuel] when the loop budget given to the model
    was not enough. *)
Inductive outcome (A : Type) : Type :=
| Ret (a : A)
| Throw
| OutOfFuel.
Arguments Ret {A} a.
Arguments Throw {A}.
Arguments OutOfFuel {A}.

Definition bind {A B : Type} (m : outcome A) (k : A -> outcome B) : outcome B :=
  match m with
  | Ret a => k a
  | Throw => Throw
  | OutOfFuel => OutOfFuel
  end.

Notation "x <- m ;; k" := (bind m (fun x => k))
  (at level 61, m at next level, right associativity).

Fixpoint lookup (name : string) (props : list (string * jsval)) : option jsval :=
  match props with
  | [] => None
  | (k, v) :: rest => if String.eqb k name then Some v else lookup name rest
  end.

Definition has_own (name : string) (props : list (string * jsval)) : bool :=
  match lookup name props with Some _ => true | None => false end.

(** [v.name], for the property names the source reads ([cadence],
    [dateStart], [type], [interval], [weekday], [weekOfMonth]): none of them
    is defined on a built-in prototype, so only an own property of a plain
    object is found.  Reading a property of [undefined] or [null] throws. *)
Definition Get (v : jsval) (name : string) : outcome jsval :=
  match v with
  | VUndefined | VNull => Throw
  | VObject props =>
      Ret (match lookup name props with Some x => x | None => VUndefined end)
  | _ => Ret VUndefined
  end.

(** The value of [v.name] for a [v] that is not [undefined] or [null]. *)
Definition member (v : jsval) (name : string) : jsval :=
  match v with
  | VObject props =>
      match lookup name props with Some x => x | None => VUndefined end
  | _ => VUndefined
  end.

(** A primitive value: neither an object nor an array. *)
Definition is_primitive (v : jsval) : bool :=
  match v with
  | VObject _ | VArray _ => false
  | _ => true
  end.

(** [v?.name] *)
Definition GetOptional (v : jsval) (name : string) : outcome jsval :=
  match v with
  | VUndefined | VNull => Ret VUndefined
  | _ => Get v name
  end.

(** [a ?? b] *)
Definition nullish (a b : jsval) : jsval :=
  match a with
  | VUndefined | VNull => b
  | _ => a
  end.

Definition ToBoolean (v : jsval) : bool :=
  match v with
  | VUndefined | VNull => false
  | VBool b => b
  | VNum NaN => false
  | VNum (Infinity _) => true
  | VNum (Fin q) => negb (Qeq_bool q 0)
  | VStr s => negb (String.eqb s "")
  | VObject _ | VArray _ => true
  end.

Definition typeof (v : jsval) : string :=
  match v with
  | VUndefined => "undefined"
  | VNull => "object"
  | VBool _ => "boolean"
  | VNum _ => "number"
  | VStr _ => "string"
  | VObject _ | VArray _ => "object"
  end.

(** [a === "literal"] *)
Definition strict_eq_string (a : jsval) (lit : string) : bool :=
  match a with
  | VStr s => String.eqb s lit
  | _ => false
  end.

(** A Number is an integer. *)
Definition is_integer (n : number) : bool :=
  match n with
  | Fin q => Qeq_bool q (inject_Z (Qfloor q))
  | _ => false
  end.

(** A Number is not a finite number from [lo] to [hi]. *)
Definition outside (n : number) (lo hi : Q) : Prop :=
  match n with
  | Fin q => (q < lo)%Q \/ (hi < q)%Q
  | _ => True
  end.

(** A Number is not a finite number that is at least [lo]. *)
Definition below (n : number) (lo : Q) : Prop :=
  match n with
  | Fin q => (q < lo)%Q
  | Infinity _ | NaN => True
  end.

(** *** Strings *)

(** The code unit of the double quote. *)
Definition dquote : Ascii.ascii := "034"%char.

(** [s] starts with [p]. *)
Fixpoint starts_with (p s : string) : bool :=
  match p, s with
  | EmptyString, _ => true
  | String a p', String b s' => Ascii.eqb a b && starts_with p' s'
  | String _ _, EmptyString => false
  end.

(** [s.replaceAll(pattern, replacement)] for a string [pattern] and a
    [replacement] without [$]: the occurrences of [pattern] are found from
    left to right, the search resuming after each one, and each is replaced.
    [skip] counts the code units of [s] that still belong to the occurrence
    just replaced. *)
Fixpoint replaceAll_from (skip : nat) (s pattern replacement : string) : string :=
  match s with
  | EmptyString =>
      match skip, pattern with
      | O, EmptyString => replacement
      | _, _ => EmptyString
      end
  | String c rest =>
      match skip with
      | S k => replaceAll_from k rest pattern replacement
      | O =>
          match pattern with
          | EmptyString =>
              (replacement
               ++ String c (replaceAll_from O rest pattern replacement))%string
          | String _ p' =>
              if starts_with pattern s then
                (replacement
                 ++ replaceAll_from (String.length p') rest pattern replacement)%string
              else String c (replaceAll_from O rest pattern replacement)
          end
      end
  end.

Definition replaceAll (s pattern replacement : string) : string :=
  replaceAll_from O s pattern replacement.

(** Number of occurrences of the code unit [c] in [s]. *)
Fixpoint count_char (c : Ascii.ascii) (s : string) : nat :=
  match s with
  | EmptyString => O
  | String x rest =>
      ((if Ascii.eqb x c then 1 else 0) + count_char c rest)%nat
  end.

(** The text by which [escapeHtml] replaces a code unit. *)
Definition entity (c : Ascii.ascii) : string :=
  if Ascii.eqb c "&" then "&amp;"
  else if Ascii.eqb c "<" then "&lt;"
  else if Ascii.eqb c ">" then "&gt;"
  else if Ascii.eqb c dquote then "&quot;"
  else if Ascii.eqb c "'" then "&#039;"
  else String c EmptyString.

(** A code unit that [escapeHtml] replaces. *)
Definition is_markup (c : Ascii.ascii) : bool :=
  Ascii.eqb c "&" || Ascii.eqb c "<" || Ascii.eqb c ">"
  || Ascii.eqb c dquote || Ascii.eqb c "'".

(** The text of [s] with each code unit replaced by its [entity]. *)
Fixpoint escaped (s : string) : string :=
  match s with
  | EmptyString => EmptyString
  | String c rest => (entity c ++ escaped rest)%string
  end.

(** A host for the worked examples: local time is UTC, and no string is
    read as a number or as a date. *)
Definition utc_offset : Z := 0.
Definition no_number (s : string) : number := NaN.
Definition no_string (n : number) : string := "NaN"%string.
Definition no_date (s : string) : option Z := None.

(** A host with daylight saving for the worked examples, the United Kingdom
    in 2024: local time is one hour ahead of UTC from 01:00 UTC on 31 March
    to 01:00 UTC on 27 October.  A local time that the clocks skip or show
    twice is read with the offset in force before the change (ECMAScript
    21.4.1.26). *)
Definition summer_start : Z := civil 2024 2 31 1 0.
Definition summer_end : Z := civil 2024 9 27 1 0.

Definition uk_2024 (t : Z) (isUTC : bool) : Z :=
  let first := if isUTC then summer_start else summer_start + msPerHour in
  let last := if isUTC then summer_end else summer_end + msPerHour in
  if (first <=? t) && (t <? last) then msPerHour else 0.

(** The zone of the UTC host, as a function of the instant. *)
Definition utc_zone (t : Z) (isUTC : bool) : Z := 0.

(** ** The host: time zone and built-in conversions *)

Section Host.

(** Offset of local time from UTC, in milliseconds, of a host on which it
    never changes. *)
Variable LocalTZA : Z.
(** [StringToNumber] (ECMAScript 7.1.4.1.1), [Number::toString] and
    [Date.parse] (the time value read from a string, [None] for [NaN]). *)
Variable StringToNumber : string -> number.
Variable NumberToString : number -> string.
Variable DateParse : string -> option Z.

Definition LocalTime (t : Z) : Z := t + LocalTZA.
Definition UTC (t : Z) : Z := t - LocalTZA.

(** *** Conversions of values *)

(** [ToString].  A plain object is converted by [Object.prototype.toString]
    unless an own property named [toString] shadows it: a JSON value is never
    callable, so the conversion then finds no method that returns a primitive
    and throws a [TypeError] (OrdinaryToPrimitive, ECMAScript 7.1.1.1).  An
    array is converted by [Array.prototype.join]. *)
Fixpoint ToString (v : jsval) : outcome string :=
  match v with
  | VUndefined => Ret "undefined"%string
  | VNull => Ret "null"%string
  | VBool b => Ret (if b then "true" else "false")%string
  | VNum n => Ret (NumberToString n)
  | VStr s => Ret s
  | VObject props =>
      if has_own "toString" props then Throw else Ret "[object Object]"%string
  | VArray elems =>
      let element (e : jsval) : outcome string :=
        match e with
        | VUndefined | VNull => Ret ""%string
        | _ => ToString e
        end in
      (fix join (l : list jsval) : outcome string :=
         match l with
         | [] => Ret ""%string
         | [e] => element e
         | e :: rest =>
             s <- element e ;;
             r <- join rest ;;
             Ret (s ++ "," ++ r)%string
         end) elems
  end.

(** [ToPrimitive]: an object or array has no primitive [valueOf], so it is
    converted to its string. *)
Definition ToPrimitive (v : jsval) : outcome jsval :=
  match v with
  | VObject _ | VArray _ => s <- ToString v ;; Ret (VStr s)
  | _ => Ret v
  end.

(** [Number(v)] *)
Definition Number (v : jsval) : outcome number :=
  p <- ToPrimitive v ;;
  Ret (match p with
       | VUndefined => NaN
       | VNull => Fin 0
       | VBool b => Fin (if b then 1 else 0)
       | VNum n => n
       | VStr s => StringToNumber s
       | VObject _ | VArray _ => NaN
       end).

(** *** Date objects, first model

    A [Date] object is modelled by its time value; [None] stands for an
    Invalid Date (time value [NaN]) where a date is parsed.  The time
    value has no limit here, and the offset of the host is [LocalTZA] at
    every instant. *)

(** [new Date(value)] with one argument that is not a Date. *)
Definition Date_of_value (value : jsval) : outcome (option Z) :=
  p <- ToPrimitive value ;;
  match p with
  | VStr s => Ret (DateParse s)
  | _ =>
      n <- Number p ;;
      Ret (match n with Fin q => Some (Qtrunc q) | _ => None end)
  end.

(** [new Date(year, monthIndex, day)] in local time.  A year argument from
    0 to 99 denotes 1900 + year (ECMAScript 21.4.2.1); [day] is truncated by
    [MakeDay]. *)
Definition Date_ymd (year monthIndex : Z) (day : Q) : Z :=
  let yr := full_year year in
  UTC (MakeDate (MakeDay yr monthIndex (Qtrunc day)) (MakeTime 0 0 0 0)).

(** The instant at which the local calendar shows the given date and time. *)
Definition instant (year monthIndex day hours minutes : Z) : Z :=
  UTC (civil year monthIndex day hours minutes).

Definition getTime (d : Z) : Z := d.
Definition getFullYear (d : Z) : Z := YearFromTime (LocalTime d).
Definition getMonth (d : Z) : Z := MonthFromTime (LocalTime d).
Definition getDate (d : Z) : Z := DateFromTime (LocalTime d).
Definition getDay (d : Z) : Z := WeekDay (LocalTime d).
Definition getHours (d : Z) : Z := HourFromTime (LocalTime d).
Definition getMinutes (d : Z) : Z := MinFromTime (LocalTime d).
Definition getSeconds (d : Z) : Z := SecFromTime (LocalTime d).
Definition getMilliseconds (d : Z) : Z := msFromTime (LocalTime d).

(** [d.setHours(hour, min, sec, ms)], returning the new time value. *)
Definition setHours (d : Z) (hour min sec ms : Z) : Z :=
  let t := LocalTime d in
  UTC (MakeDate (Day t) (MakeTime hour min sec ms)).

(** [d.setDate(dt)] *)
Definition setDate (d : Z) (dt : Q) : Z :=
  let t := LocalTime d in
  UTC (MakeDate (MakeDay (YearFromTime t) (MonthFromTime t) (Qtrunc dt))
                (TimeWithinDay t)).

(** [d.setMonth(month)] *)
Definition setMonth (d : Z) (month : Z) : Z :=
  let t := LocalTime d in
  UTC (MakeDate (MakeDay (YearFromTime t) month (DateFromTime t))
                (TimeWithinDay t)).

(** *** events.js: calendar arithmetic *)

Definition isValidDate (d : option Z) : bool :=
  match d with Some _ => true | None => false end.

Definition parseDate (value : jsval) : outcome (option Z) :=
  if negb (ToBoolean value) then Ret None
  else
    d <- Date_of_value value ;;
    Ret (if isValidDate d then d else None).

Definition startOfDay (d : Z) : Z := setHours d 0 0 0 0.

Definition addDays (d : Z) (days : Q) : Z :=
  setDate d (inject_Z (getDate d) + days)%Q.

Definition addWeeks (d : Z) (weeks : Q) : Z := addDays d (weeks * 7)%Q.

(** [addMonths]; the source calls it with [months = 1] only. *)
Definition addMonths (d : Z) (months : Z) : Z :=
  let day := getDate d in
  let x := setMonth d (getMonth d + months) in
  if negb (getDate x =? day) then setDate x 0 else x.

Definition setTimeFromAnchor (dateOnly anchor : Z) : Z :=
  setHours dateOnly (getHours anchor) (getMinutes anchor)
           (getSeconds anchor) (getMilliseconds anchor).

Definition weeksBetween (a b : Z) : Z :=
  let ms := getTime (startOfDay b) - getTime (startOfDay a) in
  ms / (7 * 24 * 60 * 60 * 1000).

(** *** events.js: cadence -> next occurrence *)

(** The loop [while (candidate.getTime() <= now.getTime())
    candidate = addWeeks(candidate, intv)], allowed [fuel] executions of
    its body. *)
Fixpoint catch_up (fuel : nat) (intv : Q) (now candidate : Z) : outcome Z :=
  if getTime candidate <=? getTime now then
    match fuel with
    | O => OutOfFuel
    | S fuel' => catch_up fuel' intv now (addWeeks candidate intv)
    end
  else Ret candidate.

Definition nextWeeklyOccurrence (fuel : nat) (anchorStart : option Z)
    (interval weekday : jsval) (now : Z) : outcome (option Z) :=
  match anchorStart with
  | None => Ret None
  | Some anchorStart =>
      intv <- Number (nullish interval (VNum (Fin 1))) ;;
      wd <- Number weekday ;;
      if negb (Number_isFinite intv) || num_lt intv (Fin 1)
         || negb (Number_isFinite wd) || num_lt wd (Fin 0) || num_lt (Fin 6) wd
      then Ret None
      else
        match intv, wd with
        | Fin intv, Fin wd =>
            let anchorDay := startOfDay anchorStart in
            let deltaToWd := js_rem (wd - inject_Z (getDay anchorDay) + 7) 7 in
            let firstDay := addDays anchorDay deltaToWd in
            let base := setTimeFromAnchor firstDay anchorStart in
            let base :=
              if getTime base <? getTime anchorStart then addWeeks base 1
              else base in
            if getTime now <? getTime base then Ret (Some base)
            else
              let w := weeksBetween base now in
              let blocks := Qfloor (inject_Z w / intv) in
              let candidate := addWeeks base (inject_Z blocks * intv) in
              c <- catch_up fuel intv now candidate ;;
              Ret (Some c)
        | _, _ => Ret None
        end
  end.

Definition nthWeekdayOfMonth (year monthIndex : Z) (weekday weekOfMonth : Q) : Z :=
  let first := Date_ymd year monthIndex 1 in
  let offset := js_rem (weekday - inject_Z (getDay first) + 7) 7 in
  let day := (1 + offset + (weekOfMonth - 1) * 7)%Q in
  Date_ymd year monthIndex day.

(** The body of [for (let i = 0; i < 24; i++)], with [n] iterations left. *)
Fixpoint monthly_scan (n : nat) (anchorStart : Z) (wd wom : Q) (now cursor : Z)
    : option Z :=
  match n with
  | O => None
  | S n' =>
      let occDateOnly :=
        nthWeekdayOfMonth (getFullYear cursor) (getMonth cursor) wd wom in
      let occ := setTimeFromAnchor occDateOnly anchorStart in
      if getTime occ <? getTime anchorStart then
        monthly_scan n' anchorStart wd wom now (addMonths cursor 1)
      else if getTime now <? getTime occ then Some occ
      else monthly_scan n' anchorStart wd wom now (addMonths cursor 1)
  end.

Definition nextMonthlyOccurrence (anchorStart : option Z)
    (weekday weekOfMonth : jsval) (now : Z) : outcome (option Z) :=
  match anchorStart with
  | None => Ret None
  | Some anchorStart =>
      wd <- Number weekday ;;
      wom <- Number weekOfMonth ;;
      if negb (Number_isFinite wd) || num_lt wd (Fin 0) || num_lt (Fin 6) wd
         || negb (Number_isFinite wom) || num_lt wom (Fin 1) || num_lt (Fin 5) wom
      then Ret None
      else
        match wd, wom with
        | Fin wd, Fin wom =>
            let cursor := Date_ymd (getFullYear now) (getMonth now) 1 in
            Ret (monthly_scan 24 anchorStart wd wom now cursor)
        | _, _ => Ret None
        end
  end.

Definition nextOccurrenceForEvent (fuel : nat) (ev : jsval) (now : Z)
    : outcome (option Z) :=
  cadence <- GetOptional ev "cadence" ;;
  if negb (ToBoolean cadence) || negb (String.eqb (typeof cadence) "object")
  then Ret None
  else
    dateStart <- Get ev "dateStart" ;;
    anchorStart <- parseDate dateStart ;;
    match anchorStart with
    | None => Ret None
    | Some _ =>
        type <- Get cadence "type" ;;
        if strict_eq_string type "weekly" then
          interval <- Get cadence "interval" ;;
          weekday <- Get cadence "weekday" ;;
          nextWeeklyOccurrence fuel anchorStart interval weekday now
        else if strict_eq_string type "monthly" then
          weekday <- Get cadence "weekday" ;;
          weekOfMonth <- Get cadence "weekOfMonth" ;;
          nextMonthlyOccurrence anchorStart weekday weekOfMonth now
        else Ret None
    end.

(** *** events.js: escaping and links *)

(** [escapeHtml(str)]: [String(str ?? "")] followed by the five
    [replaceAll] calls, in the order of the source. *)
Definition escapeHtml (str : jsval) : outcome string :=
  s <- ToString (nullish str (VStr "")) ;;
  Ret (replaceAll
         (replaceAll
            (replaceAll
               (replaceAll (replaceAll s "&" "&amp;") "<" "&lt;")
               ">" "&gt;")
            (String dquote "") "&quot;")
         "'" "&#039;").

(** The test of [links.filter(...)]:
    [l && typeof l === "object" && l.href && l.label], as a condition.
    ([href] and [label], like [recurring], [dateEnd] and [links], are names
    that no built-in prototype defines.) *)
Definition link_shown (l : jsval) : bool :=
  ToBoolean l && String.eqb (typeof l) "object"
  && ToBoolean (member l "href") && ToBoolean (member l "label").

(** The template literal of [links.map(...)]. *)
Definition link_html (l : jsval) : outcome string :=
  href <- escapeHtml (member l "href") ;;
  label <- escapeHtml (member l "label") ;;
  Ret ("<a class=" ++ String dquote "event-link" ++ String dquote " href="
       ++ String dquote href ++ String dquote " target="
       ++ String dquote "_blank" ++ String dquote " rel="
       ++ String dquote "noopener" ++ String dquote ">"
       ++ label ++ "</a>")%string.

(** [shown.map(...)] for the links [shown] that passed the filter. *)
Fixpoint link_items (shown : list jsval) : outcome (list string) :=
  match shown with
  | [] => Ret []
  | l :: rest =>
      h <- link_html l ;;
      hs <- link_items rest ;;
      Ret (h :: hs)
  end.

Definition renderLinks (links : jsval) : outcome string :=
  match links with
  | VArray [] => Ret ""%string
  | VArray elems =>
      items <- link_items (List.filter link_shown elems) ;;
      Ret (match items with
           | [] => ""
           | _ => "<div class=" ++ String dquote "event-links"
                  ++ String dquote ">" ++ String.concat "" items ++ "</div>"
           end)%string
  | _ => Ret ""%string
  end.

(** *** events.js: the two lists of events *)

Definition isRecurring (ev : jsval) : bool :=
  ToBoolean ev && String.eqb (typeof ev) "object"
  && match member ev "recurring" with VBool true => true | _ => false end.

Definition isUpcomingOneOff (ev : jsval) (now : Z) : outcome bool :=
  dateStart <- Get ev "dateStart" ;;
  start <- parseDate dateStart ;;
  match start with
  | None => Ret false
  | Some start =>
      dateEnd <- Get ev "dateEnd" ;;
      end_ <- parseDate dateEnd ;;
      let cutoff := match end_ with Some e => e | None => start end in
      Ret (getTime now <=? getTime cutoff)
  end.

(** An entry of the lists [special] and [regular] of [main]:
    [{ kind, when, ev }]. *)
Inductive item_kind : Type := oneoff | recurring.

Record item : Type := { kind : item_kind; when : Z; ev : jsval }.

(** The loop [for (const ev of events)] of [main], on the lists built so
    far; [push] appends. *)
Fixpoint main_loop (fuel : nat) (events : list jsval) (now : Z)
    (special regular : list item) : outcome (list item * list item) :=
  match events with
  | [] => Ret (special, regular)
  | e :: rest =>
      if negb (ToBoolean e) || negb (String.eqb (typeof e) "object") then
        main_loop fuel rest now special regular
      else if isRecurring e then
        next <- nextOccurrenceForEvent fuel e now ;;
        match next with
        | Some next =>
            main_loop fuel rest now special
              (regular ++ [{| kind := recurring; when := next; ev := e |}])
        | None => main_loop fuel rest now special regular
        end
      else
        upcoming <- isUpcomingOneOff e now ;;
        if upcoming then
          dateStart <- Get e "dateStart" ;;
          start <- parseDate dateStart ;;
          match start with
          | Some start =>
              main_loop fuel rest now
                (special ++ [{| kind := oneoff; when := start; ev := e |}])
                regular
          | None => main_loop fuel rest now special regular
          end
        else main_loop fuel rest now special regular
  end.

(** The number of elements of [links] that [renderLinks] shows. *)
Definition shown_links (links : jsval) : nat :=
  match links with
  | VArray elems => List.length (List.filter link_shown elems)
  | _ => O
  end.

(** What holds of an entry of the list [regular]: it was made from an event
    of the input marked as recurring, and its date is the occurrence the
    dispatcher returned for it. *)
Definition regular_entry (fuel : nat) (events : list jsval) (now : Z)
    (it : item) : Prop :=
  kind it = recurring /\ In (ev it) events /\ isRecurring (ev it) = true /\
  nextOccurrenceForEvent fuel (ev it) now = Ret (Some (when it)).

(** What holds of an entry of the list [special]: it was made from an
    event of the input not marked as recurring, its date is the parsed
    [dateStart], and its end - or its start, when [dateEnd] gives no date -
    is not before [now]. *)
Definition special_entry (events : list jsval) (now : Z) (it : item) : Prop :=
  kind it = oneoff /\ In (ev it) events /\ isRecurring (ev it) = false /\
  parseDate (member (ev it) "dateStart") = Ret (Some (when it)) /\
  ((exists e, parseDate (member (ev it) "dateEnd") = Ret (Some e) /\ now <= e) \/
   (parseDate (member (ev it) "dateEnd") = Ret None /\ now <= when it)).

(** A value whose conversion to a string or to a number completes: it is
    not a plain object with an own property named [toString], nor an array
    that holds such a value. *)
Fixpoint convertible (v : jsval) : bool :=
  match v with
  | VObject props => negb (has_own "toString" props)
  | VArray elems => forallb convertible elems
  | _ => true
  end.

(** The values of an event that the dispatcher and the loop of [main]
    convert are convertible. *)
Definition event_convertible (ev : jsval) : bool :=
  convertible (member ev "dateStart") && convertible (member ev "dateEnd")
  && convertible (member (member ev "cadence") "interval")
  && convertible (member (member ev "cadence") "weekday")
  && convertible (member (member ev "cadence") "weekOfMonth").

(** *** Valid descriptors and the occurrences they denote *)

(** A weekly descriptor is valid when [Number(interval ?? 1)] is an integer
    [i >= 1] and [Number(weekday)] an integer [w] from 0 to 6. *)
Definition valid_weekly (interval weekday : jsval) (i w : Z) : Prop :=
  Number (nullish interval (VNum (Fin 1))) = Ret (Fin (inject_Z i)) /\ 1 <= i /\
  Number weekday = Ret (Fin (inject_Z w)) /\ 0 <= w <= 6.

(** A monthly descriptor is valid when [Number(weekday)] is an integer [w]
    from 0 to 6 and [Number(weekOfMonth)] an integer [n] from 1 to 5. *)
Definition valid_monthly (weekday weekOfMonth : jsval) (w n : Z) : Prop :=
  Number weekday = Ret (Fin (inject_Z w)) /\ 0 <= w <= 6 /\
  Number weekOfMonth = Ret (Fin (inject_Z n)) /\ 1 <= n <= 5.

Definition msPerWeek : Z := 7 * msPerDay.

(** The first occurrence of a weekly event: the first instant on or after
    the anchor that falls on weekday [w] at the anchor's time of day (the
    source's [base]). *)
Definition weekly_base (anchorStart w : Z) : Z :=
  anchorStart + ((w - getDay anchorStart + 7) mod 7) * msPerDay.

(** Two dates have the same time of day. *)
Definition same_time_of_day (a b : Z) : Prop :=
  getHours a = getHours b /\ getMinutes a = getMinutes b /\
  getSeconds a = getSeconds b /\ getMilliseconds a = getMilliseconds b.

(** Absolute index of the month of a date, [12 * year + month]. *)
Definition month_index (d : Z) : Z := 12 * getFullYear d + getMonth d.

(** The local midnight that starts the month of absolute index [k]. *)
Definition month_start (k : Z) : Z := UTC (MakeDate (MonthDay k) 0).

(** The [n]-th weekday [w] counted from the start of month [k], at the
    anchor's time of day; for [n = 5] the day may lie past the end of the
    month. *)
Definition month_occurrence (anchorStart w n k : Z) : Z :=
  let first := MonthDay k in
  let offset := (w - (first + 4) mod 7 + 7) mod 7 in
  UTC (MakeDate (first + offset + 7 * (n - 1))
                (TimeWithinDay (LocalTime anchorStart))).

(** The occurrence the monthly loop computes from a cursor. *)
Definition occurrence_of (anchorStart : Z) (wd wom : Q) (cursor : Z) : Z :=
  setTimeFromAnchor
    (nthWeekdayOfMonth (getFullYear cursor) (getMonth cursor) wd wom)
    anchorStart.

(** The cursor of the monthly loop after [j] iterations. *)
Definition cursor_at (now : Z) (j : nat) : Z :=
  Nat.iter j (fun c => addMonths c 1)
           (Date_ymd (getFullYear now) (getMonth now) 1).

(** The years of the 24 months scanned from [now] are read by the [Date]
    constructor as they are: none of them lies from 0 to 99. *)
Definition plain_years (now : Z) : Prop :=
  getFullYear now < -2 \/ 100 <= getFullYear now.

(** An occurrence the monthly loop returns: not before the anchor and
    strictly after [now]. *)
Definition acceptable (anchorStart now occ : Z) : Prop :=
  anchorStart <= occ /\ now < occ.

(** ** Date objects in full: changing offsets and Invalid Date

    The definitions above take a host whose offset from UTC never changes
    and dates far from the ends of the range of the time value.  The
    definitions of this part drop both: the offset is [LocalTZA_at], a
    function of the instant, every operation clips its result with
    [TimeClip], and an Invalid Date goes through the source as it does in
    the engine (its fields are [NaN], every comparison with it is false,
    and it is an object, so [!d] is false).  Each source function has here
    the name of its first model with the suffix [_full]. *)

Section Zone.

(** [LocalTZA(t, isUTC)] (ECMAScript 21.4.1.24): the offset of local time
    from UTC in force at [t], which is a UTC time value when [isUTC] and a
    local one otherwise. *)
Variable LocalTZA_at : Z -> bool -> Z.

Definition LocalTime_at (t : Z) : Z := t + LocalTZA_at t true.
Definition UTC_at (t : Z) : Z := t - LocalTZA_at t false.

(** [d.getTime()] *)
Definition Date_getTime (d : Date) : number :=
  match d with
  | Valid t => Fin (inject_Z t)
  | Invalid => NaN
  end.

(** A field of the local time of a Date, [NaN] for an Invalid Date. *)
Definition local_field (field : Z -> Z) (d : Date) : number :=
  match d with
  | Valid t => Fin (inject_Z (field (LocalTime_at t)))
  | Invalid => NaN
  end.

Definition Date_getFullYear : Date -> number := local_field YearFromTime.
Definition Date_getMonth : Date -> number := local_field MonthFromTime.
Definition Date_getDate : Date -> number := local_field DateFromTime.
Definition Date_getDay : Date -> number := local_field WeekDay.
Definition Date_getHours : Date -> number := local_field HourFromTime.
Definition Date_getMinutes : Date -> number := local_field MinFromTime.
Definition Date_getSeconds : Date -> number := local_field SecFromTime.
Definition Date_getMilliseconds : Date -> number := local_field msFromTime.

(** [d.setHours(hour, min, sec, ms)], as the Date that [d] becomes. *)
Definition Date_setHours (d : Date) (hour min sec ms : number) : Date :=
  match d, hour, min, sec, ms with
  | Valid t, Fin h, Fin m, Fin s, Fin milli =>
      TimeClip
        (UTC_at (MakeDate (Day (LocalTime_at t))
                          (MakeTime (Qtrunc h) (Qtrunc m) (Qtrunc s) (Qtrunc milli))))
  | _, _, _, _, _ => Invalid
  end.

(** [d.setDate(dt)] *)
Definition Date_setDate (d : Date) (dt : number) : Date :=
  match d, dt with
  | Valid t, Fin q =>
      let tl := LocalTime_at t in
      TimeClip
        (UTC_at (MakeDate (MakeDay (YearFromTime tl) (MonthFromTime tl) (Qtrunc q))
                          (TimeWithinDay tl)))
  | _, _ => Invalid
  end.

(** [d.setMonth(month)] *)
Definition Date_setMonth (d : Date) (month : number) : Date :=
  match d, month with
  | Valid t, Fin q =>
      let tl := LocalTime_at t in
      TimeClip
        (UTC_at (MakeDate (MakeDay (YearFromTime tl) (Qtrunc q) (DateFromTime tl))
                          (TimeWithinDay tl)))
  | _, _ => Invalid
  end.

(** [new Date(year, monthIndex, day)] *)
Definition Date_ymd_full (year monthIndex day : number) : Date :=
  match year, monthIndex, day with
  | Fin y, Fin m, Fin dt =>
      TimeClip
        (UTC_at (MakeDate (MakeDay (full_year (Qtrunc y)) (Qtrunc m) (Qtrunc dt))
                          (MakeTime 0 0 0 0)))
  | _, _, _ => Invalid
  end.

(** [new Date(value)] with one argument that is not a Date. *)
Definition Date_of_value_full (value : jsval) : outcome Date :=
  p <- ToPrimitive value ;;
  match p with
  | VStr s => Ret (match DateParse s with Some t => TimeClip t | None => Invalid end)
  | _ =>
      n <- Number p ;;
      Ret (TimeClip_number n)
  end.

(** *** events.js on Date objects *)

Definition isValidDate_full (d : Date) : bool :=
  match d with Valid _ => true | Invalid => false end.

(** [parseDate]: a valid Date, or [None] for [null]. *)
Definition parseDate_full (value : jsval) : outcome (option Date) :=
  if negb (ToBoolean value) then Ret None
  else
    d <- Date_of_value_full value ;;
    Ret (if isValidDate_full d then Some d else None).

Definition startOfDay_full (d : Date) : Date :=
  Date_setHours d (Fin 0) (Fin 0) (Fin 0) (Fin 0).

Definition addDays_full (d : Date) (days : number) : Date :=
  Date_setDate d (num_add (Date_getDate d) days).

Definition addWeeks_full (d : Date) (weeks : number) : Date :=
  addDays_full d (num_mul weeks (Fin 7)).

Definition addMonths_full (d : Date) (months : number) : Date :=
  let day := Date_getDate d in
  let x := Date_setMonth d (num_add (Date_getMonth d) months) in
  if negb (num_eq (Date_getDate x) day) then Date_setDate x (Fin 0) else x.

Definition setTimeFromAnchor_full (dateOnly anchor : Date) : Date :=
  Date_setHours dateOnly (Date_getHours anchor) (Date_getMinutes anchor)
                (Date_getSeconds anchor) (Date_getMilliseconds anchor).

Definition weeksBetween_full (a b : Date) : number :=
  let ms := num_sub (Date_getTime (startOfDay_full b))
                    (Date_getTime (startOfDay_full a)) in
  num_floor (num_div ms (Fin (inject_Z (7 * 24 * 60 * 60 * 1000)))).

(** The [while] loop of the weekly resolver, allowed [fuel] executions of
    its body.  An Invalid Date ends it: [NaN <= now] is false. *)
Fixpoint catch_up_full (fuel : nat) (intv : number) (now candidate : Date)
    : outcome Date :=
  if num_le (Date_getTime candidate) (Date_getTime now) then
    match fuel with
    | O => OutOfFuel
    | S fuel' => catch_up_full fuel' intv now (addWeeks_full candidate intv)
    end
  else Ret candidate.

(** [nextWeeklyOccurrence]: [None] for [null], [Some] of the Date returned,
    which may be an Invalid Date. *)
Definition nextWeeklyOccurrence_full (fuel : nat) (anchorStart : option Date)
    (interval weekday : jsval) (now : Date) : outcome (option Date) :=
  match anchorStart with
  | None => Ret None
  | Some anchorStart =>
      intv <- Number (nullish interval (VNum (Fin 1))) ;;
      wd <- Number weekday ;;
      if negb (Number_isFinite intv) || num_lt intv (Fin 1)
         || negb (Number_isFinite wd) || num_lt wd (Fin 0) || num_lt (Fin 6) wd
      then Ret None
      else
        let anchorDay := startOfDay_full anchorStart in
        let deltaToWd :=
          num_rem (num_add (num_sub wd (Date_getDay anchorDay)) (Fin 7)) (Fin 7) in
        let firstDay := addDays_full anchorDay deltaToWd in
        let base := setTimeFromAnchor_full firstDay anchorStart in
        let base :=
          if num_lt (Date_getTime base) (Date_getTime anchorStart)
          then addWeeks_full base (Fin 1)
          else base in
        if num_lt (Date_getTime now) (Date_getTime base) then Ret (Some base)
        else
          let w := weeksBetween_full base now in
          let blocks := num_floor (num_div w intv) in
          let candidate := addWeeks_full base (num_mul blocks intv) in
          c <- catch_up_full fuel intv now candidate ;;
          Ret (Some c)
  end.

Definition nthWeekdayOfMonth_full (year monthIndex weekday weekOfMonth : number)
    : Date :=
  let first := Date_ymd_full year monthIndex (Fin 1) in
  let offset :=
    num_rem (num_add (num_sub weekday (Date_getDay first)) (Fin 7)) (Fin 7) in
  let day :=
    num_add (num_add (Fin 1) offset) (num_mul (num_sub weekOfMonth (Fin 1)) (Fin 7)) in
  Date_ymd_full year monthIndex day.

(** The body of [for (let i = 0; i < 24; i++)], with [n] iterations left. *)
Fixpoint monthly_scan_full (n : nat) (anchorStart : Date) (wd wom : number)
    (now cursor : Date) : option Date :=
  match n with
  | O => None
  | S n' =>
      let occDateOnly :=
        nthWeekdayOfMonth_full (Date_getFullYear cursor) (Date_getMonth cursor)
                               wd wom in
      let occ := setTimeFromAnchor_full occDateOnly anchorStart in
      if num_lt (Date_getTime occ) (Date_getTime anchorStart) then
        monthly_scan_full n' anchorStart wd wom now (addMonths_full cursor (Fin 1))
      else if num_lt (Date_getTime now) (Date_getTime occ) then Some occ
      else monthly_scan_full n' anchorStart wd wom now (addMonths_full cursor (Fin 1))
  end.

Definition nextMonthlyOccurrence_full (anchorStart : option Date)
    (weekday weekOfMonth : jsval) (now : Date) : outcome (option Date) :=
  match anchorStart with
  | None => Ret None
  | Some anchorStart =>
      wd <- Number weekday ;;
      wom <- Number weekOfMonth ;;
      if negb (Number_isFinite wd) || num_lt wd (Fin 0) || num_lt (Fin 6) wd
         || negb (Number_isFinite wom) || num_lt wom (Fin 1) || num_lt (Fin 5) wom
      then Ret None
      else
        let cursor :=
          Date_ymd_full (Date_getFullYear now) (Date_getMonth now) (Fin 1) in
        Ret (monthly_scan_full 24 anchorStart wd wom now cursor)
  end.

Definition nextOccurrenceForEvent_full (fuel : nat) (ev : jsval) (now : Date)
    : outcome (option Date) :=
  cadence <- GetOptional ev "cadence" ;;
  if negb (ToBoolean cadence) || negb (String.eqb (typeof cadence) "object")
  then Ret None
  else
    dateStart <- Get ev "dateStart" ;;
    anchorStart <- parseDate_full dateStart ;;
    match anchorStart with
    | None => Ret None
    | Some _ =>
        type <- Get cadence "type" ;;
        if strict_eq_string type "weekly" then
          interval <- Get cadence "interval" ;;
          weekday <- Get cadence "weekday" ;;
          nextWeeklyOccurrence_full fuel anchorStart interval weekday now
        else if strict_eq_string type "monthly" then
          weekday <- Get cadence "weekday" ;;
          weekOfMonth <- Get cadence "weekOfMonth" ;;
          nextMonthlyOccurrence_full anchorStart weekday weekOfMonth now
        else Ret None
    end.

Definition isUpcomingOneOff_full (ev : jsval) (now : Date) : outcome bool :=
  dateStart <- Get ev "dateStart" ;;
  start <- parseDate_full dateStart ;;
  match start with
  | None => Ret false
  | Some start =>
      dateEnd <- Get ev "dateEnd" ;;
      end_ <- parseDate_full dateEnd ;;
      let cutoff := match end_ with Some e => e | None => start end in
      Ret (num_le (Date_getTime now) (Date_getTime cutoff))
  end.

(** An entry [{ kind, when, ev }] whose [when] is a Date object. *)
Record entry : Type :=
  { entry_kind : item_kind; entry_when : Date; entry_ev : jsval }.

(** The loop [for (const ev of events)] of [main].  [if (next)] tests an
    object: it holds for every Date, valid or not. *)
Fixpoint main_loop_full (fuel : nat) (events : list jsval) (now : Date)
    (special regular : list entry) : outcome (list entry * list entry) :=
  match events with
  | [] => Ret (special, regular)
  | e :: rest =>
      if negb (ToBoolean e) || negb (String.eqb (typeof e) "object") then
        main_loop_full fuel rest now special regular
      else if isRecurring e then
        next <- nextOccurrenceForEvent_full fuel e now ;;
        match next with
        | Some next =>
            main_loop_full fuel rest now special
              (regular
               ++ [{| entry_kind := recurring; entry_when := next; entry_ev := e |}])
        | None => main_loop_full fuel rest now special regular
        end
      else
        upcoming <- isUpcomingOneOff_full e now ;;
        if upcoming then
          dateStart <- Get e "dateStart" ;;
          start <- parseDate_full dateStart ;;
          match start with
          | Some start =>
              main_loop_full fuel rest now
                (special
                 ++ [{| entry_kind := oneoff; entry_when := start; entry_ev := e |}])
                regular
          | None => main_loop_full fuel rest now special regular
          end
        else main_loop_full fuel rest now special regular
  end.

(** *** Hosts and dates in the statements *)

(** The offset of the host never changes: it is [LocalTZA] at every
    instant. *)
Definition constant_offset : Prop :=
  forall t isUTC, LocalTZA_at t isUTC = LocalTZA.

(** The offset of the host is never more than a day. *)
Definition bounded_offset : Prop :=
  forall t isUTC, Z.abs (LocalTZA_at t isUTC) <= msPerDay.

(** The instant at which the local calendar shows the given date and
    time. *)
Definition instant_at (year monthIndex day hours minutes : Z) : Z :=
  UTC_at (civil year monthIndex day hours minutes).

(** Two Dates show the same time of day on the local clock. *)
Definition same_clock (a b : Date) : Prop :=
  Date_getHours a = Date_getHours b /\ Date_getMinutes a = Date_getMinutes b /\
  Date_getSeconds a = Date_getSeconds b /\
  Date_getMilliseconds a = Date_getMilliseconds b.

(** The occurrence the monthly loop computes from a cursor. *)
Definition occurrence_full (anchorStart : Date) (wd wom : number) (cursor : Date)
    : Date :=
  setTimeFromAnchor_full
    (nthWeekdayOfMonth_full (Date_getFullYear cursor) (Date_getMonth cursor) wd wom)
    anchorStart.

(** The cursor of the monthly loop after [j] iterations. *)
Definition cursor_full (now : Date) (j : nat) : Date :=
  Nat.iter j (fun c => addMonths_full c (Fin 1))
           (Date_ymd_full (Date_getFullYear now) (Date_getMonth now) (Fin 1)).

(** A Date that passes the two tests of the monthly loop: [occ < anchorStart]
    is false and [occ > now] is true. *)
Definition accepted (anchorStart now occ : Date) : Prop :=
  num_lt (Date_getTime occ) (Date_getTime anchorStart) = false /\
  num_lt (Date_getTime now) (Date_getTime occ) = true.

(** A Date that is not over at [now]: a date strictly after [now], or an
    Invalid Date. *)
Definition after_or_invalid (now : Z) (d : Date) : Prop :=
  match d with
  | Valid r => now < r
  | Invalid => True
  end.

(** What holds of an entry of the list [regular]: it was made from an event
    of the input marked as recurring, and its Date is the one the dispatcher
    returned for it. *)
Definition regular_entry_full (fuel : nat) (events : list jsval) (now : Date)
    (it : entry) : Prop :=
  entry_kind it = recurring /\ In (entry_ev it) events /\
  isRecurring (entry_ev it) = true /\
  nextOccurrenceForEvent_full fuel (entry_ev it) now = Ret (Some (entry_when it)).

(** What holds of an entry of the list [special]: it was made from an event
    of the input not marked as recurring, its Date is the valid date parsed
    from [dateStart], and its end - or its start, when [dateEnd] gives no
    date - is not before [now]. *)
Definition special_entry_full (events : list jsval) (now : Z) (it : entry) : Prop :=
  entry_kind it = oneoff /\ In (entry_ev it) events /\
  isRecurring (entry_ev it) = false /\
  exists start,
    entry_when it = Valid start /\
    parseDate_full (member (entry_ev it) "dateStart") = Ret (Some (Valid start)) /\
    ((exists e,
        parseDate_full (member (entry_ev it) "dateEnd") = Ret (Some (Valid e)) /\
        now <= e) \/
     (parseDate_full (member (entry_ev it) "dateEnd") = Ret None /\ now <= start)).

(** The first days of the 24 months scanned from [now] are within the range
    of the time value. *)
Definition scan_in_range (now : Z) : Prop :=
  - maxTime <= month_start (month_index now) /\
  month_start (month_index now + 24) <= maxTime.

End Zone.

(** ** The calendar: years, months and days *)

Lemma DayFromYear_succ y : DayFromYear (y + 1) = DayFromYear y + DaysInYear y.
Proof.
  unfold DayFromYear, DaysInYear.
  destruct (Z.eqb_spec (y mod 4) 0), (Z.eqb_spec (y mod 100) 0), (Z.eqb_spec (y mod 400) 0);
    cbn [negb]; Z.div_mod_to_equations; lia.
Qed.

Lemma DaysInYear_cases y : DaysInYear y = 365 \/ DaysInYear y = 366.
Proof.
  unfold DaysInYear.
  destruct (y mod 4 =? 0), (y mod 100 =? 0), (y mod 400 =? 0); cbn [negb]; auto.
Qed.

Lemma LeapDays_cases y : LeapDays y = DaysInYear y - 365.
Proof.
  unfold LeapDays. destruct (DaysInYear_cases y) as [H | H]; rewrite H; reflexivity.
Qed.

Lemma DayFromYear_le y y' : y <= y' -> DayFromYear y <= DayFromYear y'.
Proof. unfold DayFromYear. intros. Z.div_mod_to_equations; lia. Qed.

Lemma YearFromDay_spec d :
  DayFromYear (YearFromDay d) <= d < DayFromYear (YearFromDay d + 1).
Proof.
  unfold YearFromDay.
  destruct (Z.ltb_spec d (DayFromYear (1970 + 400 * d / 146097))).
  - unfold DayFromYear in *. Z.div_mod_to_equations; lia.
  - destruct (Z.leb_spec (DayFromYear (1970 + 400 * d / 146097 + 1)) d).
    + unfold DayFromYear in *. Z.div_mod_to_equations; lia.
    + lia.
Qed.

Lemma YearFromDay_unique d y :
  DayFromYear y <= d < DayFromYear (y + 1) -> YearFromDay d = y.
Proof.
  intros H. pose proof (YearFromDay_spec d) as S.
  destruct (Z.lt_trichotomy (YearFromDay d) y) as [L | [E | G]]; [ | exact E | ].
  - pose proof (DayFromYear_le (YearFromDay d + 1) y ltac:(lia)). lia.
  - pose proof (DayFromYear_le (y + 1) (YearFromDay d) ltac:(lia)). lia.
Qed.

Lemma Day_MakeDate d time :
  0 <= time < msPerDay -> Day (MakeDate d time) = d.
Proof. unfold Day, MakeDate, msPerDay. intros. Z.div_mod_to_equations; lia. Qed.

Lemma TimeWithinDay_MakeDate d time :
  0 <= time < msPerDay -> TimeWithinDay (MakeDate d time) = time.
Proof. unfold TimeWithinDay, MakeDate, msPerDay. intros. Z.div_mod_to_equations; lia. Qed.

Lemma MakeDate_Day t : MakeDate (Day t) (TimeWithinDay t) = t.
Proof. unfold MakeDate, Day, TimeWithinDay, msPerDay. Z.div_mod_to_equations; lia. Qed.

Lemma TimeWithinDay_range t : 0 <= TimeWithinDay t < msPerDay.
Proof. unfold TimeWithinDay, msPerDay. Z.div_mod_to_equations; lia. Qed.

Lemma DayWithinYear_range t :
  0 <= DayWithinYear t < DaysInYear (YearFromTime t).
Proof.
  unfold DayWithinYear, YearFromTime.
  pose proof (YearFromDay_spec (Day t)) as S.
  rewrite DayFromYear_succ in S. lia.
Qed.

Lemma InLeapYear_eq t : InLeapYear t = LeapDays (YearFromTime t).
Proof. reflexivity. Qed.

Lemma MonthFromTime_range t : 0 <= MonthFromTime t <= 11.
Proof.
  unfold MonthFromTime.
  repeat match goal with |- context [if ?c then _ else _] => destruct c end; lia.
Qed.

Lemma MakeDay_civil t :
  MakeDay (YearFromTime t) (MonthFromTime t) (DateFromTime t) = Day t.
Proof.
  pose proof (MonthFromTime_range t) as R.
  unfold MakeDay.
  rewrite (Z.div_small (MonthFromTime t) 12), (Z.mod_small (MonthFromTime t) 12) by lia.
  rewrite Z.add_0_r, <- InLeapYear_eq.
  unfold DateFromTime. 
  assert (Day t = DayFromYear (YearFromTime t) + DayWithinYear t) as -> by (unfold DayWithinYear; lia).
  generalize (DayWithinYear_range t). intros _.
  unfold MonthFromTime in *.
  repeat match goal with |- context [if ?c then _ else _] => destruct c end;
    cbn [MonthStart]; lia.
Qed.

Lemma MakeDay_add y m d n : MakeDay y m (d + n) = MakeDay y m d + n.
Proof. unfold MakeDay. lia. Qed.


Lemma LeapDays_range y : 0 <= LeapDays y <= 1.
Proof. unfold LeapDays. destruct (DaysInYear y =? 366); lia. Qed.

Lemma DateFromTime_range t :
  1 <= DateFromTime t <= DaysInMonth (YearFromTime t) (MonthFromTime t).
Proof.
  pose proof (DayWithinYear_range t) as R.
  pose proof (LeapDays_cases (YearFromTime t)) as L.
  pose proof (LeapDays_range (YearFromTime t)) as L'.
  rewrite <- InLeapYear_eq in *.
  unfold DateFromTime, MonthFromTime.
  repeat match goal with
         | |- context [if ?a <? ?b then _ else _] => destruct (Z.ltb_spec a b)
         end; cbn [DaysInMonth]; rewrite <- ?InLeapYear_eq; lia.
Qed.

Lemma civil_of_MakeDay y m dt time :
  0 <= m <= 11 -> 1 <= dt <= DaysInMonth y m -> 0 <= time < msPerDay ->
  YearFromTime (MakeDate (MakeDay y m dt) time) = y /\
  MonthFromTime (MakeDate (MakeDay y m dt) time) = m /\
  DateFromTime (MakeDate (MakeDay y m dt) time) = dt.
Proof.
  intros Hm Hd Ht.
  pose proof (LeapDays_cases y) as L. pose proof (LeapDays_range y) as L'.
  assert (HD : Day (MakeDate (MakeDay y m dt) time)
               = DayFromYear y + MonthStart m (LeapDays y) + dt - 1).
  { rewrite Day_MakeDate by assumption. unfold MakeDay.
    rewrite (Z.div_small m 12), (Z.mod_small m 12) by lia.
    rewrite Z.add_0_r. reflexivity. }
  assert (HY : YearFromTime (MakeDate (MakeDay y m dt) time) = y).
  { unfold YearFromTime. rewrite HD. apply YearFromDay_unique.
    rewrite DayFromYear_succ.
    assert (m = 0 \/ m = 1 \/ m = 2 \/ m = 3 \/ m = 4 \/ m = 5 \/ m = 6 \/ m = 7
            \/ m = 8 \/ m = 9 \/ m = 10 \/ m = 11) as C by lia.
    repeat (destruct C as [-> | C]); try subst m; cbn [MonthStart DaysInMonth] in *; lia. }
  assert (HW : DayWithinYear (MakeDate (MakeDay y m dt) time)
               = MonthStart m (LeapDays y) + dt - 1).
  { unfold DayWithinYear. rewrite HY, HD. lia. }
  assert (HL : InLeapYear (MakeDate (MakeDay y m dt) time) = LeapDays y).
  { rewrite InLeapYear_eq, HY. reflexivity. }
  assert (HM : MonthFromTime (MakeDate (MakeDay y m dt) time) = m).
  { unfold MonthFromTime. rewrite HW, HL.
    assert (m = 0 \/ m = 1 \/ m = 2 \/ m = 3 \/ m = 4 \/ m = 5 \/ m = 6 \/ m = 7
            \/ m = 8 \/ m = 9 \/ m = 10 \/ m = 11) as C by lia.
    repeat (destruct C as [-> | C]); try subst m; cbn [MonthStart DaysInMonth] in *;
    repeat match goal with
           | |- context [if ?a <? ?b then _ else _] => destruct (Z.ltb_spec a b)
           end; lia. }
  split; [exact HY | split; [exact HM | ]].
  unfold DateFromTime. rewrite HM, HW, HL.
  assert (m = 0 \/ m = 1 \/ m = 2 \/ m = 3 \/ m = 4 \/ m = 5 \/ m = 6 \/ m = 7
          \/ m = 8 \/ m = 9 \/ m = 10 \/ m = 11) as C by lia.
  repeat (destruct C as [-> | C]); try subst m; cbn [MonthStart]; lia.
Qed.


Lemma MakeDay_MonthDay y m dt : MakeDay y m dt = MonthDay (12 * y + m) + dt - 1.
Proof.
  unfold MonthDay, MakeDay.
  replace ((12 * y + m) mod 12) with (m mod 12) by (Z.div_mod_to_equations; lia).
  replace (0 + (12 * y + m) / 12) with (y + m / 12) by (Z.div_mod_to_equations; lia).
  lia.
Qed.

Lemma MonthDay_succ k :
  MonthDay (k + 1) = MonthDay k + DaysInMonth (k / 12) (k mod 12).
Proof.
  unfold MonthDay, MakeDay.
  assert (k mod 12 = 11 /\ (k + 1) mod 12 = 0 /\ (k + 1) / 12 = k / 12 + 1
          \/ k mod 12 < 11 /\ (k + 1) mod 12 = k mod 12 + 1 /\ (k + 1) / 12 = k / 12)
    as [(E1 & E2 & E3) | (E1 & E2 & E3)] by (Z.div_mod_to_equations; lia).
  - rewrite E1, E2, E3. cbn [MonthStart DaysInMonth]. rewrite !Z.add_0_l.
    rewrite DayFromYear_succ. pose proof (LeapDays_cases (k / 12)). lia.
  - rewrite E2, E3.
    assert (0 <= k mod 12) by (Z.div_mod_to_equations; lia).
    assert (k mod 12 = 0 \/ k mod 12 = 1 \/ k mod 12 = 2 \/ k mod 12 = 3
            \/ k mod 12 = 4 \/ k mod 12 = 5 \/ k mod 12 = 6 \/ k mod 12 = 7
            \/ k mod 12 = 8 \/ k mod 12 = 9 \/ k mod 12 = 10) as C by lia.
    repeat (destruct C as [E | C]); try rename C into E; rewrite E;
      match goal with
      | |- context [MonthStart (?a + 1)] =>
          let v := eval compute in (a + 1) in change (a + 1) with v
      end; cbn [MonthStart DaysInMonth]; rewrite ?Z.add_0_l; lia.
Qed.

Lemma DaysInMonth_range y m : 28 <= DaysInMonth y m <= 31.
Proof.
  pose proof (LeapDays_range y).
  unfold DaysInMonth.
  repeat match goal with |- context [match ?x with _ => _ end] => destruct x end; lia.
Qed.

Lemma MonthDay_le k n : 0 <= n -> MonthDay k + 28 * n <= MonthDay (k + n).
Proof.
  intros Hn. pattern n. apply natlike_ind; [ | | exact Hn].
  - replace (k + 0) with k by lia. lia.
  - intros x Hx IH. replace (k + Z.succ x) with (k + x + 1) by lia.
    rewrite MonthDay_succ.
    pose proof (DaysInMonth_range ((k + x) / 12) ((k + x) mod 12)). lia.
Qed.

Lemma MonthDay_lt k k' : k < k' -> MonthDay k + 28 <= MonthDay k'.
Proof.
  intros H. pose proof (MonthDay_le k (k' - k) ltac:(lia)) as L.
  replace (k + (k' - k)) with k' in L by lia. lia.
Qed.

Lemma civil_of_MonthDay k time :
  0 <= time < msPerDay ->
  YearFromTime (MakeDate (MonthDay k) time) = k / 12 /\
  MonthFromTime (MakeDate (MonthDay k) time) = k mod 12 /\
  DateFromTime (MakeDate (MonthDay k) time) = 1.
Proof.
  intros Ht.
  assert (MonthDay k = MakeDay (k / 12) (k mod 12) 1) as ->.
  { rewrite MakeDay_MonthDay. f_equal. replace (12 * (k / 12) + k mod 12) with k
      by (Z.div_mod_to_equations; lia). lia. }
  apply civil_of_MakeDay; try assumption.
  - Z.div_mod_to_equations; lia.
  - pose proof (DaysInMonth_range (k / 12) (k mod 12)). lia.
Qed.

Lemma month_of_time t :
  MonthDay (12 * YearFromTime t + MonthFromTime t) <= Day t
  < MonthDay (12 * YearFromTime t + MonthFromTime t + 1).
Proof.
  pose proof (MakeDay_civil t) as C. rewrite MakeDay_MonthDay in C.
  pose proof (DateFromTime_range t) as R.
  pose proof (MonthFromTime_range t) as M.
  rewrite MonthDay_succ.
  replace ((12 * YearFromTime t + MonthFromTime t) / 12) with (YearFromTime t)
    by (Z.div_mod_to_equations; lia).
  replace ((12 * YearFromTime t + MonthFromTime t) mod 12) with (MonthFromTime t)
    by (Z.div_mod_to_equations; lia).
  lia.
Qed.

(** ** Time within the day and day of the week *)

Lemma MakeTime_civil t :
  MakeTime (HourFromTime t) (MinFromTime t) (SecFromTime t) (msFromTime t)
  = TimeWithinDay t.
Proof.
  unfold MakeTime, HourFromTime, MinFromTime, SecFromTime, msFromTime,
    TimeWithinDay, msPerHour, msPerMinute, msPerSecond, msPerDay.
  Z.div_mod_to_equations; lia.
Qed.

Lemma time_of_MakeDate d t :
  HourFromTime (MakeDate d (TimeWithinDay t)) = HourFromTime t /\
  MinFromTime (MakeDate d (TimeWithinDay t)) = MinFromTime t /\
  SecFromTime (MakeDate d (TimeWithinDay t)) = SecFromTime t /\
  msFromTime (MakeDate d (TimeWithinDay t)) = msFromTime t.
Proof.
  unfold MakeDate, HourFromTime, MinFromTime, SecFromTime, msFromTime,
    TimeWithinDay, msPerHour, msPerMinute, msPerSecond, msPerDay.
  repeat split; Z.div_mod_to_equations; lia.
Qed.

Lemma WeekDay_range t : 0 <= WeekDay t <= 6.
Proof. unfold WeekDay. Z.div_mod_to_equations; lia. Qed.

Lemma WeekDay_MakeDate d time :
  0 <= time < msPerDay -> WeekDay (MakeDate d time) = (d + 4) mod 7.
Proof. intros H. unfold WeekDay. rewrite Day_MakeDate by exact H. reflexivity. Qed.

(** ** Truncation and remainder on integer-valued Numbers *)

Lemma Qtrunc_add_int a b : Qtrunc (inject_Z a + inject_Z b)%Q = a + b.
Proof.
  unfold Qtrunc. cbn [inject_Z Qnum Qden Qplus Pos.mul].
  rewrite Z.quot_1_r. lia.
Qed.

Lemma Qtrunc_add_weeks a b : Qtrunc (inject_Z a + inject_Z b * 7)%Q = a + 7 * b.
Proof.
  unfold Qtrunc. cbn [inject_Z Qnum Qden Qplus Qmult Pos.mul].
  rewrite Z.quot_1_r. lia.
Qed.

(** [(wd - day + 7) % 7] on integers, [day] a day of the week. *)
Lemma js_rem_weekday w g :
  0 <= w -> 0 <= g <= 6 ->
  js_rem (inject_Z w - inject_Z g + 7) 7 = inject_Z ((w - g + 7) mod 7).
Proof.
  intros Hw Hg.
  unfold js_rem, Qtrunc, Qminus, Qdiv, Qplus, Qmult, Qopp, Qinv, inject_Z.
  cbn [Qnum Qden Pos.mul].
  f_equal.
  Z.to_euclidean_division_equations; lia.
Qed.

(** ** Date methods in local time *)

Lemma LocalTime_UTC t : LocalTime (UTC t) = t.
Proof. unfold LocalTime, UTC. lia. Qed.

Lemma UTC_LocalTime t : UTC (LocalTime t) = t.
Proof. unfold LocalTime, UTC. lia. Qed.

(** [setDate] moves a date by whole days. *)
Lemma setDate_days d dt :
  setDate d dt = d + (Qtrunc dt - getDate d) * msPerDay.
Proof.
  unfold setDate, getDate.
  replace (Qtrunc dt) with (DateFromTime (LocalTime d) + (Qtrunc dt - DateFromTime (LocalTime d))) at 1 by lia.
  rewrite MakeDay_add, MakeDay_civil.
  pose proof (MakeDate_Day (LocalTime d)) as E.
  unfold MakeDate, UTC, LocalTime in *. lia.
Qed.

Lemma addDays_int d n : addDays d (inject_Z n) = d + n * msPerDay.
Proof. unfold addDays. rewrite setDate_days, Qtrunc_add_int. f_equal. lia. Qed.

Lemma addWeeks_int d n : addWeeks d (inject_Z n) = d + n * (7 * msPerDay).
Proof. unfold addWeeks, addDays. rewrite setDate_days, Qtrunc_add_weeks. lia. Qed.

Lemma startOfDay_local d :
  LocalTime (startOfDay d) = MakeDate (Day (LocalTime d)) 0.
Proof. unfold startOfDay, setHours. rewrite LocalTime_UTC. reflexivity. Qed.

Lemma startOfDay_eq d : startOfDay d = d - TimeWithinDay (LocalTime d).
Proof.
  pose proof (startOfDay_local d) as E.
  pose proof (MakeDate_Day (LocalTime d)) as F.
  unfold MakeDate, LocalTime in *. lia.
Qed.

Lemma setTimeFromAnchor_local x a :
  LocalTime (setTimeFromAnchor x a)
  = MakeDate (Day (LocalTime x)) (TimeWithinDay (LocalTime a)).
Proof.
  unfold setTimeFromAnchor, setHours, getHours, getMinutes, getSeconds,
    getMilliseconds.
  rewrite LocalTime_UTC, MakeTime_civil. reflexivity.
Qed.

(** Every date stamped by [setTimeFromAnchor] has the anchor's time of day. *)
Lemma setTimeFromAnchor_time x a :
  getHours (setTimeFromAnchor x a) = getHours a /\
  getMinutes (setTimeFromAnchor x a) = getMinutes a /\
  getSeconds (setTimeFromAnchor x a) = getSeconds a /\
  getMilliseconds (setTimeFromAnchor x a) = getMilliseconds a.
Proof.
  unfold getHours, getMinutes, getSeconds, getMilliseconds.
  rewrite setTimeFromAnchor_local. apply time_of_MakeDate.
Qed.

Lemma weeksBetween_days a b :
  weeksBetween a b = (Day (LocalTime b) - Day (LocalTime a)) / 7.
Proof.
  unfold weeksBetween, getTime. rewrite !startOfDay_eq.
  pose proof (MakeDate_Day (LocalTime a)) as Ea.
  pose proof (MakeDate_Day (LocalTime b)) as Eb.
  unfold MakeDate, LocalTime, msPerDay in *.
  replace (b - TimeWithinDay (b + LocalTZA) - (a - TimeWithinDay (a + LocalTZA)))
    with ((Day (b + LocalTZA) - Day (a + LocalTZA)) * 86400000) by lia.
  change (7 * 24 * 60 * 60 * 1000) with (86400000 * 7).
  rewrite <- Z.div_div by lia. rewrite Z.div_mul by lia. reflexivity.
Qed.

(** ** The weekly resolver on valid descriptors *)

Lemma num_lt_int a b :
  num_lt (Fin (inject_Z a)) (Fin (inject_Z b)) = (a <? b).
Proof.
  unfold num_lt, Qle_bool. cbn [inject_Z Qnum Qden].
  rewrite !Z.mul_1_r. rewrite Z.ltb_antisym. reflexivity.
Qed.

Lemma Qfloor_div_int a b : 0 < b -> Qfloor (inject_Z a / inject_Z b) = a / b.
Proof.
  intros Hb. destruct b as [ | p | p]; try lia.
  unfold Qfloor, Qdiv, Qmult, Qinv, inject_Z. cbn [Qnum Qden Pos.mul].
  rewrite Z.mul_1_r. reflexivity.
Qed.

Lemma getDay_startOfDay d : getDay (startOfDay d) = getDay d.
Proof.
  unfold getDay. rewrite startOfDay_local, WeekDay_MakeDate by (unfold msPerDay; lia).
  reflexivity.
Qed.

Lemma getDay_range d : 0 <= getDay d <= 6.
Proof. apply WeekDay_range. Qed.

Lemma setTimeFromAnchor_shift a n :
  setTimeFromAnchor (startOfDay a + n * msPerDay) a = a + n * msPerDay.
Proof.
  pose proof (setTimeFromAnchor_local (startOfDay a + n * msPerDay) a) as E.
  pose proof (startOfDay_local a) as S.
  pose proof (MakeDate_Day (LocalTime a)) as F.
  assert (Day (LocalTime (startOfDay a + n * msPerDay)) = Day (LocalTime a) + n) as D.
  { replace (LocalTime (startOfDay a + n * msPerDay))
      with (MakeDate (Day (LocalTime a) + n) 0)
      by (unfold LocalTime, MakeDate in *; lia).
    apply Day_MakeDate. unfold msPerDay; lia. }
  rewrite D in E. unfold MakeDate, LocalTime in *. lia.
Qed.

Lemma weekly_base_bounds a w :
  a <= weekly_base a w < a + msPerWeek.
Proof.
  unfold weekly_base, msPerWeek, msPerDay. Z.div_mod_to_equations; lia.
Qed.

Lemma Day_add_days t n : Day (t + n * msPerDay) = Day t + n.
Proof. unfold Day, msPerDay. Z.div_mod_to_equations; lia. Qed.

Lemma LocalTime_add d x : LocalTime (d + x) = LocalTime d + x.
Proof. unfold LocalTime. lia. Qed.

Lemma getDay_add_days d n : getDay (d + n * msPerDay) = (getDay d + n) mod 7.
Proof.
  unfold getDay, WeekDay. rewrite LocalTime_add, Day_add_days.
  Z.div_mod_to_equations; lia.
Qed.

Lemma same_time_add_days d n : same_time_of_day (d + n * msPerDay) d.
Proof.
  unfold same_time_of_day, getHours, getMinutes, getSeconds, getMilliseconds.
  rewrite LocalTime_add.
  pose proof (time_of_MakeDate (Day (LocalTime d) + n) (LocalTime d)) as T.
  replace (MakeDate (Day (LocalTime d) + n) (TimeWithinDay (LocalTime d)))
    with (LocalTime d + n * msPerDay) in T
    by (pose proof (MakeDate_Day (LocalTime d)); unfold MakeDate in *; lia).
  exact T.
Qed.

(** The first occurrence falls on the target weekday. *)
Lemma weekly_base_weekday a w : 0 <= w <= 6 -> getDay (weekly_base a w) = w.
Proof.
  intros Hw. unfold weekly_base. rewrite getDay_add_days.
  pose proof (getDay_range a). Z.div_mod_to_equations; lia.
Qed.

(** The source's computation of [base], on an integer weekday. *)
Lemma base_eq a w :
  0 <= w <= 6 ->
  let anchorDay := startOfDay a in
  let deltaToWd := js_rem (inject_Z w - inject_Z (getDay anchorDay) + 7) 7 in
  setTimeFromAnchor (addDays anchorDay deltaToWd) a = weekly_base a w.
Proof.
  intros Hw. cbv zeta.
  rewrite getDay_startOfDay, js_rem_weekday by (pose proof (getDay_range a); lia).
  rewrite addDays_int, setTimeFromAnchor_shift. reflexivity.
Qed.

Lemma addWeeks_interval c i : addWeeks c (inject_Z i) = c + i * msPerWeek.
Proof. rewrite addWeeks_int. reflexivity. Qed.

Lemma catch_up_done fuel intv now c :
  now < c -> catch_up fuel intv now c = Ret c.
Proof.
  intros H. destruct fuel; cbn [catch_up]; unfold getTime;
    destruct (Z.leb_spec c now); try lia; reflexivity.
Qed.

Lemma catch_up_step fuel intv now c :
  c <= now ->
  catch_up (S fuel) intv now c = catch_up fuel intv now (addWeeks c intv).
Proof.
  intros H. cbn [catch_up]. unfold getTime.
  destruct (Z.leb_spec c now); try lia; reflexivity.
Qed.

(** What the catch-up loop returns: the first candidate after [now], a
    whole number [n] of interval steps after the starting candidate. *)
Lemma catch_up_spec fuel i now c r :
  catch_up fuel (inject_Z i) now c = Ret r ->
  exists n, 0 <= n <= Z.of_nat fuel /\ r = c + n * (i * msPerWeek) /\ now < r /\
            (n = 0 \/ r - i * msPerWeek <= now).
Proof.
  revert c. induction fuel as [ | fuel IH]; intros c H.
  - cbn [catch_up] in H. unfold getTime in H.
    destruct (Z.leb_spec c now); [discriminate | ].
    injection H as <-. exists 0. lia.
  - destruct (Z.leb_spec c now) as [L | L].
    + rewrite catch_up_step, addWeeks_interval in H by exact L.
      destruct (IH _ H) as (n & Hn & Hr & Hlt & Hprev).
      exists (n + 1). repeat split; lia.
    + rewrite catch_up_done in H by exact L. injection H as <-.
      exists 0. lia.
Qed.

(** One execution of the loop body is enough when the candidate is less
    than one interval behind [now]. *)
Lemma catch_up_one fuel i now c :
  now < c + i * msPerWeek ->
  catch_up (S fuel) (inject_Z i) now c
  = Ret (if c <=? now then c + i * msPerWeek else c).
Proof.
  intros H. destruct (Z.leb_spec c now) as [L | L].
  - rewrite catch_up_step, addWeeks_interval by exact L.
    apply catch_up_done. exact H.
  - apply catch_up_done. exact L.
Qed.

(** The weekly resolver on a valid descriptor, in integer arithmetic. *)
Lemma nextWeeklyOccurrence_valid fuel a interval weekday i w now :
  valid_weekly interval weekday i w ->
  nextWeeklyOccurrence fuel (Some a) interval weekday now
  = if now <? weekly_base a w then Ret (Some (weekly_base a w))
    else
      c <- catch_up fuel (inject_Z i) now
             (weekly_base a w
              + weeksBetween (weekly_base a w) now / i * i * msPerWeek) ;;
      Ret (Some c).
Proof.
  intros (Hi & Hi1 & Hw & Hw06).
  unfold nextWeeklyOccurrence. rewrite Hi, Hw. cbn [bind Number_isFinite negb orb].
  change (Fin 1) with (Fin (inject_Z 1)).
  change (Fin 0) with (Fin (inject_Z 0)).
  change (Fin 6) with (Fin (inject_Z 6)).
  rewrite !num_lt_int.
  destruct (Z.ltb_spec i 1); [lia | ].
  destruct (Z.ltb_spec w 0); [lia | ].
  destruct (Z.ltb_spec 6 w); [lia | ].
  cbn [orb]. cbv zeta.
  rewrite (base_eq a w Hw06).
  unfold getTime.
  pose proof (weekly_base_bounds a w) as B.
  destruct (Z.ltb_spec (weekly_base a w) a); [lia | ].
  destruct (Z.ltb_spec now (weekly_base a w)); [reflexivity | ].
  rewrite Qfloor_div_int by lia.
  change (inject_Z (weeksBetween (weekly_base a w) now / i) * inject_Z i)%Q
    with (inject_Z (weeksBetween (weekly_base a w) now / i * i)).
  rewrite addWeeks_interval. reflexivity.
Qed.

(** The candidate reached by the jump of [blocks] intervals is not before
    the first occurrence, less than one interval after [now] at the latest
    and less than one interval behind it at the earliest. *)
Lemma jump_bounds b i now :
  1 <= i -> b <= now ->
  let c := b + weeksBetween b now / i * i * msPerWeek in
  0 <= weeksBetween b now / i /\
  b <= c /\ c - i * msPerWeek < now /\ now < c + i * msPerWeek.
Proof.
  intros Hi Hb. cbv zeta.
  rewrite weeksBetween_days.
  set (Db := Day (LocalTime b)). set (Dn := Day (LocalTime now)).
  set (W := (Dn - Db) / 7).
  pose proof (MakeDate_Day (LocalTime b)) as Eb.
  pose proof (MakeDate_Day (LocalTime now)) as En.
  pose proof (TimeWithinDay_range (LocalTime b)) as Rb.
  pose proof (TimeWithinDay_range (LocalTime now)) as Rn.
  fold Db in Eb. fold Dn in En.
  assert (HD : Db <= Dn).
  { unfold MakeDate, LocalTime, msPerDay in *. lia. }
  assert (HW : 7 * W <= Dn - Db < 7 * W + 7).
  { unfold W. Z.div_mod_to_equations; lia. }
  assert (HW0 : 0 <= W) by lia.
  pose proof (Z.mul_div_le W i ltac:(lia)) as Q1.
  pose proof (Z.mul_succ_div_gt W i ltac:(lia)) as Q2.
  assert (Q0 : 0 <= W / i) by (apply Z.div_pos; lia).
  set (q := W / i) in *.
  assert (Q3 : 0 <= i * q) by (apply Z.mul_nonneg_nonneg; lia).
  unfold MakeDate, LocalTime, msPerWeek, msPerDay in *.
  repeat split; lia.
Qed.

(** Every instant a whole number [k >= 0] of intervals after the first
    occurrence is an occurrence: not before the anchor, on the target
    weekday, at the anchor's time of day, [k * i] whole weeks after the first
    occurrence. *)
Lemma weekly_occurrence_props a w i k :
  0 <= w <= 6 -> 1 <= i -> 0 <= k ->
  let r := weekly_base a w + k * (i * msPerWeek) in
  a <= r /\ same_time_of_day r a /\ getDay r = w /\
  weeksBetween (weekly_base a w) r = k * i.
Proof.
  intros Hw Hi Hk. cbv zeta.
  pose proof (weekly_base_bounds a w) as B.
  assert (Hki : 0 <= k * i) by (apply Z.mul_nonneg_nonneg; lia).
  replace (weekly_base a w + k * (i * msPerWeek))
    with (weekly_base a w + (7 * (k * i)) * msPerDay)
    by (unfold msPerWeek; lia).
  assert (T : same_time_of_day
                (weekly_base a w + 7 * (k * i) * msPerDay) a).
  { unfold weekly_base.
    replace (a + (w - getDay a + 7) mod 7 * msPerDay + 7 * (k * i) * msPerDay)
      with (a + ((w - getDay a + 7) mod 7 + 7 * (k * i)) * msPerDay) by lia.
    apply same_time_add_days. }
  split; [unfold msPerDay in *; lia | split; [exact T | split]].
  - rewrite getDay_add_days, weekly_base_weekday by exact Hw.
    generalize (k * i). intros x. Z.div_mod_to_equations; lia.
  - rewrite weeksBetween_days, LocalTime_add, Day_add_days.
    generalize (k * i). intros x.
    replace (Day (LocalTime (weekly_base a w)) + 7 * x
             - Day (LocalTime (weekly_base a w))) with (x * 7) by lia.
    apply Z.div_mul. lia.
Qed.

(** What the weekly resolver returns on a valid descriptor, whatever the
    loop budget. *)
Lemma weekly_returned fuel a interval weekday i w now r :
  valid_weekly interval weekday i w ->
  nextWeeklyOccurrence fuel (Some a) interval weekday now = Ret (Some r) ->
  exists k, 0 <= k /\ r = weekly_base a w + k * (i * msPerWeek) /\ now < r /\
            (k = 0 \/ r - i * msPerWeek <= now).
Proof.
  intros V H. rewrite (nextWeeklyOccurrence_valid fuel a _ _ i w now V) in H.
  destruct V as (_ & Hi & _ & Hw).
  destruct (Z.ltb_spec now (weekly_base a w)) as [L | L].
  - injection H as <-. exists 0. lia.
  - destruct (jump_bounds (weekly_base a w) i now Hi L) as (Q0 & J1 & J2 & J3).
    destruct (catch_up fuel (inject_Z i) now
                (weekly_base a w
                 + weeksBetween (weekly_base a w) now / i * i * msPerWeek))
      as [c | | ] eqn:C; cbn [bind] in H; try discriminate.
    injection H as <-.
    destruct (catch_up_spec _ _ _ _ _ C) as (n & Hn & Hc & Hlt & Hprev).
    exists (weeksBetween (weekly_base a w) now / i + n).
    repeat split; try lia.
Qed.

(** With a budget of one execution of the loop body the weekly resolver
    returns an occurrence. *)
Lemma weekly_result fuel a interval weekday i w now :
  valid_weekly interval weekday i w -> (1 <= fuel)%nat ->
  exists r, nextWeeklyOccurrence fuel (Some a) interval weekday now = Ret (Some r).
Proof.
  intros V F. rewrite (nextWeeklyOccurrence_valid fuel a _ _ i w now V).
  destruct V as (_ & Hi & _ & Hw).
  destruct (Z.ltb_spec now (weekly_base a w)) as [L | L].
  - eexists. reflexivity.
  - destruct (jump_bounds (weekly_base a w) i now Hi L) as (Q0 & J1 & J2 & J3).
    destruct fuel as [ | fuel]; [lia | ].
    rewrite catch_up_one by exact J3. cbn [bind]. eexists. reflexivity.
Qed.

(** *** Termination of the catch-up loop for every accepted interval *)

Lemma Qtrunc_step g q :
  0 <= g -> (1 <= q)%Q -> g + 7 <= Qtrunc (inject_Z g + q * 7)%Q.
Proof.
  intros Hg Hq. destruct q as [n d].
  unfold Qle in Hq. cbn [Qnum Qden] in Hq.
  unfold Qtrunc, Qplus, Qmult, inject_Z. cbn [Qnum Qden].
  rewrite Z.quot_div_nonneg by nia.
  apply Z.div_le_lower_bound; nia.
Qed.

Lemma getDate_range d : 1 <= getDate d.
Proof. apply DateFromTime_range. Qed.

(** A step of an interval [q >= 1], integer or not, advances the candidate
    by a week at least. *)
Lemma addWeeks_advances c q : (1 <= q)%Q -> c + msPerWeek <= addWeeks c q.
Proof.
  intros Hq. unfold addWeeks, addDays. rewrite setDate_days.
  pose proof (getDate_range c) as G.
  pose proof (Qtrunc_step (getDate c) q ltac:(lia) Hq).
  unfold msPerWeek, msPerDay. lia.
Qed.

Lemma catch_up_terminates q now fuel c :
  (1 <= q)%Q -> now - c < Z.of_nat fuel * msPerWeek ->
  exists r, catch_up fuel q now c = Ret r.
Proof.
  intros Hq. revert c. induction fuel as [ | fuel IH]; intros c H.
  - exists c. apply catch_up_done. lia.
  - destruct (Z.leb_spec c now) as [L | L].
    + rewrite catch_up_step by exact L. apply IH.
      pose proof (addWeeks_advances c q Hq). lia.
    + exists c. apply catch_up_done. exact L.
Qed.

Lemma num_lt_false q lo : (lo <= q)%Q -> num_lt (Fin q) (Fin lo) = false.
Proof.
  intros H. unfold num_lt. apply Qle_bool_iff in H. rewrite H. reflexivity.
Qed.

(** ** The monthly resolver *)

Lemma monthly_scan_eq n a wd wom now cursor :
  monthly_scan (S n) a wd wom now cursor
  = if (a <=? occurrence_of a wd wom cursor) && (now <? occurrence_of a wd wom cursor)
    then Some (occurrence_of a wd wom cursor)
    else monthly_scan n a wd wom now (addMonths cursor 1).
Proof.
  cbn [monthly_scan]. unfold getTime, occurrence_of.
  generalize (setTimeFromAnchor
    (nthWeekdayOfMonth (getFullYear cursor) (getMonth cursor) wd wom) a).
  intros o.
  generalize (monthly_scan n a wd wom now (addMonths cursor 1)). intros rest.
  destruct (Z.ltb_spec o a); destruct (Z.leb_spec a o); try lia;
    cbn [andb]; reflexivity.
Qed.

(** The loop returns the first acceptable occurrence of its [n] cursors. *)
Lemma monthly_scan_some n a wd wom now cursor r :
  monthly_scan n a wd wom now cursor = Some r ->
  exists j, (j < n)%nat /\
    r = occurrence_of a wd wom (Nat.iter j (fun c => addMonths c 1) cursor) /\
    acceptable a now r /\
    forall j', (j' < j)%nat ->
      ~ acceptable a now
          (occurrence_of a wd wom (Nat.iter j' (fun c => addMonths c 1) cursor)).
Proof.
  revert cursor. induction n as [ | n IH]; intros cursor H; [discriminate | ].
  rewrite monthly_scan_eq in H.
  destruct (Z.leb_spec a (occurrence_of a wd wom cursor)) as [L1 | L1];
    destruct (Z.ltb_spec now (occurrence_of a wd wom cursor)) as [L2 | L2];
    cbn [andb] in H.
  1: { injection H as <-. exists 0%nat.
       split; [lia | split; [reflexivity | split; [split; assumption | ]]].
       intros j' Hj'. lia. }
  all: destruct (IH _ H) as (j & Hj & Hr & Hacc & Hfirst);
    exists (S j); rewrite Nat.iter_succ_r;
    (split; [lia | split; [exact Hr | split; [exact Hacc | ]]]);
    intros [ | j'] Hj'; [cbn [Nat.iter nat_rect]; unfold acceptable; lia | ];
    rewrite Nat.iter_succ_r; apply Hfirst; lia.
Qed.

(** The monthly resolver on a valid descriptor. *)
Lemma nextMonthlyOccurrence_valid a weekday weekOfMonth w n now :
  valid_monthly weekday weekOfMonth w n ->
  nextMonthlyOccurrence (Some a) weekday weekOfMonth now
  = Ret (monthly_scan 24 a (inject_Z w) (inject_Z n) now (cursor_at now 0)).
Proof.
  intros (Hw & Hw06 & Hn & Hn15).
  unfold cursor_at. cbn [Nat.iter nat_rect].
  unfold nextMonthlyOccurrence. rewrite Hw, Hn. cbn [bind Number_isFinite negb orb].
  change (Fin 1) with (Fin (inject_Z 1)).
  change (Fin 0) with (Fin (inject_Z 0)).
  change (Fin 5) with (Fin (inject_Z 5)).
  change (Fin 6) with (Fin (inject_Z 6)).
  rewrite !num_lt_int.
  destruct (Z.ltb_spec w 0); [lia | ].
  destruct (Z.ltb_spec 6 w); [lia | ].
  destruct (Z.ltb_spec n 1); [lia | ].
  destruct (Z.ltb_spec 5 n); [lia | ].
  reflexivity.
Qed.

(** *** Cursors and occurrences on the calendar *)

Lemma full_year_ge y : y <= full_year y.
Proof.
  unfold full_year.
  destruct (Z.leb_spec 0 y); destruct (Z.leb_spec y 99); cbn [andb]; lia.
Qed.

Lemma full_year_id y : y < 0 \/ 100 <= y -> full_year y = y.
Proof.
  intros H. unfold full_year.
  destruct (Z.leb_spec 0 y); destruct (Z.leb_spec y 99); cbn [andb]; lia.
Qed.

Lemma Date_ymd_first y m : Date_ymd y m 1 = month_start (12 * full_year y + m).
Proof.
  unfold Date_ymd, month_start.
  change (Qtrunc 1) with 1. change (MakeTime 0 0 0 0) with 0.
  rewrite MakeDay_MonthDay. f_equal. f_equal. lia.
Qed.

Lemma month_start_civil k :
  getFullYear (month_start k) = k / 12 /\
  getMonth (month_start k) = k mod 12 /\
  getDate (month_start k) = 1.
Proof.
  unfold getFullYear, getMonth, getDate, month_start.
  rewrite LocalTime_UTC. apply civil_of_MonthDay. unfold msPerDay. lia.
Qed.

Lemma month_index_start k : month_index (month_start k) = k.
Proof.
  unfold month_index. destruct (month_start_civil k) as (-> & -> & _).
  Z.div_mod_to_equations; lia.
Qed.

Lemma setMonth_month_start k m :
  setMonth (month_start k) m = month_start (12 * (k / 12) + m).
Proof.
  unfold setMonth, month_start. rewrite LocalTime_UTC.
  destruct (civil_of_MonthDay k 0 ltac:(unfold msPerDay; lia)) as (Y & _ & D).
  rewrite Y, D, TimeWithinDay_MakeDate by (unfold msPerDay; lia).
  rewrite MakeDay_MonthDay. f_equal. f_equal. lia.
Qed.

Lemma addMonths_month_start k : addMonths (month_start k) 1 = month_start (k + 1).
Proof.
  destruct (month_start_civil k) as (_ & M & D).
  destruct (month_start_civil (k + 1)) as (_ & _ & D').
  unfold addMonths. cbv zeta.
  rewrite setMonth_month_start, M, D.
  replace (12 * (k / 12) + (k mod 12 + 1)) with (k + 1)
    by (Z.div_mod_to_equations; lia).
  rewrite D'. reflexivity.
Qed.

Lemma cursor_at_month now j :
  cursor_at now j
  = month_start (12 * full_year (getFullYear now) + getMonth now + Z.of_nat j).
Proof.
  unfold cursor_at. induction j as [ | j IH].
  - cbn [Nat.iter nat_rect]. rewrite Date_ymd_first. f_equal. lia.
  - rewrite Nat.iter_succ, IH, addMonths_month_start. f_equal. lia.
Qed.

Lemma Qtrunc_nth_day off n :
  Qtrunc (1 + inject_Z off + (inject_Z n - 1) * 7)%Q = 1 + off + 7 * (n - 1).
Proof.
  unfold Qtrunc, Qminus, Qplus, Qmult, Qopp, inject_Z.
  cbn [Qnum Qden Pos.mul]. rewrite Z.quot_1_r. lia.
Qed.

Lemma nthWeekdayOfMonth_int y m w n :
  0 <= w <= 6 ->
  nthWeekdayOfMonth y m (inject_Z w) (inject_Z n)
  = let first := MonthDay (12 * full_year y + m) in
    UTC (MakeDate (first + (w - (first + 4) mod 7 + 7) mod 7 + 7 * (n - 1)) 0).
Proof.
  intros Hw. unfold nthWeekdayOfMonth. cbv zeta.
  assert (G : getDay (Date_ymd y m 1) = (MonthDay (12 * full_year y + m) + 4) mod 7).
  { rewrite Date_ymd_first. unfold getDay, month_start.
    rewrite LocalTime_UTC. apply WeekDay_MakeDate. unfold msPerDay. lia. }
  rewrite G, js_rem_weekday by (try lia; Z.div_mod_to_equations; lia).
  unfold Date_ymd. rewrite Qtrunc_nth_day, MakeDay_MonthDay.
  change (MakeTime 0 0 0 0) with 0. f_equal. f_equal. lia.
Qed.

(** The occurrence computed from the cursor of month [k]. *)
Lemma occurrence_of_month a w n k :
  0 <= w <= 6 ->
  occurrence_of a (inject_Z w) (inject_Z n) (month_start k)
  = month_occurrence a w n (12 * full_year (k / 12) + k mod 12).
Proof.
  intros Hw. unfold occurrence_of.
  destruct (month_start_civil k) as (-> & -> & _).
  rewrite nthWeekdayOfMonth_int by exact Hw. cbv zeta.
  unfold month_occurrence. cbv zeta.
  set (first := MonthDay (12 * full_year (k / 12) + k mod 12)).
  set (day := first + (w - (first + 4) mod 7 + 7) mod 7 + 7 * (n - 1)).
  pose proof (setTimeFromAnchor_local (UTC (MakeDate day 0)) a) as E.
  rewrite LocalTime_UTC, Day_MakeDate in E by (unfold msPerDay; lia).
  rewrite <- E. symmetry. apply UTC_LocalTime.
Qed.

Lemma month_index_plain k :
  k < 0 \/ 1200 <= k -> 12 * full_year (k / 12) + k mod 12 = k.
Proof.
  intros H. rewrite full_year_id by (Z.div_mod_to_equations; lia).
  Z.div_mod_to_equations; lia.
Qed.

Lemma month_index_full_year k : k <= 12 * full_year (k / 12) + k mod 12.
Proof.
  pose proof (full_year_ge (k / 12)). Z.div_mod_to_equations; lia.
Qed.

(** Local day number and time of an occurrence. *)
Lemma month_occurrence_local a w n k :
  LocalTime (month_occurrence a w n k)
  = MakeDate (MonthDay k + (w - (MonthDay k + 4) mod 7 + 7) mod 7 + 7 * (n - 1))
             (TimeWithinDay (LocalTime a)).
Proof. unfold month_occurrence. cbv zeta. apply LocalTime_UTC. Qed.

Lemma month_occurrence_eq a w n k :
  exists off, 0 <= off <= 6 /\
    month_occurrence a w n k
    = month_start k + (off + 7 * (n - 1)) * msPerDay
      + TimeWithinDay (LocalTime a).
Proof.
  exists ((w - (MonthDay k + 4) mod 7 + 7) mod 7). split.
  - Z.div_mod_to_equations; lia.
  - unfold month_occurrence, month_start, UTC, MakeDate. cbv zeta.
    generalize ((w - (MonthDay k + 4) mod 7 + 7) mod 7). intros off. lia.
Qed.

Lemma month_occurrence_bounds a w n k :
  1 <= n <= 5 ->
  month_start k <= month_occurrence a w n k < month_start k + 35 * msPerDay.
Proof.
  intros Hn.
  destruct (month_occurrence_eq a w n k) as (off & Hoff & ->).
  pose proof (TimeWithinDay_range (LocalTime a)) as R.
  generalize dependent (TimeWithinDay (LocalTime a)).
  generalize (month_start k). unfold msPerDay. intros. lia.
Qed.

Lemma month_start_lt k k' :
  k < k' -> month_start k + 28 * msPerDay <= month_start k'.
Proof.
  intros H. pose proof (MonthDay_lt k k' H).
  unfold month_start, UTC, MakeDate, msPerDay. lia.
Qed.

(** Occurrences of later months are later. *)
Lemma month_occurrence_lt a w n k k' :
  k < k' -> month_occurrence a w n k < month_occurrence a w n k'.
Proof.
  intros H. pose proof (month_start_lt k k' H) as M.
  destruct (month_occurrence_eq a w n k) as (off & Hoff & ->).
  destruct (month_occurrence_eq a w n k') as (off' & Hoff' & ->).
  generalize dependent (month_start k). generalize (month_start k').
  unfold msPerDay. intros. lia.
Qed.

Lemma month_occurrence_le a w n k k' :
  k <= k' -> month_occurrence a w n k <= month_occurrence a w n k'.
Proof.
  intros H. destruct (Z.eq_dec k k') as [-> | Hne]; [lia | ].
  pose proof (month_occurrence_lt a w n k k' ltac:(lia)). lia.
Qed.

(** A date lies in the month of its index. *)
Lemma month_index_bounds d :
  month_start (month_index d) <= d < month_start (month_index d + 1).
Proof.
  pose proof (month_of_time (LocalTime d)) as M.
  pose proof (MakeDate_Day (LocalTime d)) as E.
  pose proof (TimeWithinDay_range (LocalTime d)) as R.
  unfold month_index, getFullYear, getMonth, month_start, UTC, MakeDate,
    LocalTime, msPerDay in *. lia.
Qed.

Lemma month_index_mono d d' : d <= d' -> month_index d <= month_index d'.
Proof.
  intros H.
  destruct (Z.le_gt_cases (month_index d) (month_index d')) as [L | G]; [exact L | ].
  pose proof (month_index_bounds d) as B. pose proof (month_index_bounds d') as B'.
  destruct (Z.eq_dec (month_index d' + 1) (month_index d)) as [E | N].
  - rewrite E in B'. lia.
  - pose proof (month_start_lt (month_index d' + 1) (month_index d) ltac:(lia)).
    unfold msPerDay in *. lia.
Qed.

Lemma month_start_le k k' : k <= k' -> month_start k <= month_start k'.
Proof.
  intros H. destruct (Z.eq_dec k k') as [-> | N]; [lia | ].
  pose proof (month_start_lt k k' ltac:(lia)). unfold msPerDay in *. lia.
Qed.

Lemma getMonth_range d : 0 <= getMonth d <= 11.
Proof. apply MonthFromTime_range. Qed.

Lemma cursor_at_succ now j :
  cursor_at now (S j) = addMonths (cursor_at now j) 1.
Proof. unfold cursor_at. apply Nat.iter_succ. Qed.

Lemma cursor_at_iter now j :
  Nat.iter j (fun c => addMonths c 1) (cursor_at now 0) = cursor_at now j.
Proof. unfold cursor_at. cbn [Nat.iter nat_rect]. reflexivity. Qed.

Lemma cursor_at_plain now j :
  plain_years now -> cursor_at now j = month_start (month_index now + Z.of_nat j).
Proof.
  intros Hy. rewrite cursor_at_month, full_year_id; [reflexivity | ].
  unfold plain_years in Hy. lia.
Qed.

(** The occurrence of the [j]-th cursor, for a reference instant whose
    scan keeps clear of the years 0 to 99. *)
Lemma occurrence_at_cursor a w n now j :
  0 <= w <= 6 -> plain_years now -> (j < 24)%nat ->
  occurrence_of a (inject_Z w) (inject_Z n) (cursor_at now j)
  = month_occurrence a w n (month_index now + Z.of_nat j).
Proof.
  intros Hw Hy Hj. pose proof (getMonth_range now) as M.
  rewrite cursor_at_plain by exact Hy.
  rewrite occurrence_of_month by exact Hw.
  rewrite month_index_plain; [reflexivity | ].
  unfold plain_years, month_index in *. lia.
Qed.

(** The first cursor is never in a year from 0 to 99. *)
Lemma first_occurrence_of_cursor a w n now :
  0 <= w <= 6 ->
  occurrence_of a (inject_Z w) (inject_Z n) (cursor_at now 0)
  = month_occurrence a w n (month_index (cursor_at now 0)).
Proof.
  intros Hw. pose proof (getMonth_range now) as M.
  rewrite cursor_at_month, month_index_start, occurrence_of_month by exact Hw.
  rewrite Z.add_0_r.
  replace ((12 * full_year (getFullYear now) + getMonth now) / 12)
    with (full_year (getFullYear now)) by (Z.div_mod_to_equations; lia).
  replace ((12 * full_year (getFullYear now) + getMonth now) mod 12)
    with (getMonth now) by (Z.div_mod_to_equations; lia).
  assert (full_year (full_year (getFullYear now)) = full_year (getFullYear now))
    as ->; [ | reflexivity].
  apply full_year_id. unfold full_year.
  destruct (Z.leb_spec 0 (getFullYear now));
    destruct (Z.leb_spec (getFullYear now) 99); cbn [andb]; lia.
Qed.

(** From the second cursor on, every occurrence is after [now], whatever
    the year of [now]. *)
Lemma occurrence_after_now a w n now j :
  0 <= w <= 6 -> 1 <= n <= 5 -> (1 <= j)%nat ->
  now < occurrence_of a (inject_Z w) (inject_Z n) (cursor_at now j).
Proof.
  intros Hw Hn Hj.
  rewrite cursor_at_month, occurrence_of_month by exact Hw.
  set (k := 12 * full_year (getFullYear now) + getMonth now + Z.of_nat j).
  pose proof (month_occurrence_bounds a w n (12 * full_year (k / 12) + k mod 12) Hn) as B.
  pose proof (month_index_full_year k) as F.
  pose proof (full_year_ge (getFullYear now)) as G.
  pose proof (month_index_bounds now) as N.
  assert (K : month_index now + 1 <= 12 * full_year (k / 12) + k mod 12)
    by (unfold month_index, k in *; lia).
  pose proof (month_start_le _ _ K). lia.
Qed.

Lemma Ret_inj {A : Type} (x y : A) : Ret x = Ret y -> x = y.
Proof. intros H. injection H as H. exact H. Qed.

(** What the monthly resolver returns on a valid descriptor. *)
Lemma monthly_returned a weekday weekOfMonth w n now r :
  valid_monthly weekday weekOfMonth w n ->
  nextMonthlyOccurrence (Some a) weekday weekOfMonth now = Ret (Some r) ->
  exists j, (j < 24)%nat /\
    r = occurrence_of a (inject_Z w) (inject_Z n) (cursor_at now j) /\
    acceptable a now r /\
    forall j', (j' < j)%nat ->
      ~ acceptable a now
          (occurrence_of a (inject_Z w) (inject_Z n) (cursor_at now j')).
Proof.
  intros V H. rewrite (nextMonthlyOccurrence_valid a _ _ w n now V) in H.
  apply Ret_inj in H.
  destruct (monthly_scan_some _ _ _ _ _ _ _ H) as (j & Hj & Hr & Hacc & Hfirst).
  exists j. rewrite cursor_at_iter in Hr.
  split; [exact Hj | split; [exact Hr | split; [exact Hacc | ]]].
  intros j' Hj'. specialize (Hfirst j' Hj').
  rewrite cursor_at_iter in Hfirst. exact Hfirst.
Qed.

(** For a reference instant whose scan keeps clear of the years 0 to 99,
    the occurrence returned is that of the first acceptable month among the
    24 months that start with the month of [now]. *)
Lemma monthly_returned_plain a weekday weekOfMonth w n now r :
  valid_monthly weekday weekOfMonth w n -> plain_years now ->
  nextMonthlyOccurrence (Some a) weekday weekOfMonth now = Ret (Some r) ->
  exists j, 0 <= j < 24 /\ r = month_occurrence a w n (month_index now + j) /\
    acceptable a now r /\
    forall j', 0 <= j' < j ->
      ~ acceptable a now (month_occurrence a w n (month_index now + j')).
Proof.
  intros V Hy H. pose proof V as (_ & Hw & _ & Hn).
  destruct (monthly_returned _ _ _ _ _ _ _ V H) as (j & Hj & Hr & Hacc & Hfirst).
  rewrite occurrence_at_cursor in Hr by assumption.
  exists (Z.of_nat j).
  split; [lia | split; [exact Hr | split; [exact Hacc | ]]].
  intros j' Hj'. specialize (Hfirst (Z.to_nat j') ltac:(lia)).
  rewrite occurrence_at_cursor in Hfirst by (try assumption; lia).
  rewrite Z2Nat.id in Hfirst by lia. exact Hfirst.
Qed.

(** ** Lemmas for the claims *)

Lemma num_lt_Fin q lo : (q < lo)%Q -> num_lt (Fin q) (Fin lo) = true.
Proof.
  intros H. unfold num_lt. destruct (Qle_bool lo q) eqn:E; [ | reflexivity].
  apply Qle_bool_iff in E. exfalso. apply (Qlt_not_le _ _ H E).
Qed.

Lemma guard_below n lo :
  below n lo -> negb (Number_isFinite n) || num_lt n (Fin lo) = true.
Proof.
  destruct n as [ | neg | q]; cbn [below Number_isFinite negb orb];
    try reflexivity.
  apply num_lt_Fin.
Qed.

Lemma guard_outside n lo hi :
  outside n lo hi ->
  negb (Number_isFinite n) || num_lt n (Fin lo) || num_lt (Fin hi) n = true.
Proof.
  destruct n as [ | neg | q]; cbn [outside Number_isFinite negb orb];
    try reflexivity.
  intros [H | H]; rewrite (num_lt_Fin _ _ H); [reflexivity | apply orb_true_r].
Qed.

Lemma GetOptional_member v name : GetOptional v name = Ret (member v name).
Proof. destruct v; reflexivity. Qed.

Lemma Get_member v name :
  ToBoolean v = true -> Get v name = Ret (member v name).
Proof. destruct v; cbn [ToBoolean]; try discriminate; reflexivity. Qed.

Lemma truthy_member v name : ToBoolean (member v name) = true -> ToBoolean v = true.
Proof. destruct v; cbn [member ToBoolean]; try discriminate; reflexivity. Qed.

Lemma ToPrimitive_primitive v : is_primitive v = true -> ToPrimitive v = Ret v.
Proof. destruct v; cbn [is_primitive]; try discriminate; reflexivity. Qed.

(** Parsing a primitive value never throws. *)
Lemma parseDate_primitive v :
  is_primitive v = true -> exists d, parseDate v = Ret d.
Proof.
  intros P. unfold parseDate.
  destruct (negb (ToBoolean v)); [eexists; reflexivity | ].
  unfold Date_of_value. rewrite (ToPrimitive_primitive v P). cbn [bind].
  destruct v; cbn [is_primitive] in P; try discriminate;
    cbn [Number ToPrimitive bind]; eexists; reflexivity.
Qed.

Lemma civil_of_month_day k dt time :
  1 <= dt <= 28 -> 0 <= time < msPerDay ->
  YearFromTime (MakeDate (MonthDay k + dt - 1) time) = k / 12 /\
  MonthFromTime (MakeDate (MonthDay k + dt - 1) time) = k mod 12 /\
  DateFromTime (MakeDate (MonthDay k + dt - 1) time) = dt.
Proof.
  intros Hd Ht.
  assert (MonthDay k + dt - 1 = MakeDay (k / 12) (k mod 12) dt) as ->.
  { rewrite MakeDay_MonthDay.
    replace (12 * (k / 12) + k mod 12) with k by (Z.div_mod_to_equations; lia).
    reflexivity. }
  apply civil_of_MakeDay; try assumption.
  - Z.div_mod_to_equations; lia.
  - pose proof (DaysInMonth_range (k / 12) (k mod 12)). lia.
Qed.

(** A fifth weekday whose day of the month exceeds the length of month [k]
    lies in month [k + 1]. *)
Lemma spilled_day w k time :
  0 <= w <= 6 -> 0 <= time < msPerDay ->
  let offset := (w - (MonthDay k + 4) mod 7 + 7) mod 7 in
  DaysInMonth (k / 12) (k mod 12) < 29 + offset ->
  let t := MakeDate (MonthDay k + offset + 7 * (5 - 1)) time in
  12 * YearFromTime t + MonthFromTime t = k + 1 /\
  DateFromTime t = 29 + offset - DaysInMonth (k / 12) (k mod 12) /\
  WeekDay t = w.
Proof.
  intros Hw T. cbv zeta. intros Hs.
  pose proof (DaysInMonth_range (k / 12) (k mod 12)) as R.
  assert (O : 0 <= (w - (MonthDay k + 4) mod 7 + 7) mod 7 <= 6)
    by (Z.div_mod_to_equations; lia).
  rewrite WeekDay_MakeDate by exact T.
  set (offset := (w - (MonthDay k + 4) mod 7 + 7) mod 7) in *.
  set (dim := DaysInMonth (k / 12) (k mod 12)) in *.
  assert (E : MonthDay k + offset + 7 * (5 - 1)
              = MonthDay (k + 1) + (29 + offset - dim) - 1).
  { rewrite MonthDay_succ. fold dim. lia. }
  split; [ | split].
  - rewrite E.
    destruct (civil_of_month_day (k + 1) (29 + offset - dim) time
                ltac:(lia) T) as (-> & -> & _).
    Z.div_mod_to_equations; lia.
  - rewrite E.
    destruct (civil_of_month_day (k + 1) (29 + offset - dim) time
                ltac:(lia) T) as (_ & _ & ->).
    reflexivity.
  - unfold offset. Z.div_mod_to_equations; lia.
Qed.

Lemma month_occurrence_spill a w k :
  0 <= w <= 6 ->
  let offset := (w - (MonthDay k + 4) mod 7 + 7) mod 7 in
  DaysInMonth (k / 12) (k mod 12) < 29 + offset ->
  month_index (month_occurrence a w 5 k) = k + 1 /\
  getDate (month_occurrence a w 5 k)
  = 29 + offset - DaysInMonth (k / 12) (k mod 12) /\
  getDay (month_occurrence a w 5 k) = w.
Proof.
  intros Hw. cbv zeta. intros Hs.
  unfold month_index, getFullYear, getMonth, getDate, getDay.
  rewrite month_occurrence_local.
  apply (spilled_day w k _ Hw (TimeWithinDay_range (LocalTime a)) Hs).
Qed.

(** ** The claims on the guards and on the fifth weekday *)

(** C2, as amended: the resolvers return none whenever [Number(interval ?? 1)]
    is not a finite number that is at least 1, [Number(weekday)] is not a
    finite number from 0 to 6, or [Number(weekOfMonth)] is not a finite
    number from 1 to 5 (the conversions having completed).  Nothing is said
    of values inside these ranges that are not integers: the source does not
    reject them. *)
Theorem out_of_range_descriptor_unresolvable fuel anchorStart now :
  (forall interval weekday intv wd,
      Number (nullish interval (VNum (Fin 1))) = Ret intv ->
      Number weekday = Ret wd ->
      below intv 1 \/ outside wd 0 6 ->
      nextWeeklyOccurrence fuel anchorStart interval weekday now = Ret None) /\
  (forall weekday weekOfMonth wd wom,
      Number weekday = Ret wd ->
      Number weekOfMonth = Ret wom ->
      outside wd 0 6 \/ outside wom 1 5 ->
      nextMonthlyOccurrence anchorStart weekday weekOfMonth now = Ret None).
Proof.
  split.
  - intros interval weekday intv wd Hi Hw H.
    unfold nextWeeklyOccurrence. destruct anchorStart as [a | ]; [ | reflexivity].
    rewrite Hi, Hw. cbn [bind].
    destruct (negb (Number_isFinite intv) || num_lt intv (Fin 1)) eqn:G1;
      cbn [orb]; [reflexivity | ].
    destruct H as [H | H].
    + rewrite (guard_below _ _ H) in G1. discriminate.
    + rewrite (guard_outside _ _ _ H). reflexivity.
  - intros weekday weekOfMonth wd wom Hw Hn H.
    unfold nextMonthlyOccurrence. destruct anchorStart as [a | ]; [ | reflexivity].
    rewrite Hw, Hn. cbn [bind].
    destruct (negb (Number_isFinite wd) || num_lt wd (Fin 0) || num_lt (Fin 6) wd)
      eqn:G1; cbn [orb]; [reflexivity | ].
    destruct H as [H | H].
    + rewrite (guard_outside _ _ _ H) in G1. discriminate.
    + rewrite (guard_outside _ _ _ H). reflexivity.
Qed.

(** C7: for [weekOfMonth = 5] in a month that has no fifth occurrence of the
    target weekday, [nthWeekdayOfMonth] yields a date in the following
    calendar month, and the monthly resolver uses that date as computed:
    when it passes the two tests of the loop it is returned, so the returned
    occurrence falls in the month after the one being scanned. *)
Theorem fifth_weekday_spills a weekday weekOfMonth w now y m :
  valid_monthly weekday weekOfMonth w 5 ->
  (0 <= m <= 11 ->
   let k := 12 * full_year y + m in
   let offset := (w - (MonthDay k + 4) mod 7 + 7) mod 7 in
   DaysInMonth (full_year y) m < 29 + offset ->
   month_index (nthWeekdayOfMonth y m (inject_Z w) 5) = k + 1 /\
   getDate (nthWeekdayOfMonth y m (inject_Z w) 5)
   = 29 + offset - DaysInMonth (full_year y) m /\
   getDay (nthWeekdayOfMonth y m (inject_Z w) 5) = w) /\
  (let cursor := cursor_at now 0 in
   let k := month_index cursor in
   let offset := (w - (MonthDay k + 4) mod 7 + 7) mod 7 in
   let occ := occurrence_of a (inject_Z w) 5 cursor in
   DaysInMonth (getFullYear cursor) (getMonth cursor) < 29 + offset ->
   acceptable a now occ ->
   nextMonthlyOccurrence (Some a) weekday weekOfMonth now = Ret (Some occ) /\
   month_index occ = month_index cursor + 1).
Proof.
  intros V. pose proof V as (_ & Hw & _ & _). split.
  - intros Hm. cbv zeta. intros Hs.
    change 5%Q with (inject_Z 5).
    rewrite nthWeekdayOfMonth_int by exact Hw. cbv zeta.
    unfold month_index, getFullYear, getMonth, getDate, getDay.
    rewrite LocalTime_UTC.
    pose proof (spilled_day w (12 * full_year y + m) 0 Hw
                  ltac:(unfold msPerDay; lia)) as S.
    cbv zeta in S.
    replace ((12 * full_year y + m) / 12) with (full_year y) in S
      by (Z.div_mod_to_equations; lia).
    replace ((12 * full_year y + m) mod 12) with m in S
      by (Z.div_mod_to_equations; lia).
    exact (S Hs).
  - cbv zeta. intros Hs Hacc.
    pose proof (first_occurrence_of_cursor a w 5 now Hw) as E.
    change (inject_Z 5) with 5%Q in E.
    split.
    + rewrite (nextMonthlyOccurrence_valid a _ _ w 5 now V).
      rewrite monthly_scan_eq. change (inject_Z 5) with 5%Q.
      destruct Hacc as (H1 & H2).
      destruct (Z.leb_spec a (occurrence_of a (inject_Z w) 5 (cursor_at now 0)));
        [ | lia].
      destruct (Z.ltb_spec now (occurrence_of a (inject_Z w) 5 (cursor_at now 0)));
        [ | lia].
      reflexivity.
    + rewrite E.
      pose proof (getMonth_range (cursor_at now 0)) as M.
      apply (month_occurrence_spill a w (month_index (cursor_at now 0)) Hw).
      replace (month_index (cursor_at now 0) / 12)
        with (getFullYear (cursor_at now 0))
        by (unfold month_index; Z.div_mod_to_equations; lia).
      replace (month_index (cursor_at now 0) mod 12)
        with (getMonth (cursor_at now 0))
        by (unfold month_index; Z.div_mod_to_equations; lia).
      exact Hs.
Qed.

(** ** Further properties: escaping *)

Lemma append_assoc (a b c : string) : ((a ++ b) ++ c = a ++ (b ++ c))%string.
Proof. induction a as [ | x a IH]; cbn; [reflexivity | rewrite IH; reflexivity]. Qed.

Lemma count_char_append c a b :
  count_char c (a ++ b) = (count_char c a + count_char c b)%nat.
Proof. induction a as [ | x a IH]; cbn; [reflexivity | rewrite IH; lia]. Qed.

Lemma length_append (a b : string) :
  String.length (a ++ b) = (String.length a + String.length b)%nat.
Proof. induction a as [ | x a IH]; cbn; [reflexivity | rewrite IH; reflexivity]. Qed.

(** On a search string of one code unit [replaceAll] works code unit by
    code unit. *)
Lemma replaceAll_cons c s p r :
  replaceAll (String c s) (String p "") r
  = if Ascii.eqb c p then (r ++ replaceAll s (String p "") r)%string
    else String c (replaceAll s (String p "") r).
Proof.
  unfold replaceAll. cbn [replaceAll_from starts_with String.length].
  rewrite (Ascii.eqb_sym p c). destruct (Ascii.eqb c p); reflexivity.
Qed.

Lemma replaceAll_append a b p r :
  replaceAll (a ++ b) (String p "") r
  = (replaceAll a (String p "") r ++ replaceAll b (String p "") r)%string.
Proof.
  induction a as [ | c a IH]; [reflexivity | ].
  cbn [String.append]. rewrite !replaceAll_cons, IH.
  destruct (Ascii.eqb c p); [rewrite append_assoc | ]; reflexivity.
Qed.

Lemma escape_chain s :
  replaceAll
    (replaceAll
       (replaceAll
          (replaceAll (replaceAll s "&" "&amp;") "<" "&lt;")
          ">" "&gt;")
       (String dquote "") "&quot;")
    "'" "&#039;"
  = escaped s.
Proof.
  induction s as [ | c s IH]; [reflexivity | ].
  cbn [escaped]. rewrite <- IH. unfold entity.
  rewrite (replaceAll_cons c s "&").
  destruct (Ascii.eqb_spec c "&") as [-> | N1].
  { rewrite !replaceAll_append. reflexivity. }
  rewrite (replaceAll_cons c _ "<").
  destruct (Ascii.eqb_spec c "<") as [-> | N2].
  { rewrite !replaceAll_append. reflexivity. }
  rewrite (replaceAll_cons c _ ">").
  destruct (Ascii.eqb_spec c ">") as [-> | N3].
  { rewrite !replaceAll_append. reflexivity. }
  rewrite (replaceAll_cons c _ dquote).
  destruct (Ascii.eqb_spec c dquote) as [-> | N4].
  { rewrite !replaceAll_append. reflexivity. }
  rewrite (replaceAll_cons c _ "'").
  destruct (Ascii.eqb_spec c "'") as [-> | N5]; reflexivity.
Qed.

Lemma escapeHtml_escaped v :
  escapeHtml v = s <- ToString (nullish v (VStr "")) ;; Ret (escaped s).
Proof.
  unfold escapeHtml. destruct (ToString (nullish v (VStr ""))) as [s | | ];
    cbn [bind]; [rewrite escape_chain | | ]; reflexivity.
Qed.

Lemma escapeHtml_string s : escapeHtml (VStr s) = Ret (escaped s).
Proof. rewrite escapeHtml_escaped. reflexivity. Qed.

Lemma escapeHtml_returned v out :
  escapeHtml v = Ret out -> exists s, out = escaped s.
Proof.
  rewrite escapeHtml_escaped.
  destruct (ToString (nullish v (VStr ""))) as [s | | ]; cbn [bind];
    intros H; [ | discriminate | discriminate].
  exists s. symmetry. apply Ret_inj. exact H.
Qed.

Lemma escaped_append a b : escaped (a ++ b) = (escaped a ++ escaped b)%string.
Proof.
  induction a as [ | c a IH]; [reflexivity | ].
  cbn [String.append escaped]. rewrite IH, append_assoc. reflexivity.
Qed.

Lemma entity_cases c :
  (is_markup c = false /\ entity c = String c "") \/
  (c = "&"%char /\ entity c = "&amp;"%string) \/
  (c = "<"%char /\ entity c = "&lt;"%string) \/
  (c = ">"%char /\ entity c = "&gt;"%string) \/
  (c = dquote /\ entity c = "&quot;"%string) \/
  (c = "'"%char /\ entity c = "&#039;"%string).
Proof.
  unfold entity, is_markup.
  destruct (Ascii.eqb_spec c "&") as [-> | ]; [right; left; split; reflexivity | ].
  destruct (Ascii.eqb_spec c "<") as [-> | ];
    [right; right; left; split; reflexivity | ].
  destruct (Ascii.eqb_spec c ">") as [-> | ];
    [right; right; right; left; split; reflexivity | ].
  destruct (Ascii.eqb_spec c dquote) as [-> | ];
    [right; right; right; right; left; split; reflexivity | ].
  destruct (Ascii.eqb_spec c "'") as [-> | ];
    [right; right; right; right; right; split; reflexivity | ].
  left. split; reflexivity.
Qed.

Lemma markup_cases c :
  is_markup c = true ->
  c = "&"%char \/ c = "<"%char \/ c = ">"%char \/ c = dquote \/ c = "'"%char.
Proof.
  unfold is_markup.
  destruct (Ascii.eqb_spec c "&"); [tauto | ].
  destruct (Ascii.eqb_spec c "<"); [tauto | ].
  destruct (Ascii.eqb_spec c ">"); [tauto | ].
  destruct (Ascii.eqb_spec c dquote); [tauto | ].
  destruct (Ascii.eqb_spec c "'"); [tauto | discriminate].
Qed.

Lemma escaped_no_markup s c :
  is_markup c = true -> c <> "&"%char -> count_char c (escaped s) = O.
Proof.
  intros M N. induction s as [ | x s IH]; [reflexivity | ].
  cbn [escaped]. rewrite count_char_append, IH, Nat.add_0_r.
  destruct (entity_cases x) as [(Hx & ->) | E].
  - cbn [count_char]. destruct (Ascii.eqb_spec x c) as [-> | ]; [ | reflexivity].
    rewrite M in Hx. discriminate.
  - destruct (markup_cases c M) as [-> | [-> | [-> | [-> | ->]]]];
      [contradiction | | | | ];
      destruct E as [(_ & ->) | [(_ & ->) | [(_ & ->) | [(_ & ->) | (_ & ->)]]]];
      reflexivity.
Qed.

Lemma escaped_length s : (String.length s <= String.length (escaped s))%nat.
Proof.
  induction s as [ | x s IH]; [apply Nat.le_refl | ].
  cbn [escaped]. rewrite length_append.
  destruct (entity_cases x) as [(_ & ->) | [(_ & ->) | [(_ & ->) | [(_ & ->)
    | [(_ & ->) | (_ & ->)]]]]]; cbn [String.length]; lia.
Qed.

Lemma is_markup_amp : is_markup "&" = true.
Proof. reflexivity. Qed.

Local Ltac peel H pre :=
  destruct pre as [ | ? pre]; cbn [String.append] in H;
  [try discriminate H | injection H as ? H].

Lemma escaped_ampersand s pre post :
  escaped s = (pre ++ String "&" post)%string ->
  starts_with "amp;" post || starts_with "lt;" post || starts_with "gt;" post
  || starts_with "quot;" post || starts_with "#039;" post = true.
Proof.
  revert pre. induction s as [ | x s IH]; intros pre H.
  { destruct pre; discriminate H. }
  cbn [escaped] in H.
  destruct (entity_cases x) as [(Hx & E) | [(_ & E) | [(_ & E) | [(_ & E)
    | [(_ & E) | (_ & E)]]]]]; rewrite E in H; cbn [String.append] in H.
  - peel H pre.
    + injection H as -> _. rewrite is_markup_amp in Hx. discriminate.
    + apply (IH pre H).
  - peel H pre; [injection H as <-; reflexivity | ].
    do 4 (peel H pre). apply (IH pre H).
  - peel H pre; [injection H as <-; reflexivity | ].
    do 3 (peel H pre). apply (IH pre H).
  - peel H pre; [injection H as <-; reflexivity | ].
    do 3 (peel H pre). apply (IH pre H).
  - peel H pre; [injection H as <-; reflexivity | ].
    do 5 (peel H pre). apply (IH pre H).
  - peel H pre; [injection H as <-; reflexivity | ].
    do 5 (peel H pre). apply (IH pre H).
Qed.

Lemma escaped_injective a b : escaped a = escaped b -> a = b.
Proof.
  revert b. induction a as [ | x a IH]; intros [ | y b] H.
  - reflexivity.
  - exfalso. cbn [escaped] in H.
    destruct (entity_cases y) as [(_ & E) | [(_ & E) | [(_ & E) | [(_ & E)
      | [(_ & E) | (_ & E)]]]]]; rewrite E in H; discriminate H.
  - exfalso. cbn [escaped] in H.
    destruct (entity_cases x) as [(_ & E) | [(_ & E) | [(_ & E) | [(_ & E)
      | [(_ & E) | (_ & E)]]]]]; rewrite E in H; discriminate H.
  - cbn [escaped] in H.
    destruct (entity_cases x) as [(Hx & Ex) | [(-> & Ex) | [(-> & Ex) | [(-> & Ex)
      | [(-> & Ex) | (-> & Ex)]]]]];
    destruct (entity_cases y) as [(Hy & Ey) | [(-> & Ey) | [(-> & Ey) | [(-> & Ey)
      | [(-> & Ey) | (-> & Ey)]]]]];
    rewrite ?Ex, ?Ey in H; cbn [String.append] in H;
    try discriminate H;
    try (injection H as H; rewrite (IH b H); reflexivity);
    try (injection H as -> H; rewrite (IH b H); reflexivity);
    try (injection H as -> _; rewrite is_markup_amp in Hx; discriminate Hx);
    try (injection H as <- _; rewrite is_markup_amp in Hy; discriminate Hy).
Qed.

Lemma escaped_plain s :
  escaped s = s <-> (forall c, is_markup c = true -> count_char c s = O).
Proof.
  induction s as [ | x s IH].
  { split; reflexivity. }
  cbn [escaped].
  destruct (entity_cases x) as [(Hx & E) | M].
  - rewrite E. cbn [String.append]. split.
    + intros H c Hc. injection H as H. cbn [count_char].
      rewrite (proj1 IH H c Hc).
      destruct (Ascii.eqb_spec x c) as [-> | ]; [ | reflexivity].
      rewrite Hc in Hx. discriminate.
    + intros H. f_equal. apply IH. intros c Hc. specialize (H c Hc).
      cbn [count_char] in H. lia.
  - split.
    + intros H. exfalso.
      assert (L : String.length (entity x ++ escaped s) = S (String.length s))
        by (rewrite H; reflexivity).
      rewrite length_append in L. pose proof (escaped_length s) as G.
      destruct M as [(_ & E) | [(_ & E) | [(_ & E) | [(_ & E) | (_ & E)]]]];
        rewrite E in L; cbn [String.length] in L; lia.
    + intros H. exfalso.
      assert (Hx : is_markup x = true)
        by (destruct M as [(-> & _) | [(-> & _) | [(-> & _) | [(-> & _)
              | (-> & _)]]]]; reflexivity).
      specialize (H x Hx). cbn [count_char] in H.
      rewrite Ascii.eqb_refl in H. discriminate.
Qed.

(** X1: [escapeHtml] leaves no character that could open or close a tag or an
    attribute value: whatever value it is given, a result it returns holds
    no [<], no [>], no double quote and no single quote. *)
Theorem escapeHtml_no_markup v out :
  escapeHtml v = Ret out ->
  count_char "<" out = O /\ count_char ">" out = O /\
  count_char dquote out = O /\ count_char "'" out = O.
Proof.
  intros H. destruct (escapeHtml_returned v out H) as (s & ->).
  repeat split; apply escaped_no_markup; (reflexivity || discriminate).
Qed.

(** X2: Every [&] in a result of [escapeHtml] begins one of the five character
    references it writes: [&amp;], [&lt;], [&gt;], [&quot;] or [&#039;]. *)
Theorem escapeHtml_ampersand_begins_reference v out pre post :
  escapeHtml v = Ret out ->
  out = (pre ++ String "&" post)%string ->
  starts_with "amp;" post || starts_with "lt;" post || starts_with "gt;" post
  || starts_with "quot;" post || starts_with "#039;" post = true.
Proof.
  intros H E. destruct (escapeHtml_returned v out H) as (s & ->).
  apply (escaped_ampersand s pre post E).
Qed.

(** X3: [escapeHtml] loses nothing: two strings with the same escaped text are
    the same string. *)
Theorem escapeHtml_injective s1 s2 :
  escapeHtml (VStr s1) = escapeHtml (VStr s2) -> s1 = s2.
Proof.
  rewrite !escapeHtml_string. intros H. apply escaped_injective.
  apply Ret_inj. exact H.
Qed.

(** X4: The five replacements never interfere with one another: escaping a
    concatenation gives the concatenation of the escaped parts (the [&] of
    a reference written by a later replacement is not escaped again). *)
Theorem escapeHtml_append s1 s2 :
  escapeHtml (VStr (s1 ++ s2))
  = x <- escapeHtml (VStr s1) ;; y <- escapeHtml (VStr s2) ;; Ret (x ++ y)%string.
Proof. rewrite !escapeHtml_string. cbn [bind]. rewrite escaped_append. reflexivity. Qed.

(** X5: [escapeHtml] returns a string unchanged exactly when the string holds
    none of [&], [<], [>], the double quote and the single quote. *)
Theorem escapeHtml_unchanged_iff_plain s :
  escapeHtml (VStr s) = Ret s <->
  (forall c, is_markup c = true -> count_char c s = O).
Proof.
  rewrite escapeHtml_string. rewrite <- escaped_plain. split.
  - apply Ret_inj.
  - intros ->. reflexivity.
Qed.

(** ** Further properties: calendar arithmetic *)

Lemma civil_of_day t t' :
  Day t = Day t' ->
  YearFromTime t = YearFromTime t' /\ MonthFromTime t = MonthFromTime t' /\
  DateFromTime t = DateFromTime t'.
Proof.
  intros E.
  unfold DateFromTime, MonthFromTime, InLeapYear, DayWithinYear, YearFromTime.
  rewrite E. repeat split; reflexivity.
Qed.

Lemma midnight_time d :
  HourFromTime (MakeDate d 0) = 0 /\ MinFromTime (MakeDate d 0) = 0 /\
  SecFromTime (MakeDate d 0) = 0 /\ msFromTime (MakeDate d 0) = 0.
Proof.
  unfold HourFromTime, MinFromTime, SecFromTime, msFromTime, MakeDate,
    msPerDay, msPerHour, msPerMinute, msPerSecond.
  repeat split; Z.div_mod_to_equations; lia.
Qed.

Lemma civil_in_month k dt time :
  1 <= dt <= DaysInMonth (k / 12) (k mod 12) -> 0 <= time < msPerDay ->
  YearFromTime (MakeDate (MonthDay k + dt - 1) time) = k / 12 /\
  MonthFromTime (MakeDate (MonthDay k + dt - 1) time) = k mod 12 /\
  DateFromTime (MakeDate (MonthDay k + dt - 1) time) = dt.
Proof.
  intros Hd Ht.
  assert (MonthDay k + dt - 1 = MakeDay (k / 12) (k mod 12) dt) as ->.
  { rewrite MakeDay_MonthDay.
    replace (12 * (k / 12) + k mod 12) with k by (Z.div_mod_to_equations; lia).
    reflexivity. }
  apply civil_of_MakeDay; try assumption.
  Z.div_mod_to_equations; lia.
Qed.

(** X6: [startOfDay d] is the local midnight that starts the calendar day of
    [d]: it is at most a day before [d], shows the same calendar date with
    every time field zero, and [startOfDay] leaves it as it is. *)
Theorem startOfDay_local_midnight d :
  startOfDay d <= d < startOfDay d + msPerDay /\
  getFullYear (startOfDay d) = getFullYear d /\
  getMonth (startOfDay d) = getMonth d /\
  getDate (startOfDay d) = getDate d /\
  getHours (startOfDay d) = 0 /\ getMinutes (startOfDay d) = 0 /\
  getSeconds (startOfDay d) = 0 /\ getMilliseconds (startOfDay d) = 0 /\
  startOfDay (startOfDay d) = startOfDay d.
Proof.
  pose proof (TimeWithinDay_range (LocalTime d)) as R.
  assert (D : Day (LocalTime (startOfDay d)) = Day (LocalTime d)).
  { rewrite startOfDay_local. apply Day_MakeDate. unfold msPerDay. lia. }
  destruct (civil_of_day _ _ D) as (Y & M & Dt).
  destruct (midnight_time (Day (LocalTime d))) as (H1 & H2 & H3 & H4).
  split; [rewrite startOfDay_eq; lia | ].
  unfold getFullYear, getMonth, getDate, getHours, getMinutes, getSeconds,
    getMilliseconds.
  repeat (split; [first [exact Y | exact M | exact Dt
                        | rewrite startOfDay_local; assumption] | ]).
  rewrite (startOfDay_eq (startOfDay d)), startOfDay_local.
  rewrite TimeWithinDay_MakeDate by (unfold msPerDay; lia). lia.
Qed.

Lemma addDays_floor d days :
  (0 <= days)%Q ->
  0 <= Qfloor days /\ addDays d days = d + Qfloor days * msPerDay.
Proof.
  intros H. unfold addDays. rewrite setDate_days.
  pose proof (getDate_range d) as G.
  assert (E : Qtrunc (inject_Z (getDate d) + days) = getDate d + Qfloor days
              /\ 0 <= Qfloor days).
  { destruct days as [num den]. unfold Qle in H. cbn [Qnum Qden] in H.
    unfold Qtrunc, Qfloor, Qplus, inject_Z. cbn [Qnum Qden].
    rewrite Z.quot_div_nonneg by nia.
    rewrite Z.mul_1_r, Pos.mul_1_l.
    rewrite Z.add_comm, Z.div_add by lia.
    split; [lia | apply Z.div_pos; lia]. }
  destruct E as (-> & F). split; [exact F | lia].
Qed.

(** X9: [weeksBetween a b] counts the whole weeks from the calendar day of [a]
    to the calendar day of [b], rounding down: the start of the day of [b]
    lies in the week that begins that many weeks after the start of the day
    of [a].  It is not negative when [a] is not after [b]. *)
Theorem weeksBetween_whole_weeks a b :
  let w := weeksBetween a b in
  addWeeks (startOfDay a) (inject_Z w) <= startOfDay b
  < addWeeks (startOfDay a) (inject_Z (w + 1)) /\
  (a <= b -> 0 <= w).
Proof.
  cbv zeta. rewrite !addWeeks_int.
  assert (E : weeksBetween a b = (startOfDay b - startOfDay a) / (7 * msPerDay))
    by reflexivity.
  split.
  - rewrite E. unfold msPerDay. Z.div_mod_to_equations. lia.
  - intros L. rewrite weeksBetween_days. apply Z.div_pos; [ | lia].
    assert (Day (LocalTime a) <= Day (LocalTime b)); [ | lia].
    unfold Day, LocalTime, msPerDay. apply Z.div_le_mono; lia.
Qed.

(** Moving the second date by whole weeks moves the count by as many:
    [weeksBetween a (addWeeks b n) = weeksBetween a b + n]; in particular
    [weeksBetween a (addWeeks a n) = n].  [addWeeks] keeps the weekday. *)
Lemma weeksBetween_addWeeks a b n :
  weeksBetween a (addWeeks b (inject_Z n)) = weeksBetween a b + n /\
  weeksBetween a (addWeeks a (inject_Z n)) = n /\
  getDay (addWeeks b (inject_Z n)) = getDay b.
Proof.
  rewrite !addWeeks_int, !weeksBetween_days.
  replace (n * (7 * msPerDay)) with ((7 * n) * msPerDay) by lia.
  rewrite !LocalTime_add, !Day_add_days, getDay_add_days.
  pose proof (getDay_range b).
  repeat split; Z.div_mod_to_equations; lia.
Qed.

(** X11: [setTimeFromAnchor dateOnly anchor] stays on the calendar day of
    [dateOnly] and lies as long after its midnight as [anchor] lies after
    the midnight of its own day; on the anchor itself it changes nothing. *)
Theorem setTimeFromAnchor_day_and_time x a :
  startOfDay (setTimeFromAnchor x a) = startOfDay x /\
  setTimeFromAnchor x a - startOfDay x = a - startOfDay a /\
  same_time_of_day (setTimeFromAnchor x a) a /\
  setTimeFromAnchor a a = a.
Proof.
  pose proof (setTimeFromAnchor_local x a) as E.
  pose proof (TimeWithinDay_range (LocalTime a)) as R.
  pose proof (MakeDate_Day (LocalTime x)) as F.
  pose proof (MakeDate_Day (LocalTime a)) as Fa.
  assert (T : TimeWithinDay (LocalTime (setTimeFromAnchor x a))
              = TimeWithinDay (LocalTime a))
    by (rewrite E; apply TimeWithinDay_MakeDate; exact R).
  assert (S0 : setTimeFromAnchor x a
               = x - TimeWithinDay (LocalTime x) + TimeWithinDay (LocalTime a))
    by (unfold MakeDate, LocalTime in *; lia).
  assert (Sa : setTimeFromAnchor a a = a).
  { pose proof (setTimeFromAnchor_local a a) as G.
    rewrite Fa in G. unfold LocalTime in G. lia. }
  rewrite (startOfDay_eq (setTimeFromAnchor x a)), T, (startOfDay_eq x),
    (startOfDay_eq a).
  split; [lia | ]. split; [lia | ].
  split; [apply setTimeFromAnchor_time | exact Sa].
Qed.

Lemma setMonth_local d month :
  LocalTime (setMonth d month)
  = MakeDate (MonthDay (12 * getFullYear d + month) + getDate d - 1)
             (TimeWithinDay (LocalTime d)).
Proof.
  unfold setMonth. rewrite LocalTime_UTC, MakeDay_MonthDay. reflexivity.
Qed.

Lemma setDate_local d dt :
  LocalTime (setDate d dt)
  = MakeDate (MonthDay (month_index d) + Qtrunc dt - 1)
             (TimeWithinDay (LocalTime d)).
Proof.
  unfold setDate. rewrite LocalTime_UTC, MakeDay_MonthDay. reflexivity.
Qed.

(** A date whose local time is day [dt] of month [k] at time [time]. *)
Lemma local_civil r k dt time :
  LocalTime r = MakeDate (MonthDay k + dt - 1) time ->
  1 <= dt <= DaysInMonth (k / 12) (k mod 12) -> 0 <= time < msPerDay ->
  month_index r = k /\ getDate r = dt /\ TimeWithinDay (LocalTime r) = time.
Proof.
  intros E Hd Ht.
  unfold month_index, getFullYear, getMonth, getDate. rewrite E.
  destruct (civil_in_month k dt time Hd Ht) as (-> & -> & ->).
  rewrite TimeWithinDay_MakeDate by exact Ht.
  repeat split. Z.div_mod_to_equations; lia.
Qed.

Lemma same_time_of_local r d D :
  LocalTime r = MakeDate D (TimeWithinDay (LocalTime d)) -> same_time_of_day r d.
Proof.
  intros E. unfold same_time_of_day, getHours, getMinutes, getSeconds,
    getMilliseconds. rewrite E. apply time_of_MakeDate.
Qed.

(** X12: [addMonths d n] lands in the month [n] months after the month of [d],
    on the same day of the month when that month has such a day and on its
    last day otherwise (31 January plus one month is the last day of
    February, never a day of March); the time of day is kept. *)
Theorem addMonths_clamps_day d n :
  let k := month_index d + n in
  month_index (addMonths d n) = k /\
  getDate (addMonths d n) = Z.min (getDate d) (DaysInMonth (k / 12) (k mod 12)) /\
  same_time_of_day (addMonths d n) d.
Proof.
  cbv zeta.
  pose proof (DateFromTime_range (LocalTime d)) as Hdd.
  pose proof (DaysInMonth_range (YearFromTime (LocalTime d))
                (MonthFromTime (LocalTime d))) as Hdim.
  pose proof (TimeWithinDay_range (LocalTime d)) as Ht.
  fold (getDate d) in Hdd.
  set (k := month_index d + n).
  pose proof (DaysInMonth_range (k / 12) (k mod 12)) as HL.
  pose proof (setMonth_local d (getMonth d + n)) as X.
  replace (12 * getFullYear d + (getMonth d + n)) with k in X
    by (unfold k, month_index; lia).
  unfold addMonths.
  set (x := setMonth d (getMonth d + n)) in *.
  destruct (Z_le_gt_dec (getDate d) (DaysInMonth (k / 12) (k mod 12))) as [Le | Gt].
  - destruct (local_civil x k (getDate d) _ X ltac:(lia) Ht) as (Mx & Dx & _).
    rewrite Dx, Z.eqb_refl. cbn [negb].
    rewrite Mx, Dx, Z.min_l by exact Le.
    split; [reflexivity | split; [reflexivity | ]].
    apply (same_time_of_local x d _ X).
  - set (L := DaysInMonth (k / 12) (k mod 12)) in *.
    assert (X' : LocalTime x
                 = MakeDate (MonthDay (k + 1) + (getDate d - L) - 1)
                            (TimeWithinDay (LocalTime d))).
    { rewrite X, MonthDay_succ. fold L. f_equal. lia. }
    pose proof (DaysInMonth_range ((k + 1) / 12) ((k + 1) mod 12)) as HL'.
    destruct (local_civil x (k + 1) (getDate d - L) _ X' ltac:(lia) Ht)
      as (Mx & Dx & Tx).
    rewrite Dx.
    destruct (Z.eqb_spec (getDate d - L) (getDate d)) as [E | _]; [lia | ].
    cbn [negb].
    pose proof (setDate_local x 0) as S0.
    rewrite Mx, Tx in S0. change (Qtrunc 0) with 0 in S0.
    assert (S1 : LocalTime (setDate x 0)
                 = MakeDate (MonthDay k + L - 1) (TimeWithinDay (LocalTime d))).
    { rewrite S0, MonthDay_succ. fold L. f_equal. lia. }
    destruct (local_civil (setDate x 0) k L _ S1 ltac:(unfold L; lia) Ht)
      as (Mr & Dr & _).
    rewrite Mr, Dr, Z.min_r by lia.
    split; [reflexivity | split; [reflexivity | ]].
    apply (same_time_of_local (setDate x 0) d _ S1).
Qed.

Lemma nth_weekday_offset w first :
  0 <= w <= 6 ->
  let offset := (w - (first + 4) mod 7 + 7) mod 7 in
  0 <= offset <= 6 /\ forall j, (first + offset + 7 * j + 4) mod 7 = w.
Proof. intros Hw. cbv zeta. split; [ | intros j]; Z.div_mod_to_equations; lia. Qed.

(** X13: For a whole weekday from 0 to 6 and a week from 1 to 4, a month from 0
    to 11 and any year, [nthWeekdayOfMonth] is the local midnight of a day
    of that month (of year 1900 + [year] when [year] is from 0 to 99) that
    falls on the weekday, and its day of the month lies from [7 * n - 6] to
    [7 * n]: it is the [n]-th such weekday of the month.  The same holds of
    week 5 when the month has a fifth such weekday. *)
Theorem nthWeekdayOfMonth_in_month year monthIndex w n :
  0 <= monthIndex <= 11 -> 0 <= w <= 6 -> 1 <= n <= 5 ->
  let r := nthWeekdayOfMonth year monthIndex (inject_Z w) (inject_Z n) in
  let first := MonthDay (12 * full_year year + monthIndex) in
  let day := 1 + (w - (first + 4) mod 7 + 7) mod 7 + 7 * (n - 1) in
  7 * n - 6 <= day <= 7 * n /\
  getDay r = w /\ startOfDay r = r /\
  (n <= 4 \/ day <= DaysInMonth (full_year year) monthIndex ->
   getFullYear r = full_year year /\ getMonth r = monthIndex /\
   getDate r = day).
Proof.
  intros Hm Hw Hn. cbv zeta.
  rewrite nthWeekdayOfMonth_int by exact Hw. cbv zeta.
  set (k := 12 * full_year year + monthIndex).
  destruct (nth_weekday_offset w (MonthDay k) Hw) as (Ho & Hwd).
  set (offset := (w - (MonthDay k + 4) mod 7 + 7) mod 7) in *.
  assert (T0 : 0 <= 0 < msPerDay) by (unfold msPerDay; lia).
  split; [lia | ]. split; [ | split].
  - unfold getDay. rewrite LocalTime_UTC, WeekDay_MakeDate by exact T0.
    apply Hwd.
  - rewrite startOfDay_eq, LocalTime_UTC, TimeWithinDay_MakeDate by exact T0.
    lia.
  - intros Hin.
    assert (Kq : k / 12 = full_year year) by (unfold k; Z.div_mod_to_equations; lia).
    assert (Kr : k mod 12 = monthIndex) by (unfold k; Z.div_mod_to_equations; lia).
    pose proof (DaysInMonth_range (full_year year) monthIndex) as HL.
    unfold getFullYear, getMonth, getDate. rewrite LocalTime_UTC.
    replace (MonthDay k + offset + 7 * (n - 1))
      with (MonthDay k + (1 + offset + 7 * (n - 1)) - 1) by lia.
    destruct (civil_in_month k (1 + offset + 7 * (n - 1)) 0) as (-> & -> & ->);
      [rewrite Kq, Kr; lia | exact T0 | ].
    rewrite Kq, Kr. repeat split.
Qed.

(** ** Further properties: the resolvers on valid descriptors *)

(** The weekly resolver skips no occurrence: what it returns is the
    earliest instant of the series [base], [base + interval weeks],
    [base + 2 * interval weeks], ... that is strictly after [now]; once the
    series has started it is at most one interval after [now]. *)
Lemma weekly_returns_earliest fuel a interval weekday i w now r :
  valid_weekly interval weekday i w ->
  nextWeeklyOccurrence fuel (Some a) interval weekday now = Ret (Some r) ->
  (forall k, 0 <= k -> now < weekly_base a w + k * (i * msPerWeek) ->
             r <= weekly_base a w + k * (i * msPerWeek)) /\
  (weekly_base a w <= now -> r <= now + i * msPerWeek).
Proof.
  intros V H.
  destruct (weekly_returned _ _ _ _ _ _ _ _ V H) as (k0 & Hk0 & E & L & P).
  destruct V as (_ & Hi & _ & _).
  assert (HP : 0 < i * msPerWeek) by (unfold msPerWeek, msPerDay; lia).
  generalize dependent (i * msPerWeek). intros W E P HP.
  split.
  - intros k Hk Hlt.
    destruct (Z.le_gt_cases k0 k) as [Le | Gt].
    + pose proof (Z.mul_le_mono_nonneg_r k0 k W ltac:(lia) Le). lia.
    + pose proof (Z.mul_le_mono_nonneg_r (k + 1) k0 W ltac:(lia) ltac:(lia)).
      destruct P as [-> | P]; lia.
  - intros B. destruct P as [-> | P]; lia.
Qed.

(** Once the series has started, the weekly resolver is periodic in the
    reference instant: moving [now] forward by one interval moves the
    result forward by one interval. *)
Lemma weekly_periodic fuel a interval weekday i w now :
  valid_weekly interval weekday i w -> (1 <= fuel)%nat ->
  weekly_base a w <= now ->
  exists r,
    nextWeeklyOccurrence fuel (Some a) interval weekday now = Ret (Some r) /\
    nextWeeklyOccurrence fuel (Some a) interval weekday (now + i * msPerWeek)
    = Ret (Some (r + i * msPerWeek)).
Proof.
  intros V F B.
  destruct (weekly_result fuel a _ _ i w now V F) as (r1 & H1).
  destruct (weekly_result fuel a _ _ i w (now + i * msPerWeek) V F) as (r2 & H2).
  exists r1. split; [exact H1 | ]. rewrite H2. do 2 f_equal.
  destruct (weekly_returned _ _ _ _ _ _ _ _ V H1) as (k1 & Hk1 & E1 & L1 & P1).
  destruct (weekly_returned _ _ _ _ _ _ _ _ V H2) as (k2 & Hk2 & E2 & L2 & P2).
  destruct V as (_ & Hi & _ & _).
  assert (HP : 0 < i * msPerWeek) by (unfold msPerWeek, msPerDay; lia).
  clear H1 H2 F. set (W := i * msPerWeek) in *. clearbody W.
  assert (Q1 : r1 - W <= now) by (destruct P1 as [-> | P1]; lia).
  assert (Q2 : r2 - W <= now + W) by (destruct P2 as [-> | P2]; lia).
  destruct (Z.lt_trichotomy (k1 + 1) k2) as [Lt | [Eq | Gt]].
  - pose proof (Z.mul_le_mono_nonneg_r (k1 + 2) k2 W ltac:(lia) ltac:(lia)). lia.
  - subst k2. lia.
  - pose proof (Z.mul_le_mono_nonneg_r k2 k1 W ltac:(lia) ltac:(lia)). lia.
Qed.

(** While [now] is before the anchor, the weekly resolver returns the first
    occurrence whatever the interval: the first day on or after the anchor
    that falls on the target weekday, at the anchor's time, less than a week
    after the anchor - the anchor itself when it falls on that weekday. *)
Lemma upcoming_anchor_first_occurrence fuel a interval weekday i w now :
  valid_weekly interval weekday i w -> now < a ->
  exists r,
    nextWeeklyOccurrence fuel (Some a) interval weekday now = Ret (Some r) /\
    a <= r < a + msPerWeek /\ getDay r = w /\ same_time_of_day r a /\
    (getDay a = w -> r = a).
Proof.
  intros V L. exists (weekly_base a w).
  rewrite (nextWeeklyOccurrence_valid fuel a _ _ i w now V).
  pose proof (weekly_base_bounds a w) as B.
  destruct V as (_ & _ & _ & Hw).
  destruct (Z.ltb_spec now (weekly_base a w)) as [_ | G]; [ | lia].
  split; [reflexivity | ]. split; [exact B | ].
  split; [apply weekly_base_weekday; exact Hw | ].
  split; [apply same_time_add_days | ].
  intros E. unfold weekly_base. rewrite E.
  replace ((w - w + 7) mod 7) with 0 by (Z.div_mod_to_equations; lia). lia.
Qed.

Lemma month_occurrence_civil a w n k :
  0 <= w <= 6 -> 1 <= n <= 5 ->
  getDay (month_occurrence a w n k) = w /\
  (n <= 4 -> month_index (month_occurrence a w n k) = k /\
             7 * n - 6 <= getDate (month_occurrence a w n k) <= 7 * n).
Proof.
  intros Hw Hn.
  pose proof (month_occurrence_local a w n k) as E.
  pose proof (TimeWithinDay_range (LocalTime a)) as T.
  destruct (nth_weekday_offset w (MonthDay k) Hw) as (Ho & Hwd).
  set (offset := (w - (MonthDay k + 4) mod 7 + 7) mod 7) in *.
  split.
  - unfold getDay. rewrite E, WeekDay_MakeDate by exact T. apply Hwd.
  - intros H4.
    pose proof (DaysInMonth_range (k / 12) (k mod 12)) as HL.
    replace (MonthDay k + offset + 7 * (n - 1))
      with (MonthDay k + (1 + offset + 7 * (n - 1)) - 1) in E by lia.
    destruct (local_civil _ k _ _ E ltac:(lia) T) as (-> & -> & _).
    split; [reflexivity | lia].
Qed.

Lemma monthly_returned_month a weekday weekOfMonth w n now r :
  valid_monthly weekday weekOfMonth w n ->
  nextMonthlyOccurrence (Some a) weekday weekOfMonth now = Ret (Some r) ->
  exists k, r = month_occurrence a w n k.
Proof.
  intros V H.
  destruct (monthly_returned _ _ _ _ _ _ _ V H) as (j & _ & -> & _).
  destruct V as (_ & Hw & _ & _).
  rewrite cursor_at_month, occurrence_of_month by exact Hw.
  eexists. reflexivity.
Qed.

(** X17: An occurrence returned by the monthly resolver falls on the target
    weekday; for a week from 1 to 4 its day of the month lies from
    [7 * n - 6] to [7 * n], and (for [now] in a year that is not from -2 to
    99) its month is one of the 24 months that start with the month of
    [now]. *)
Theorem monthly_result_on_weekday a weekday weekOfMonth w n now r :
  valid_monthly weekday weekOfMonth w n ->
  nextMonthlyOccurrence (Some a) weekday weekOfMonth now = Ret (Some r) ->
  getDay r = w /\
  (n <= 4 -> 7 * n - 6 <= getDate r <= 7 * n) /\
  (n <= 4 -> plain_years now ->
   month_index now <= month_index r < month_index now + 24).
Proof.
  intros V H. pose proof V as (_ & Hw & _ & Hn).
  split; [ | split].
  - destruct (monthly_returned_month _ _ _ _ _ _ _ V H) as (k & ->).
    apply (month_occurrence_civil a w n k Hw Hn).
  - intros H4. destruct (monthly_returned_month _ _ _ _ _ _ _ V H) as (k & ->).
    apply (month_occurrence_civil a w n k Hw Hn). exact H4.
  - intros H4 Hy.
    destruct (monthly_returned_plain _ _ _ _ _ _ _ V Hy H) as (j & Hj & -> & _).
    destruct (month_occurrence_civil a w n (month_index now + j) Hw Hn)
      as (_ & M).
    destruct (M H4) as (-> & _). lia.
Qed.

Lemma two_occurrences_near a w n now :
  0 <= w <= 6 -> 1 <= n <= 5 -> plain_years now ->
  occurrence_of a (inject_Z w) (inject_Z n) (cursor_at now 0)
  < now + 66 * msPerDay /\
  occurrence_of a (inject_Z w) (inject_Z n) (cursor_at now 1)
  < now + 66 * msPerDay.
Proof.
  intros Hw Hn Hy.
  pose proof (occurrence_at_cursor a w n now 0 Hw Hy ltac:(lia)) as E0.
  pose proof (occurrence_at_cursor a w n now 1 Hw Hy ltac:(lia)) as E1.
  rewrite E0, E1. clear E0 E1.
  replace (month_index now + Z.of_nat 0) with (month_index now) by lia.
  replace (month_index now + Z.of_nat 1) with (month_index now + 1) by lia.
  pose proof (month_occurrence_bounds a w n (month_index now) Hn) as B0.
  pose proof (month_occurrence_bounds a w n (month_index now + 1) Hn) as B1.
  pose proof (month_index_bounds now) as N.
  assert (S1 : month_start (month_index now + 1)
               <= month_start (month_index now) + 31 * msPerDay).
  { unfold month_start, UTC, MakeDate. rewrite MonthDay_succ.
    pose proof (DaysInMonth_range (month_index now / 12) (month_index now mod 12)).
    unfold msPerDay. lia. }
  generalize dependent (month_occurrence a w n (month_index now)).
  generalize dependent (month_occurrence a w n (month_index now + 1)).
  generalize dependent (month_start (month_index now + 1)).
  generalize dependent (month_start (month_index now)).
  unfold msPerDay. intros. lia.
Qed.

(** X18: An event that has started (its anchor is not after [now]) always has a
    next monthly occurrence, whatever the year: it is found in the month of
    the first cursor or in the next one, so the 24-month horizon is never
    reached; for [now] in a year that is not from -2 to 99 it lies less
    than 66 days after [now]. *)
Theorem monthly_started_event_resolves a weekday weekOfMonth w n now :
  valid_monthly weekday weekOfMonth w n -> a <= now ->
  exists r,
    nextMonthlyOccurrence (Some a) weekday weekOfMonth now = Ret (Some r) /\
    now < r /\
    (r = occurrence_of a (inject_Z w) (inject_Z n) (cursor_at now 0) \/
     r = occurrence_of a (inject_Z w) (inject_Z n) (cursor_at now 1)) /\
    (plain_years now -> r < now + 66 * msPerDay).
Proof.
  intros V Ha. rewrite (nextMonthlyOccurrence_valid a _ _ w n now V).
  destruct V as (_ & Hw & _ & Hn).
  pose proof (occurrence_after_now a w n now 1 Hw Hn ltac:(lia)) as O1.
  pose proof (two_occurrences_near a w n now Hw Hn) as B.
  rewrite monthly_scan_eq.
  set (o0 := occurrence_of a (inject_Z w) (inject_Z n) (cursor_at now 0)) in *.
  destruct (Z.leb_spec a o0); destruct (Z.ltb_spec now o0); cbn [andb];
    try (exists o0; split; [reflexivity | ];
         split; [assumption | split; [left; reflexivity | ]];
         intros Hy; exact (proj1 (B Hy))).
  all: rewrite monthly_scan_eq, <- cursor_at_succ;
    set (o1 := occurrence_of a (inject_Z w) (inject_Z n) (cursor_at now 1)) in *;
    destruct (Z.leb_spec a o1); destruct (Z.ltb_spec now o1); cbn [andb]; try lia;
    (exists o1; split; [reflexivity | ];
     split; [assumption | split; [right; reflexivity | ]];
     intros Hy; exact (proj2 (B Hy))).
Qed.

(** ** Further properties: every descriptor and every event *)

Lemma js_rem_nonneg x : (0 <= x)%Q -> (0 <= js_rem x 7)%Q.
Proof.
  intros H. destruct x as [n d]. unfold Qle in H. cbn [Qnum Qden] in H.
  unfold js_rem, Qtrunc, Qdiv, Qminus, Qplus, Qopp, Qmult, Qinv, Qle, inject_Z.
  cbn [Qnum Qden Pos.mul].
  rewrite Z.quot_div_nonneg by lia.
  pose proof (Z.mul_div_le (n * 1) (Z.pos (d * 7)) ltac:(lia)) as L.
  rewrite Pos2Z.inj_mul in *. nia.
Qed.

Lemma weekday_delta_nonneg v g :
  (0 <= v)%Q -> g <= 6 -> (0 <= js_rem (v - inject_Z g + 7) 7)%Q.
Proof.
  intros Hv Hg. apply js_rem_nonneg.
  destruct v as [n d]. unfold Qle in *. cbn [Qnum Qden] in Hv.
  unfold Qminus, Qplus, Qopp, inject_Z. cbn [Qnum Qden]. nia.
Qed.

Lemma num_lt_false_inv q lo : num_lt (Fin q) (Fin lo) = false -> (lo <= q)%Q.
Proof.
  unfold num_lt. intros H. apply negb_false_iff in H.
  apply Qle_bool_iff. exact H.
Qed.

Lemma catch_up_sound fuel q now c r :
  (0 <= q)%Q -> catch_up fuel q now c = Ret r ->
  now < r /\ exists e, 0 <= e /\ r = c + e * msPerDay.
Proof.
  intros Hq. revert c. induction fuel as [ | fuel IH]; intros c H.
  - cbn [catch_up] in H. unfold getTime in H.
    destruct (Z.leb_spec c now); [discriminate | ].
    apply Ret_inj in H. subst r. split; [assumption | exists 0; lia].
  - destruct (Z.leb_spec c now) as [L | L].
    + rewrite catch_up_step in H by exact L.
      destruct (IH _ H) as (Hr & e & He & ->).
      split; [exact Hr | ].
      assert (Hq7 : (0 <= q * 7)%Q).
      { destruct q as [n d]. unfold Qle in *. cbn [Qnum Qden] in *.
        unfold Qmult. cbn [Qnum Qden]. lia. }
      unfold addWeeks. destruct (addDays_floor c _ Hq7) as (F & ->).
      exists (Qfloor (q * 7) + e). split; lia.
    + rewrite catch_up_done in H by exact L.
      apply Ret_inj in H. subst r. split; [assumption | exists 0; lia].
Qed.

Lemma blocks_nonneg w q : 0 <= w -> (1 <= q)%Q ->
  (0 <= inject_Z (Qfloor (inject_Z w / q)) * q * 7)%Q.
Proof.
  intros Hw Hq.
  assert (Hd : (0 <= inject_Z w / q)%Q).
  { destruct q as [[ | n | n] d]; unfold Qle in Hq; cbn [Qnum Qden] in Hq; try lia.
    unfold Qdiv, Qmult, Qinv, Qle, inject_Z. cbn [Qnum Qden]. lia. }
  pose proof (Qfloor_resp_le _ _ Hd) as F. change (Qfloor 0) with 0 in F.
  destruct q as [n d]. unfold Qle in Hq. cbn [Qnum Qden] in Hq.
  set (b := Qfloor (inject_Z w / (n # d))) in *. clearbody b.
  unfold Qmult, Qle, inject_Z. cbn [Qnum Qden]. nia.
Qed.

(** What the weekly resolver returns on any descriptor at all that passes
    its guard: an instant strictly after [now], a whole number of days
    (none or more) after the anchor. *)
Lemma weekly_sound fuel a interval weekday now r :
  nextWeeklyOccurrence fuel (Some a) interval weekday now = Ret (Some r) ->
  now < r /\ exists e, 0 <= e /\ r = a + e * msPerDay.
Proof.
  unfold nextWeeklyOccurrence.
  destruct (Number (nullish interval (VNum (Fin 1)))) as [intv | | ];
    cbn [bind]; [ | discriminate | discriminate].
  destruct (Number weekday) as [wd | | ]; cbn [bind]; [ | discriminate | discriminate].
  match goal with |- (if ?g then _ else _) = _ -> _ => destruct g eqn:G end;
    [discriminate | ].
  destruct intv as [ | ? | q]; [discriminate | discriminate | ].
  destruct wd as [ | ? | v]; [discriminate | discriminate | ].
  cbn [Number_isFinite negb orb] in G. rewrite orb_false_r in G.
  apply orb_false_elim in G. destruct G as (G & G6).
  apply orb_false_elim in G. destruct G as (G1 & G0).
  apply num_lt_false_inv in G1, G0, G6.
  cbv zeta. unfold getTime.
  pose proof (getDay_range (startOfDay a)) as Hg.
  pose proof (weekday_delta_nonneg v (getDay (startOfDay a)) G0 ltac:(lia)) as Hd.
  destruct (addDays_floor (startOfDay a) _ Hd) as (He0 & ->).
  rewrite setTimeFromAnchor_shift.
  set (e0 := Qfloor (js_rem (v - inject_Z (getDay (startOfDay a)) + 7) 7)) in *.
  clearbody e0.
  destruct (Z.ltb_spec (a + e0 * msPerDay) a) as [Bad | _];
    [unfold msPerDay in Bad; lia | ].
  destruct (Z.ltb_spec now (a + e0 * msPerDay)) as [L | L].
  - intros H. apply Ret_inj in H. injection H as <-.
    split; [exact L | exists e0; split; [exact He0 | reflexivity]].
  - assert (W : 0 <= weeksBetween (a + e0 * msPerDay) now).
    { rewrite weeksBetween_days. apply Z.div_pos; [ | lia].
      assert (Day (LocalTime (a + e0 * msPerDay)) <= Day (LocalTime now)); [ | lia].
      unfold Day, LocalTime, msPerDay in *. apply Z.div_le_mono; lia. }
    pose proof (blocks_nonneg _ q W G1) as Hb.
    unfold addWeeks at 1.
    destruct (addDays_floor (a + e0 * msPerDay) _ Hb) as (He1 & ->).
    set (e1 := Qfloor (_ * 7)) in *. clearbody e1.
    destruct (catch_up fuel q now (a + e0 * msPerDay + e1 * msPerDay))
      as [c | | ] eqn:C; cbn [bind]; [ | discriminate | discriminate].
    intros H. apply Ret_inj in H. injection H as <-.
    assert (Hq0 : (0 <= q)%Q) by (apply Qle_trans with (2 := G1); discriminate).
    destruct (catch_up_sound _ _ _ _ _ Hq0 C) as (Hr & e2 & He2 & ->).
    split; [exact Hr | ]. exists (e0 + e1 + e2). split; lia.
Qed.

(** ** Further properties: completion *)

(** Induction on a value through the elements of arrays. *)
Lemma jsval_elements_ind (P : jsval -> Prop) :
  (forall v, (forall elems, v <> VArray elems) -> P v) ->
  (forall elems, Forall P elems -> P (VArray elems)) ->
  forall v, P v.
Proof.
  intros Hother Harray. fix IH 1. intros v.
  destruct v as [ | | b | n | s | props | elems];
    try (apply Hother; intros elems' E; discriminate E).
  apply Harray. revert elems. fix IHl 1. intros [ | e rest].
  - constructor.
  - constructor; [apply IH | apply IHl].
Qed.

Lemma ToString_convertible v :
  convertible v = true -> exists s, ToString v = Ret s.
Proof.
  induction v as [v Hv | elems IH] using jsval_elements_ind.
  - destruct v as [ | | b | n | s | props | elems]; cbn [convertible ToString];
      intros H; try (eexists; reflexivity).
    + apply negb_true_iff in H. rewrite H. eexists. reflexivity.
    + exfalso. apply (Hv elems). reflexivity.
  - cbn [convertible ToString]. induction IH as [ | e rest He _ IHl];
      intros H; [eexists; reflexivity | ].
    cbn [forallb] in H. apply andb_true_iff in H. destruct H as (Ce & Cr).
    assert (E : exists s,
               match e with
               | VUndefined | VNull => Ret ""%string
               | _ => ToString e
               end = Ret s).
    { destruct e; try (eexists; reflexivity); apply He; exact Ce. }
    destruct E as (s & Es). destruct (IHl Cr) as (r & Er).
    destruct rest as [ | e' rest']; [exists s; exact Es | ].
    rewrite Es. cbn [bind]. rewrite Er. cbn [bind]. eexists. reflexivity.
Qed.

Lemma ToString_not_convertible v :
  convertible v = false -> ToString v = Throw.
Proof.
  induction v as [v Hv | elems IH] using jsval_elements_ind.
  - destruct v as [ | | b | n | s | props | elems]; cbn [convertible ToString];
      intros H; try discriminate H.
    + apply negb_false_iff in H. rewrite H. reflexivity.
    + exfalso. apply (Hv elems). reflexivity.
  - cbn [convertible ToString]. induction IH as [ | e rest He _ IHl];
      intros H; [discriminate H | ].
    cbn [forallb] in H.
    destruct (convertible e) eqn:Ce; cbn [andb] in H.
    + assert (E : exists s,
                 match e with
                 | VUndefined | VNull => Ret ""%string
                 | _ => ToString e
                 end = Ret s).
      { destruct e; try (eexists; reflexivity); apply ToString_convertible, Ce. }
      destruct E as (s & Es). specialize (IHl H).
      destruct rest as [ | e' rest']; [discriminate H | ].
      rewrite Es. cbn [bind]. rewrite IHl. reflexivity.
    + assert (E : match e with
                   | VUndefined | VNull => Ret ""%string
                   | _ => ToString e
                   end = Throw).
      { destruct e; try discriminate Ce; apply He; reflexivity. }
      destruct rest as [ | e' rest']; [exact E | ].
      rewrite E. reflexivity.
Qed.

Lemma Number_convertible v : convertible v = true -> exists n, Number v = Ret n.
Proof.
  intros H. unfold Number, ToPrimitive.
  destruct v; try (eexists; reflexivity);
    destruct (ToString_convertible _ H) as (s & ->); eexists; reflexivity.
Qed.

Lemma parseDate_convertible v :
  convertible v = true -> exists d, parseDate v = Ret d.
Proof.
  intros H. destruct (is_primitive v) eqn:P; [apply parseDate_primitive, P | ].
  unfold parseDate, Date_of_value, ToPrimitive.
  destruct v; try discriminate P; cbn [ToBoolean negb];
    destruct (ToString_convertible _ H) as (s & ->); cbn [bind];
    eexists; reflexivity.
Qed.

Lemma catch_up_completes q now c :
  (1 <= q)%Q ->
  exists f0, forall fuel, (f0 <= fuel)%nat -> exists r, catch_up fuel q now c = Ret r.
Proof.
  intros Hq. exists (Z.to_nat ((now - c) / msPerWeek + 1)). intros fuel F.
  apply catch_up_terminates; [exact Hq | ].
  unfold msPerWeek, msPerDay in *. Z.div_mod_to_equations. lia.
Qed.

Lemma weekly_completes anchorStart interval weekday now :
  convertible interval = true -> convertible weekday = true ->
  exists f0, forall fuel, (f0 <= fuel)%nat ->
    exists o, nextWeeklyOccurrence fuel anchorStart interval weekday now = Ret o.
Proof.
  intros Ci Cw. unfold nextWeeklyOccurrence.
  destruct anchorStart as [a | ]; [ | exists O; intros; eexists; reflexivity].
  assert (Ci' : convertible (nullish interval (VNum (Fin 1))) = true)
    by (destruct interval; try reflexivity; exact Ci).
  destruct (Number_convertible _ Ci') as (intv & ->).
  destruct (Number_convertible _ Cw) as (wd & ->). cbn [bind].
  match goal with
  | |- exists f0, forall fuel, _ -> exists o, (if ?g then _ else _) = _ =>
      destruct g eqn:G
  end; [exists O; intros; eexists; reflexivity | ].
  destruct intv as [ | ? | q]; [exists O; intros; eexists; reflexivity .. | ].
  destruct wd as [ | ? | v]; [exists O; intros; eexists; reflexivity .. | ].
  cbn [Number_isFinite negb orb] in G. rewrite orb_false_r in G.
  apply orb_false_elim in G. destruct G as (G & _).
  apply orb_false_elim in G. destruct G as (G1 & _).
  apply num_lt_false_inv in G1.
  cbv zeta.
  match goal with
  | |- exists f0, forall fuel, _ -> exists o, (if ?c then _ else _) = _ =>
      destruct c
  end; [exists O; intros; eexists; reflexivity | ].
  match goal with
  | |- exists f0, forall fuel, _ ->
         exists o, (c <- catch_up fuel q now ?cand ;; _) = _ =>
      destruct (catch_up_completes q now cand G1) as (f0 & F)
  end.
  exists f0. intros fuel Hf. destruct (F fuel Hf) as (r & ->).
  eexists. reflexivity.
Qed.

Lemma monthly_completes anchorStart weekday weekOfMonth now :
  convertible weekday = true -> convertible weekOfMonth = true ->
  exists o, nextMonthlyOccurrence anchorStart weekday weekOfMonth now = Ret o.
Proof.
  intros Cw Cn. unfold nextMonthlyOccurrence.
  destruct anchorStart as [a | ]; [ | eexists; reflexivity].
  destruct (Number_convertible _ Cw) as (wd & ->).
  destruct (Number_convertible _ Cn) as (wom & ->). cbn [bind].
  match goal with
  | |- exists o, (if ?g then _ else _) = _ => destruct g
  end; [eexists; reflexivity | ].
  destruct wd; [eexists; reflexivity .. | ].
  destruct wom; eexists; reflexivity.
Qed.

Lemma dispatcher_completes_from fuel0 ev now :
  event_convertible ev = true ->
  exists f0, (fuel0 <= f0)%nat /\ forall fuel, (f0 <= fuel)%nat ->
    exists o, nextOccurrenceForEvent fuel ev now = Ret o.
Proof.
  unfold event_convertible. intros C.
  apply andb_true_iff in C. destruct C as (C & Cn).
  apply andb_true_iff in C. destruct C as (C & Cw).
  apply andb_true_iff in C. destruct C as (C & Ci).
  apply andb_true_iff in C. destruct C as (Cs & _).
  unfold nextOccurrenceForEvent. rewrite GetOptional_member. cbn [bind].
  destruct (ToBoolean (member ev "cadence")) eqn:T; cbn [negb orb];
    [ | exists fuel0; split; [apply le_n | intros; eexists; reflexivity]].
  destruct (negb (String.eqb (typeof (member ev "cadence")) "object"));
    [exists fuel0; split; [apply le_n | intros; eexists; reflexivity] | ].
  rewrite (Get_member ev "dateStart") by (apply (truthy_member ev "cadence"), T).
  cbn [bind]. rewrite !(Get_member (member ev "cadence")) by exact T.
  destruct (parseDate_convertible _ Cs) as (d & ->). cbn [bind].
  destruct d as [a | ];
    [ | exists fuel0; split; [apply le_n | intros; eexists; reflexivity]].
  destruct (strict_eq_string (member (member ev "cadence") "type") "weekly").
  - cbn [bind].
    destruct (weekly_completes (Some a) _ _ now Ci Cw) as (f0 & F).
    exists (Nat.max fuel0 f0). split; [apply Nat.le_max_l | ].
    intros fuel Hf. apply F. lia.
  - destruct (strict_eq_string (member (member ev "cadence") "type") "monthly");
      cbn [bind];
      (exists fuel0; split; [apply le_n | intros fuel _]);
      [apply (monthly_completes (Some a) _ _ now Cw Cn) | eexists; reflexivity].
Qed.

(** X21: The dispatcher neither throws nor runs for ever on an event whose
    [dateStart], [dateEnd], [interval], [weekday] and [weekOfMonth] are
    convertible ([event_convertible]): with a loop budget large enough it
    returns an occurrence or none. *)
Theorem dispatcher_completes ev now :
  event_convertible ev = true ->
  exists f0, forall fuel, (f0 <= fuel)%nat ->
    exists o, nextOccurrenceForEvent fuel ev now = Ret o.
Proof.
  intros C. destruct (dispatcher_completes_from O ev now C) as (f0 & _ & F).
  exists f0. exact F.
Qed.

(** X22: [escapeHtml] returns the escaped text of every convertible value and
    throws on the others: a plain object with an own property named
    [toString], or an array that holds one. *)
Theorem escapeHtml_completes_or_throws v :
  (convertible v = true ->
   exists s, ToString (nullish v (VStr "")) = Ret s /\
             escapeHtml v = Ret (escaped s)) /\
  (convertible v = false -> escapeHtml v = Throw).
Proof.
  rewrite escapeHtml_escaped. split; intros C.
  - assert (C' : convertible (nullish v (VStr "")) = true)
      by (destruct v; try reflexivity; exact C).
    destruct (ToString_convertible _ C') as (s & ->). exists s.
    split; reflexivity.
  - assert (C' : convertible (nullish v (VStr "")) = false)
      by (destruct v; try discriminate C; exact C).
    rewrite (ToString_not_convertible _ C'). reflexivity.
Qed.

Lemma isUpcomingOneOff_completes e now :
  ToBoolean e = true -> event_convertible e = true ->
  exists b, isUpcomingOneOff e now = Ret b.
Proof.
  unfold event_convertible. intros T C.
  apply andb_true_iff in C. destruct C as (C & _).
  apply andb_true_iff in C. destruct C as (C & _).
  apply andb_true_iff in C. destruct C as (C & _).
  apply andb_true_iff in C. destruct C as (Cs & Ce).
  unfold isUpcomingOneOff. rewrite !(Get_member e) by exact T. cbn [bind].
  destruct (parseDate_convertible _ Cs) as (d & ->). cbn [bind].
  destruct d as [start | ]; [ | eexists; reflexivity].
  destruct (parseDate_convertible _ Ce) as (d' & ->). cbn [bind].
  eexists. reflexivity.
Qed.

Lemma main_loop_completes_from now events :
  (forall e, In e events -> event_convertible e = true) ->
  exists f0, forall fuel, (f0 <= fuel)%nat ->
    forall special0 regular0,
    exists special regular,
      main_loop fuel events now special0 regular0 = Ret (special, regular).
Proof.
  induction events as [ | e rest IH]; intros C.
  - exists O. intros fuel _ special0 regular0. eexists. eexists. reflexivity.
  - destruct (IH (fun x Hx => C x (or_intror Hx))) as (f1 & F1).
    destruct (dispatcher_completes_from f1 e now (C e (or_introl eq_refl)))
      as (f0 & L & F0).
    exists f0. intros fuel Hf special0 regular0.
    assert (R : forall s r, exists special regular,
                 main_loop fuel rest now s r = Ret (special, regular))
      by (intros s r; apply F1; lia).
    cbn [main_loop].
    destruct (ToBoolean e) eqn:T; cbn [negb orb]; [ | apply R].
    destruct (negb (String.eqb (typeof e) "object")); [apply R | ].
    destruct (isRecurring e).
    + destruct (F0 fuel Hf) as (o & ->). cbn [bind].
      destruct o; apply R.
    + destruct (isUpcomingOneOff_completes e now T (C e (or_introl eq_refl)))
        as (b & ->). cbn [bind].
      destruct b; [ | apply R].
      rewrite (Get_member e) by exact T. cbn [bind].
      assert (Cs : convertible (member e "dateStart") = true).
      { pose proof (C e (or_introl eq_refl)) as Ce. unfold event_convertible in Ce.
        repeat (apply andb_true_iff in Ce; destruct Ce as (Ce & _)). exact Ce. }
      destruct (parseDate_convertible _ Cs) as (d & ->). cbn [bind].
      destruct d; apply R.
Qed.

(** X23: The loop of [main] builds its two lists, without throwing and without
    running for ever, on every list of events whose [dateStart], [dateEnd],
    [interval], [weekday] and [weekOfMonth] are convertible - whatever else
    is malformed in them. *)
Theorem main_loop_completes events now :
  (forall e, In e events -> event_convertible e = true) ->
  exists f0, forall fuel, (f0 <= fuel)%nat ->
    exists special regular,
      main_loop fuel events now [] [] = Ret (special, regular).
Proof.
  intros C. destruct (main_loop_completes_from now events C) as (f0 & F).
  exists f0. intros fuel Hf. apply (F fuel Hf).
Qed.

(** ** Further properties: the lists of events and the links *)

Lemma main_loop_grows fuel now events :
  forall special0 regular0 special regular,
    main_loop fuel events now special0 regular0 = Ret (special, regular) ->
    (forall it, In it special0 -> In it special) /\
    (forall it, In it regular0 -> In it regular).
Proof.
  induction events as [ | e rest IH]; intros special0 regular0 special regular H.
  - cbn [main_loop] in H. apply Ret_inj in H. injection H as <- <-.
    split; intros it I; exact I.
  - cbn [main_loop] in H.
    destruct (negb (ToBoolean e) || negb (String.eqb (typeof e) "object"));
      [apply (IH _ _ _ _ H) | ].
    destruct (isRecurring e).
    + destruct (nextOccurrenceForEvent fuel e now) as [[next | ] | | ];
        cbn [bind] in H; try discriminate H; [ | apply (IH _ _ _ _ H)].
      destruct (IH _ _ _ _ H) as (S & R).
      split; [exact S | ]. intros it I. apply R, in_or_app. left. exact I.
    + destruct (isUpcomingOneOff e now) as [[ | ] | | ];
        cbn [bind] in H; try discriminate H; [ | apply (IH _ _ _ _ H)].
      destruct (Get e "dateStart") as [dateStart | | ]; cbn [bind] in H;
        try discriminate H.
      destruct (parseDate dateStart) as [[start | ] | | ]; cbn [bind] in H;
        try discriminate H; [ | apply (IH _ _ _ _ H)].
      destruct (IH _ _ _ _ H) as (S & R).
      split; [ | exact R]. intros it I. apply S, in_or_app. left. exact I.
Qed.

Lemma main_loop_keeps fuel now events :
  forall special0 regular0 special regular,
    main_loop fuel events now special0 regular0 = Ret (special, regular) ->
    forall e, In e events ->
      ToBoolean e = true -> typeof e = "object"%string ->
      (isRecurring e = true ->
       forall r, nextOccurrenceForEvent fuel e now = Ret (Some r) ->
                 In {| kind := recurring; when := r; ev := e |} regular) /\
      (isRecurring e = false -> isUpcomingOneOff e now = Ret true ->
       forall start, parseDate (member e "dateStart") = Ret (Some start) ->
                     In {| kind := oneoff; when := start; ev := e |} special).
Proof.
  induction events as [ | e0 rest IH]; intros special0 regular0 special regular H
    e I T O; [destruct I | ].
  cbn [main_loop] in H.
  destruct I as [-> | I].
  - rewrite T, O in H. cbn [negb orb String.eqb Ascii.eqb Bool.eqb andb] in H.
    split.
    + intros R r N. rewrite R, N in H. cbn [bind] in H.
      destruct (main_loop_grows _ _ _ _ _ _ _ H) as (_ & G).
      apply G, in_or_app. right. left. reflexivity.
    + intros R U start P. rewrite R, U in H. cbn [bind] in H.
      rewrite (Get_member e) in H by exact T. cbn [bind] in H.
      rewrite P in H. cbn [bind] in H.
      destruct (main_loop_grows _ _ _ _ _ _ _ H) as (G & _).
      apply G, in_or_app. right. left. reflexivity.
  - destruct (negb (ToBoolean e0) || negb (String.eqb (typeof e0) "object"));
      [apply (IH _ _ _ _ H e I T O) | ].
    destruct (isRecurring e0).
    + destruct (nextOccurrenceForEvent fuel e0 now) as [[next | ] | | ];
        cbn [bind] in H; try discriminate H; apply (IH _ _ _ _ H e I T O).
    + destruct (isUpcomingOneOff e0 now) as [[ | ] | | ];
        cbn [bind] in H; try discriminate H; [ | apply (IH _ _ _ _ H e I T O)].
      destruct (Get e0 "dateStart") as [dateStart | | ]; cbn [bind] in H;
        try discriminate H.
      destruct (parseDate dateStart) as [[start | ] | | ]; cbn [bind] in H;
        try discriminate H; apply (IH _ _ _ _ H e I T O).
Qed.

(** X25: The loop of [main] drops nothing that is to come.  When it
    completes, every object of the input marked [recurring: true] for which
    the dispatcher returns an occurrence has an entry in [regular] with
    that occurrence, and every other object of the input that
    [isUpcomingOneOff] accepts has an entry in [special] with its parsed
    [dateStart]. *)
Theorem main_loop_lists_all_upcoming fuel events now special regular :
  main_loop fuel events now [] [] = Ret (special, regular) ->
  forall e, In e events ->
    ToBoolean e = true -> typeof e = "object"%string ->
    (isRecurring e = true ->
     forall r, nextOccurrenceForEvent fuel e now = Ret (Some r) ->
               In {| kind := recurring; when := r; ev := e |} regular) /\
    (isRecurring e = false -> isUpcomingOneOff e now = Ret true ->
     forall start, parseDate (member e "dateStart") = Ret (Some start) ->
                   In {| kind := oneoff; when := start; ev := e |} special).
Proof.
  intros H e I T O. split.
  - intros R r N.
    apply (proj1 (main_loop_keeps _ _ _ _ _ _ _ H e I T O) R r N).
  - intros R U start P.
    apply (proj2 (main_loop_keeps _ _ _ _ _ _ _ H e I T O) R U start P).
Qed.

Lemma count_char_concat c n items :
  Forall (fun h => count_char c h = n) items ->
  count_char c (String.concat "" items) = (n * List.length items)%nat.
Proof.
  induction 1 as [ | h rest Hh _ IH]; [cbn; lia | ].
  destruct rest as [ | h' rest'].
  - cbn. lia.
  - change (String.concat "" (h :: h' :: rest'))
      with (h ++ "" ++ String.concat "" (h' :: rest'))%string.
    rewrite !count_char_append, IH, Hh. cbn [count_char List.length]. lia.
Qed.

Lemma link_html_counts l h :
  link_html l = Ret h ->
  count_char "<" h = 2%nat /\ count_char ">" h = 2%nat /\
  count_char dquote h = 8%nat /\ count_char "'" h = O.
Proof.
  unfold link_html.
  destruct (escapeHtml (member l "href")) as [href | | ] eqn:Eh; cbn [bind];
    try discriminate.
  destruct (escapeHtml (member l "label")) as [label | | ] eqn:El; cbn [bind];
    try discriminate.
  intros H. apply Ret_inj in H. subst h.
  destruct (escapeHtml_returned _ _ Eh) as (s1 & ->).
  destruct (escapeHtml_returned _ _ El) as (s2 & ->).
  repeat split;
    repeat (rewrite count_char_append || cbn [count_char String.append]);
    rewrite !escaped_no_markup by (reflexivity || discriminate); reflexivity.
Qed.

Lemma link_items_counts shown items :
  link_items shown = Ret items ->
  List.length items = List.length shown /\
  Forall (fun h => count_char "<" h = 2%nat) items /\
  Forall (fun h => count_char ">" h = 2%nat) items /\
  Forall (fun h => count_char dquote h = 8%nat) items /\
  Forall (fun h => count_char "'" h = O) items.
Proof.
  revert items. induction shown as [ | l rest IH]; intros items H.
  - cbn [link_items] in H. apply Ret_inj in H. subst items.
    repeat split; constructor.
  - cbn [link_items] in H.
    destruct (link_html l) as [h | | ] eqn:Hh; cbn [bind] in H;
      try discriminate H.
    destruct (link_items rest) as [hs | | ]; cbn [bind] in H;
      try discriminate H.
    apply Ret_inj in H. subst items.
    destruct (IH hs eq_refl) as (L & F1 & F2 & F3 & F4).
    destruct (link_html_counts l h Hh) as (C1 & C2 & C3 & C4).
    cbn [List.length]. rewrite L.
    repeat split; try constructor; assumption.
Qed.

(** X26: The values of the links never add markup to what [renderLinks]
    returns.  With [n] the number of links shown, the result is empty when
    [n = 0]; otherwise it holds exactly [2 * n + 2] characters [<], as many
    [>], [8 * n + 2] double quotes and no single quote - those of the
    [div] and of the [n] anchors - whatever [href] and [label] contain. *)
Theorem renderLinks_markup_fixed links out :
  renderLinks links = Ret out ->
  let n := shown_links links in
  (n = O -> out = ""%string) /\
  (n <> O ->
   count_char "<" out = (2 * n + 2)%nat /\
   count_char ">" out = (2 * n + 2)%nat /\
   count_char dquote out = (8 * n + 2)%nat /\
   count_char "'" out = O).
Proof.
  cbv zeta. unfold renderLinks, shown_links.
  destruct links as [ | | b | x | x | props | elems];
    try (intros H; apply Ret_inj in H; subst out; split; [reflexivity | congruence]).
  destruct elems as [ | l rest];
    [intros H; apply Ret_inj in H; subst out; split; [reflexivity | cbn; congruence] | ].
  destruct (link_items (filter link_shown (l :: rest))) as [items | | ] eqn:I;
    cbn [bind]; try discriminate.
  destruct (link_items_counts _ _ I) as (L & F1 & F2 & F3 & F4).
  rewrite <- L. intros H. apply Ret_inj in H. subst out.
  destruct items as [ | h hs]; [split; [reflexivity | cbn; congruence] | ].
  split; [cbn [List.length]; discriminate | intros _].
  repeat split;
    repeat (rewrite count_char_append || cbn [count_char String.append]);
    first [rewrite (count_char_concat _ _ _ F1)
          | rewrite (count_char_concat _ _ _ F2)
          | rewrite (count_char_concat _ _ _ F3)
          | rewrite (count_char_concat _ _ _ F4)];
    unfold dquote; cbn -[Nat.mul List.length]; lia.
Qed.

(** ** Date objects in full: the operations *)

Lemma TimeClip_valid t : Z.abs t <= maxTime -> TimeClip t = Valid t.
Proof.
  intros H. unfold TimeClip. destruct (Z.leb_spec (Z.abs t) maxTime); [reflexivity | lia].
Qed.

Lemma TimeClip_inv t r : TimeClip t = Valid r -> r = t /\ Z.abs t <= maxTime.
Proof.
  unfold TimeClip. destruct (Z.leb_spec (Z.abs t) maxTime) as [L | L]; [ | discriminate].
  intros E. injection E as <-. split; [reflexivity | exact L].
Qed.

Lemma TimeClip_cases t :
  (Z.abs t <= maxTime /\ TimeClip t = Valid t) \/ TimeClip t = Invalid.
Proof.
  unfold TimeClip. destruct (Z.leb_spec (Z.abs t) maxTime); [left | right]; auto.
Qed.

Lemma Some_Valid_inj x y : Some (Valid x) = Some (Valid y) -> x = y.
Proof. intros H. injection H as H. exact H. Qed.

Lemma Some_inj {A : Type} (x y : A) : Some x = Some y -> x = y.
Proof. intros H. injection H as H. exact H. Qed.

Lemma Qtrunc_inject z : Qtrunc (inject_Z z) = z.
Proof. unfold Qtrunc. cbn [inject_Z Qnum Qden]. apply Z.quot_1_r. Qed.

Lemma num_add_NaN_r a : num_add a NaN = NaN.
Proof. destruct a; reflexivity. Qed.

Lemma num_le_int a b :
  num_le (Fin (inject_Z a)) (Fin (inject_Z b)) = (a <=? b).
Proof.
  unfold num_le, Qle_bool. cbn [inject_Z Qnum Qden]. rewrite !Z.mul_1_r. reflexivity.
Qed.

Lemma num_eq_int a b :
  num_eq (Fin (inject_Z a)) (Fin (inject_Z b)) = (a =? b).
Proof.
  unfold num_eq. destruct (Z.eqb_spec a b) as [-> | N].
  - apply Qeq_bool_iff. reflexivity.
  - destruct (Qeq_bool (inject_Z a) (inject_Z b)) eqn:E; [ | reflexivity].
    apply Qeq_bool_iff in E. unfold Qeq in E. cbn [inject_Z Qnum Qden] in E. lia.
Qed.

Lemma num_div_Fin x q :
  (1 <= q)%Q -> num_div (Fin x) (Fin q) = Fin (x / q).
Proof.
  intros H. unfold num_div.
  destruct (Qeq_bool q 0) eqn:E; [ | reflexivity].
  apply Qeq_bool_iff in E. rewrite E in H. unfold Qle in H. cbn in H. lia.
Qed.

Section Zones.

Variable zone : Z -> bool -> Z.

Lemma Date_setDate_NaN d : Date_setDate zone d NaN = Invalid.
Proof. destruct d; reflexivity. Qed.

Lemma addDays_full_NaN d : addDays_full zone d NaN = Invalid.
Proof. unfold addDays_full. rewrite num_add_NaN_r. apply Date_setDate_NaN. Qed.

Lemma addWeeks_full_NaN d : addWeeks_full zone d NaN = Invalid.
Proof. unfold addWeeks_full. cbn [num_mul]. apply addDays_full_NaN. Qed.

Lemma catch_up_full_invalid fuel intv now :
  catch_up_full zone fuel intv now Invalid = Ret Invalid.
Proof. destruct fuel; reflexivity. Qed.

Lemma catch_up_full_done fuel intv now c :
  now < c -> catch_up_full zone fuel intv (Valid now) (Valid c) = Ret (Valid c).
Proof.
  intros H. destruct fuel; cbn [catch_up_full Date_getTime];
    rewrite num_le_int; destruct (Z.leb_spec c now); try lia; reflexivity.
Qed.

Lemma catch_up_full_step fuel intv now c :
  c <= now ->
  catch_up_full zone (S fuel) intv (Valid now) (Valid c)
  = catch_up_full zone fuel intv (Valid now) (addWeeks_full zone (Valid c) intv).
Proof.
  intros H. cbn [catch_up_full Date_getTime].
  rewrite num_le_int. destruct (Z.leb_spec c now); try lia; reflexivity.
Qed.

(** Whatever the host, the loop hands back an Invalid Date or a date after
    [now]. *)
Lemma catch_up_full_after fuel intv now c d :
  catch_up_full zone fuel intv (Valid now) c = Ret d ->
  d = Invalid \/ exists r, d = Valid r /\ now < r.
Proof.
  revert c. induction fuel as [ | fuel IH]; intros c H.
  - destruct c as [c | ]; cbn [catch_up_full Date_getTime] in H.
    + rewrite num_le_int in H. destruct (Z.leb_spec c now); [discriminate | ].
      apply Ret_inj in H. subst d. right. exists c. split; [reflexivity | lia].
    + apply Ret_inj in H. subst d. left. reflexivity.
  - destruct c as [c | ].
    + destruct (Z.leb_spec c now) as [L | L].
      * rewrite catch_up_full_step in H by exact L. apply (IH _ H).
      * rewrite catch_up_full_done in H by exact L.
        apply Ret_inj in H. subst d. right. exists c. split; [reflexivity | lia].
    + rewrite catch_up_full_invalid in H. apply Ret_inj in H. subst d.
      left. reflexivity.
Qed.

(** *** On a host whose offset never changes *)

Lemma LocalTime_fixed t : constant_offset zone -> LocalTime_at zone t = LocalTime t.
Proof. intros F. unfold LocalTime_at, LocalTime. rewrite F. reflexivity. Qed.

Lemma UTC_fixed t : constant_offset zone -> UTC_at zone t = UTC t.
Proof. intros F. unfold UTC_at, UTC. rewrite F. reflexivity. Qed.

Lemma local_field_fixed field t :
  constant_offset zone ->
  local_field zone field (Valid t) = Fin (inject_Z (field (LocalTime t))).
Proof. intros F. unfold local_field. rewrite LocalTime_fixed by exact F. reflexivity. Qed.

Lemma Date_setHours_fixed t h m s ms :
  constant_offset zone ->
  Date_setHours zone (Valid t) (Fin (inject_Z h)) (Fin (inject_Z m))
                (Fin (inject_Z s)) (Fin (inject_Z ms))
  = TimeClip (setHours t h m s ms).
Proof.
  intros F. unfold Date_setHours, setHours.
  rewrite !Qtrunc_inject, LocalTime_fixed, UTC_fixed by exact F. reflexivity.
Qed.

Lemma Date_setDate_fixed t q :
  constant_offset zone -> Date_setDate zone (Valid t) (Fin q) = TimeClip (setDate t q).
Proof.
  intros F. unfold Date_setDate, setDate. cbv zeta.
  rewrite LocalTime_fixed, UTC_fixed by exact F. reflexivity.
Qed.

Lemma Date_setMonth_fixed t q :
  constant_offset zone ->
  Date_setMonth zone (Valid t) (Fin q) = TimeClip (setMonth t (Qtrunc q)).
Proof.
  intros F. unfold Date_setMonth, setMonth. cbv zeta.
  rewrite LocalTime_fixed, UTC_fixed by exact F. reflexivity.
Qed.

Lemma Date_ymd_fixed y m q :
  constant_offset zone ->
  Date_ymd_full zone (Fin (inject_Z y)) (Fin (inject_Z m)) (Fin q)
  = TimeClip (Date_ymd y m q).
Proof.
  intros F. unfold Date_ymd_full, Date_ymd. cbv zeta.
  rewrite !Qtrunc_inject, UTC_fixed by exact F. reflexivity.
Qed.

Lemma startOfDay_fixed t :
  constant_offset zone -> startOfDay_full zone (Valid t) = TimeClip (startOfDay t).
Proof.
  intros F. unfold startOfDay_full, startOfDay.
  apply (Date_setHours_fixed t 0 0 0 0 F).
Qed.

Lemma addDays_fixed t q :
  constant_offset zone -> addDays_full zone (Valid t) (Fin q) = TimeClip (addDays t q).
Proof.
  intros F. unfold addDays_full, addDays, Date_getDate.
  rewrite local_field_fixed by exact F. cbn [num_add].
  apply Date_setDate_fixed. exact F.
Qed.

Lemma addWeeks_fixed t q :
  constant_offset zone -> addWeeks_full zone (Valid t) (Fin q) = TimeClip (addWeeks t q).
Proof.
  intros F. unfold addWeeks_full, addWeeks. cbn [num_mul].
  apply addDays_fixed. exact F.
Qed.

Lemma setTimeFromAnchor_fixed x a :
  constant_offset zone ->
  setTimeFromAnchor_full zone (Valid x) (Valid a) = TimeClip (setTimeFromAnchor x a).
Proof.
  intros F. unfold setTimeFromAnchor_full, setTimeFromAnchor,
    Date_getHours, Date_getMinutes, Date_getSeconds, Date_getMilliseconds.
  rewrite !local_field_fixed by exact F.
  apply Date_setHours_fixed. exact F.
Qed.

Lemma Date_getDay_fixed t :
  constant_offset zone -> Date_getDay zone (Valid t) = Fin (inject_Z (getDay t)).
Proof. intros F. apply local_field_fixed. exact F. Qed.

(** The two Dates have the same time of day on the local clock exactly when
    their time values have. *)
Lemma same_clock_fixed r a :
  constant_offset zone ->
  same_clock zone (Valid r) (Valid a) <-> same_time_of_day r a.
Proof.
  intros F. unfold same_clock, same_time_of_day, Date_getHours, Date_getMinutes,
    Date_getSeconds, Date_getMilliseconds, getHours, getMinutes, getSeconds,
    getMilliseconds.
  rewrite !local_field_fixed by exact F.
  split.
  - intros (H1 & H2 & H3 & H4).
    injection H1 as H1. injection H2 as H2. injection H3 as H3. injection H4 as H4.
    auto.
  - intros (-> & -> & -> & ->). auto.
Qed.

Lemma Qfloor_sub_div x y w :
  0 < w -> Qfloor ((inject_Z x - inject_Z y) / inject_Z w) = (x - y) / w.
Proof.
  intros Hw. destruct w as [ | p | p]; try lia.
  unfold Qfloor, Qdiv, Qmult, Qinv, Qminus, Qplus, Qopp, inject_Z.
  cbn [Qnum Qden Pos.mul]. f_equal; lia.
Qed.

Lemma weeksBetween_fixed a b :
  constant_offset zone ->
  (Z.abs (startOfDay a) <= maxTime /\ Z.abs (startOfDay b) <= maxTime /\
   weeksBetween_full zone (Valid a) (Valid b) = Fin (inject_Z (weeksBetween a b))) \/
  weeksBetween_full zone (Valid a) (Valid b) = NaN.
Proof.
  intros F. unfold weeksBetween_full. rewrite !startOfDay_fixed by exact F.
  destruct (TimeClip_cases (startOfDay a)) as [(Ra & Ea) | Ea];
    destruct (TimeClip_cases (startOfDay b)) as [(Rb & Eb) | Eb];
    rewrite Ea, Eb; try (right; reflexivity).
  left. split; [exact Ra | split; [exact Rb | ]].
  cbn [Date_getTime num_sub].
  rewrite num_div_Fin by discriminate. cbn [num_floor].
  rewrite Qfloor_sub_div by lia. reflexivity.
Qed.

(** The weekly resolver past its guard, in the first model. *)
Lemma weekly_shape fuel a interval weekday now q v :
  Number (nullish interval (VNum (Fin 1))) = Ret (Fin q) ->
  Number weekday = Ret (Fin v) ->
  (1 <= q)%Q -> (0 <= v)%Q -> (v <= 6)%Q ->
  let anchorDay := startOfDay a in
  let deltaToWd := js_rem (v - inject_Z (getDay anchorDay) + 7) 7 in
  let base0 := setTimeFromAnchor (addDays anchorDay deltaToWd) a in
  let base := if base0 <? a then addWeeks base0 1 else base0 in
  let candidate :=
    addWeeks base (inject_Z (Qfloor (inject_Z (weeksBetween base now) / q)) * q) in
  nextWeeklyOccurrence fuel (Some a) interval weekday now
  = if now <? base then Ret (Some base)
    else c <- catch_up fuel q now candidate ;; Ret (Some c).
Proof.
  intros Hi Hw Hq Hv0 Hv6. cbv zeta.
  unfold nextWeeklyOccurrence. rewrite Hi, Hw. cbn [bind Number_isFinite negb orb].
  rewrite (num_lt_false q 1 Hq), (num_lt_false v 0 Hv0), (num_lt_false 6 v Hv6).
  reflexivity.
Qed.

(** The weekly resolver past its guard on Date objects: an Invalid Date as
    soon as a date it computes leaves the range, and the computation of the
    first model otherwise. *)
Lemma weekly_full_shape fuel a interval weekday now q v :
  constant_offset zone ->
  Number (nullish interval (VNum (Fin 1))) = Ret (Fin q) ->
  Number weekday = Ret (Fin v) ->
  (1 <= q)%Q -> (0 <= v)%Q -> (v <= 6)%Q ->
  let anchorDay := startOfDay a in
  let deltaToWd := js_rem (v - inject_Z (getDay anchorDay) + 7) 7 in
  let base0 := setTimeFromAnchor (addDays anchorDay deltaToWd) a in
  let base := if base0 <? a then addWeeks base0 1 else base0 in
  let candidate :=
    addWeeks base (inject_Z (Qfloor (inject_Z (weeksBetween base now) / q)) * q) in
  nextWeeklyOccurrence_full zone fuel (Some (Valid a)) interval weekday (Valid now)
  = Ret (Some Invalid) \/
  (Z.abs anchorDay <= maxTime /\ Z.abs base <= maxTime /\
   ((now < base /\
     nextWeeklyOccurrence_full zone fuel (Some (Valid a)) interval weekday (Valid now)
     = Ret (Some (Valid base))) \/
    (base <= now /\ Z.abs (startOfDay base) <= maxTime /\
     Z.abs (startOfDay now) <= maxTime /\ Z.abs candidate <= maxTime /\
     nextWeeklyOccurrence_full zone fuel (Some (Valid a)) interval weekday (Valid now)
     = (c <- catch_up_full zone fuel (Fin q) (Valid now) (Valid candidate) ;;
        Ret (Some c))))).
Proof.
  intros F Hi Hw Hq Hv0 Hv6. cbv zeta.
  unfold nextWeeklyOccurrence_full. rewrite Hi, Hw. cbn [bind Number_isFinite negb orb].
  rewrite (num_lt_false q 1 Hq), (num_lt_false v 0 Hv0), (num_lt_false 6 v Hv6).
  cbn [orb]. cbv zeta.
  rewrite startOfDay_fixed by exact F.
  destruct (TimeClip_cases (startOfDay a)) as [(R1 & E1) | E1]; rewrite E1.
  2: { left. destruct fuel; reflexivity. }
  rewrite Date_getDay_fixed by exact F.
  change (num_rem (num_add (num_sub (Fin v) (Fin (inject_Z (getDay (startOfDay a)))))
                           (Fin 7)) (Fin 7))
    with (Fin (js_rem (v - inject_Z (getDay (startOfDay a)) + 7) 7)).
  set (deltaToWd := js_rem (v - inject_Z (getDay (startOfDay a)) + 7) 7).
  rewrite addDays_fixed by exact F.
  destruct (TimeClip_cases (addDays (startOfDay a) deltaToWd)) as [(R2 & E2) | E2];
    rewrite E2.
  2: { left. destruct fuel; reflexivity. }
  rewrite setTimeFromAnchor_fixed by exact F.
  set (base0 := setTimeFromAnchor (addDays (startOfDay a) deltaToWd) a).
  destruct (TimeClip_cases base0) as [(R3 & E3) | E3]; rewrite E3.
  2: { left. destruct fuel; reflexivity. }
  cbn [Date_getTime]. rewrite num_lt_int.
  set (base := if base0 <? a then addWeeks base0 1 else base0).
  assert (B : (if base0 <? a then addWeeks_full zone (Valid base0) (Fin 1)
               else Valid base0) = TimeClip base).
  { unfold base. destruct (base0 <? a).
    - apply addWeeks_fixed. exact F.
    - symmetry. apply TimeClip_valid. exact R3. }
  rewrite B. clear B.
  destruct (TimeClip_cases base) as [(R4 & E4) | E4]; rewrite E4.
  2: { left. destruct fuel; reflexivity. }
  cbn [Date_getTime]. rewrite num_lt_int.
  destruct (Z.ltb_spec now base) as [L | L].
  { right. split; [exact R1 | split; [exact R4 | ]].
    left. split; [exact L | reflexivity]. }
  destruct (weeksBetween_fixed base now F) as [(R5 & R6 & W) | W]; rewrite W.
  2: { left. cbn [num_div num_floor num_mul].
       rewrite addWeeks_full_NaN, catch_up_full_invalid. reflexivity. }
  rewrite num_div_Fin by exact Hq. cbn [num_floor num_mul].
  rewrite addWeeks_fixed by exact F.
  match goal with |- context [TimeClip ?c] => set (candidate := c) end.
  destruct (TimeClip_cases candidate) as [(R7 & E7) | E7]; rewrite E7.
  2: { left. rewrite catch_up_full_invalid. reflexivity. }
  right. split; [exact R1 | split; [exact R4 | ]].
  right. repeat (split; [assumption | ]). reflexivity.
Qed.

Lemma catch_up_full_sim fuel q now c r :
  constant_offset zone ->
  catch_up_full zone fuel (Fin q) (Valid now) (Valid c) = Ret (Valid r) ->
  catch_up fuel q now c = Ret r.
Proof.
  intros F. revert c. induction fuel as [ | fuel IH]; intros c H.
  - cbn [catch_up_full Date_getTime] in H. rewrite num_le_int in H.
    cbn [catch_up]. unfold getTime.
    destruct (Z.leb_spec c now); [discriminate | ].
    apply Ret_inj in H. injection H as <-. reflexivity.
  - destruct (Z.leb_spec c now) as [L | L].
    + rewrite catch_up_full_step, addWeeks_fixed in H by assumption.
      rewrite catch_up_step by exact L.
      destruct (TimeClip_cases (addWeeks c q)) as [(_ & E) | E]; rewrite E in H.
      * apply IH. exact H.
      * rewrite catch_up_full_invalid in H. apply Ret_inj in H. discriminate H.
    + rewrite catch_up_full_done in H by exact L.
      apply Ret_inj in H. injection H as <-. apply catch_up_done. exact L.
Qed.

Lemma catch_up_full_total fuel q now c r :
  constant_offset zone ->
  catch_up fuel q now c = Ret r ->
  exists d, catch_up_full zone fuel (Fin q) (Valid now) (Valid c) = Ret d.
Proof.
  intros F. revert c. induction fuel as [ | fuel IH]; intros c H.
  - cbn [catch_up] in H. unfold getTime in H.
    destruct (Z.leb_spec c now) as [L | L]; [discriminate | ].
    exists (Valid c). apply catch_up_full_done. exact L.
  - destruct (Z.leb_spec c now) as [L | L].
    + rewrite catch_up_step in H by exact L.
      rewrite catch_up_full_step, addWeeks_fixed by assumption.
      destruct (TimeClip_cases (addWeeks c q)) as [(_ & E) | E]; rewrite E.
      * apply IH. exact H.
      * exists Invalid. apply catch_up_full_invalid.
    + exists (Valid c). apply catch_up_full_done. exact L.
Qed.

(** A descriptor for which the weekly resolver returns a Date has passed
    its guard. *)
Lemma weekly_full_guard fuel a interval weekday now d :
  nextWeeklyOccurrence_full zone fuel (Some a) interval weekday now = Ret (Some d) ->
  exists q v,
    Number (nullish interval (VNum (Fin 1))) = Ret (Fin q) /\
    Number weekday = Ret (Fin v) /\ (1 <= q)%Q /\ (0 <= v)%Q /\ (v <= 6)%Q.
Proof.
  unfold nextWeeklyOccurrence_full.
  destruct (Number (nullish interval (VNum (Fin 1)))) as [intv | | ];
    cbn [bind]; [ | discriminate | discriminate].
  destruct (Number weekday) as [wd | | ]; cbn [bind]; [ | discriminate | discriminate].
  match goal with |- (if ?g then _ else _) = _ -> _ => destruct g eqn:G end;
    [discriminate | ].
  intros _.
  destruct intv as [ | ? | q]; [discriminate G | discriminate G | ].
  destruct wd as [ | ? | v]; cbn [Number_isFinite negb orb] in G;
    [rewrite orb_true_r in G; discriminate G
    | rewrite orb_true_r in G; discriminate G | ].
  apply orb_false_elim in G. destruct G as (G & G6).
  apply orb_false_elim in G. destruct G as (G & G0).
  rewrite orb_false_r in G.
  apply num_lt_false_inv in G, G0, G6.
  exists q, v. auto.
Qed.

Lemma valid_weekly_guard interval weekday i w :
  valid_weekly interval weekday i w ->
  (1 <= inject_Z i)%Q /\ (0 <= inject_Z w)%Q /\ (inject_Z w <= 6)%Q.
Proof.
  intros (_ & Hi & _ & Hw).
  change 1%Q with (inject_Z 1). change 0%Q with (inject_Z 0).
  change 6%Q with (inject_Z 6).
  rewrite <- !Zle_Qle. lia.
Qed.

Lemma Date_setDate_range d dt r :
  Date_setDate zone d dt = Valid r -> Z.abs r <= maxTime.
Proof.
  unfold Date_setDate. destruct d as [t | ]; [ | discriminate].
  destruct dt as [ | ? | q]; [discriminate | discriminate | ].
  cbv zeta. intros H. apply TimeClip_inv in H. destruct H as (-> & H). exact H.
Qed.

Lemma addWeeks_full_range d weeks r :
  addWeeks_full zone d weeks = Valid r -> Z.abs r <= maxTime.
Proof. unfold addWeeks_full, addDays_full. apply Date_setDate_range. Qed.

Lemma catch_up_full_range fuel intv now c r :
  Z.abs c <= maxTime ->
  catch_up_full zone fuel intv (Valid now) (Valid c) = Ret (Valid r) ->
  Z.abs r <= maxTime.
Proof.
  revert c. induction fuel as [ | fuel IH]; intros c R H.
  - cbn [catch_up_full Date_getTime] in H. rewrite num_le_int in H.
    destruct (Z.leb_spec c now); [discriminate | ].
    apply Ret_inj in H. injection H as <-. exact R.
  - destruct (Z.leb_spec c now) as [L | L].
    + rewrite catch_up_full_step in H by exact L.
      destruct (addWeeks_full zone (Valid c) intv) as [x | ] eqn:E.
      * apply (IH x); [apply (addWeeks_full_range _ _ _ E) | exact H].
      * rewrite catch_up_full_invalid in H. apply Ret_inj in H. discriminate H.
    + rewrite catch_up_full_done in H by exact L.
      apply Ret_inj in H. injection H as <-. exact R.
Qed.

(** A valid date that the weekly resolver returns on Date objects is the
    date that the first model returns. *)
Lemma weekly_full_sim fuel a interval weekday now r :
  constant_offset zone ->
  nextWeeklyOccurrence_full zone fuel (Some (Valid a)) interval weekday (Valid now)
  = Ret (Some (Valid r)) ->
  nextWeeklyOccurrence fuel (Some a) interval weekday now = Ret (Some r) /\
  Z.abs (startOfDay a) <= maxTime /\ Z.abs r <= maxTime.
Proof.
  intros F H.
  destruct (weekly_full_guard _ _ _ _ _ _ H) as (q & v & Hi & Hw & Hq & Hv0 & Hv6).
  pose proof (weekly_full_shape fuel a _ _ now q v F Hi Hw Hq Hv0 Hv6) as S.
  pose proof (weekly_shape fuel a _ _ now q v Hi Hw Hq Hv0 Hv6) as O.
  cbv zeta in S, O. rewrite O. clear O.
  destruct S as [S | (R1 & R4 & [(L & S) | (L & _ & _ & R7 & S)])];
    rewrite S in H; clear S.
  - apply Ret_inj in H. discriminate H.
  - apply Ret_inj, Some_Valid_inj in H. subst r.
    split; [ | split; [exact R1 | exact R4]].
    match goal with |- (if ?n <? ?b then _ else _) = _ =>
      destruct (Z.ltb_spec n b); [reflexivity | lia] end.
  - match type of H with bind ?m _ = _ =>
      destruct m as [d | | ] eqn:C; cbn [bind] in H; try discriminate H end.
    apply Ret_inj, Some_inj in H. subst d.
    split; [ | split; [exact R1 | apply (catch_up_full_range _ _ _ _ _ R7 C)]].
    match goal with |- (if ?n <? ?b then _ else _) = _ =>
      destruct (Z.ltb_spec n b); [lia | ] end.
    rewrite (catch_up_full_sim _ _ _ _ _ F C). reflexivity.
Qed.

(** Where the first model returns, the resolver on Date objects returns a
    Date. *)
Lemma weekly_full_total fuel a interval weekday now q v r :
  constant_offset zone ->
  Number (nullish interval (VNum (Fin 1))) = Ret (Fin q) ->
  Number weekday = Ret (Fin v) ->
  (1 <= q)%Q -> (0 <= v)%Q -> (v <= 6)%Q ->
  nextWeeklyOccurrence fuel (Some a) interval weekday now = Ret (Some r) ->
  exists d,
    nextWeeklyOccurrence_full zone fuel (Some (Valid a)) interval weekday (Valid now)
    = Ret (Some d).
Proof.
  intros F Hi Hw Hq Hv0 Hv6 H.
  pose proof (weekly_full_shape fuel a _ _ now q v F Hi Hw Hq Hv0 Hv6) as S.
  pose proof (weekly_shape fuel a _ _ now q v Hi Hw Hq Hv0 Hv6) as O.
  cbv zeta in S, O. rewrite O in H. clear O.
  destruct S as [S | (R1 & R4 & [(L & S) | (L & _ & _ & _ & S)])]; rewrite S; clear S.
  - eexists. reflexivity.
  - eexists. reflexivity.
  - revert H.
    match goal with |- (if ?n <? ?b then _ else _) = _ -> _ =>
      destruct (Z.ltb_spec n b); [lia | ] end.
    match goal with |- bind ?m _ = _ -> _ =>
      destruct m as [c | | ] eqn:C; cbn [bind]; try discriminate end.
    intros _. destruct (catch_up_full_total _ _ _ _ _ F C) as (d & D).
    rewrite D. cbn [bind]. eexists. reflexivity.
Qed.

(** *** The weekly resolver on any host *)

(** Whatever the host and the descriptor, a Date that the weekly resolver
    returns is an Invalid Date or a date after [now]. *)
Lemma weekly_full_after fuel a interval weekday now d :
  nextWeeklyOccurrence_full zone fuel (Some a) interval weekday (Valid now)
  = Ret (Some d) ->
  d = Invalid \/ exists r, d = Valid r /\ now < r.
Proof.
  unfold nextWeeklyOccurrence_full.
  destruct (Number (nullish interval (VNum (Fin 1)))) as [intv | | ];
    cbn [bind]; [ | discriminate | discriminate].
  destruct (Number weekday) as [wd | | ]; cbn [bind]; [ | discriminate | discriminate].
  match goal with |- (if ?g then _ else _) = _ -> _ => destruct g end;
    [discriminate | ].
  cbv zeta.
  match goal with
  | |- (if num_lt _ (Date_getTime ?b) then _ else bind (catch_up_full _ _ _ _ ?c) _) = _ -> _ =>
      generalize c; generalize b
  end.
  intros b c. destruct b as [b | ]; cbn [Date_getTime].
  - rewrite num_lt_int. destruct (Z.ltb_spec now b) as [L | L].
    + intros H. apply Ret_inj, Some_inj in H. subst d.
      right. exists b. split; [reflexivity | exact L].
    + destruct (catch_up_full zone fuel intv (Valid now) c) as [x | | ] eqn:C;
        cbn [bind]; [ | discriminate | discriminate].
      intros H. apply Ret_inj, Some_inj in H. subst d.
      apply (catch_up_full_after _ _ _ _ _ C).
  - cbn [num_lt].
    destruct (catch_up_full zone fuel intv (Valid now) c) as [x | | ] eqn:C;
      cbn [bind]; [ | discriminate | discriminate].
    intros H. apply Ret_inj, Some_inj in H. subst d.
    apply (catch_up_full_after _ _ _ _ _ C).
Qed.

(** On a host whose offset is never more than a day, a step of an interval
    [q >= 1] ends in an Invalid Date or advances the candidate by five days
    at least. *)
Lemma addWeeks_full_advances c q :
  bounded_offset zone -> (1 <= q)%Q ->
  addWeeks_full zone (Valid c) (Fin q) = Invalid \/
  exists c', addWeeks_full zone (Valid c) (Fin q) = Valid c' /\ c + 5 * msPerDay <= c'.
Proof.
  intros B Hq.
  unfold addWeeks_full, addDays_full, Date_getDate, local_field.
  cbn [num_mul num_add]. unfold Date_setDate. cbv zeta.
  set (tl := LocalTime_at zone c).
  set (n := Qtrunc (inject_Z (DateFromTime tl) + q * 7)).
  assert (Hn : DateFromTime tl + 7 <= n).
  { apply Qtrunc_step; [ | exact Hq]. pose proof (DateFromTime_range tl). lia. }
  assert (E : MakeDate (MakeDay (YearFromTime tl) (MonthFromTime tl) n) (TimeWithinDay tl)
              = tl + (n - DateFromTime tl) * msPerDay).
  { replace n with (DateFromTime tl + (n - DateFromTime tl)) at 1 by lia.
    rewrite MakeDay_add, MakeDay_civil.
    pose proof (MakeDate_Day tl) as D. unfold MakeDate in *. lia. }
  rewrite E. clear E.
  set (x := tl + (n - DateFromTime tl) * msPerDay).
  destruct (TimeClip_cases (UTC_at zone x)) as [(_ & V) | V]; [right | left; exact V].
  exists (UTC_at zone x). split; [exact V | ].
  pose proof (B c true) as B1. pose proof (B x false) as B2.
  unfold UTC_at, x, tl, LocalTime_at, msPerDay in *. lia.
Qed.

Lemma catch_up_full_terminates q now fuel c :
  bounded_offset zone -> (1 <= q)%Q ->
  now - c < Z.of_nat fuel * (5 * msPerDay) ->
  exists d, catch_up_full zone fuel (Fin q) (Valid now) (Valid c) = Ret d.
Proof.
  intros B Hq. revert c. induction fuel as [ | fuel IH]; intros c H.
  - exists (Valid c). apply catch_up_full_done. lia.
  - destruct (Z.leb_spec c now) as [L | L].
    + rewrite catch_up_full_step by exact L.
      destruct (addWeeks_full_advances c q B Hq) as [E | (c' & E & A)]; rewrite E.
      * exists Invalid. apply catch_up_full_invalid.
      * apply IH. lia.
    + exists (Valid c). apply catch_up_full_done. exact L.
Qed.

(** On such a host the weekly resolver returns a Date for every interval and
    weekday that pass its guard, integers or not, given loop budget
    enough. *)
Lemma weekly_full_terminates a interval weekday q v now :
  bounded_offset zone ->
  Number (nullish interval (VNum (Fin 1))) = Ret (Fin q) ->
  Number weekday = Ret (Fin v) ->
  (1 <= q)%Q -> (0 <= v)%Q -> (v <= 6)%Q ->
  exists fuel d,
    nextWeeklyOccurrence_full zone fuel (Some a) interval weekday (Valid now)
    = Ret (Some d).
Proof.
  intros B Hi Hw Hq Hv0 Hv6.
  unfold nextWeeklyOccurrence_full. rewrite Hi, Hw. cbn [bind Number_isFinite negb orb].
  rewrite (num_lt_false q 1 Hq), (num_lt_false v 0 Hv0), (num_lt_false 6 v Hv6).
  cbn [orb]. cbv zeta.
  match goal with
  | |- exists fuel d, (if ?t then _ else bind (catch_up_full _ fuel _ _ ?c) _) = _ =>
      destruct t; [exists 0%nat; eexists; reflexivity | ]; generalize c
  end.
  intros [c | ].
  - exists (Z.to_nat ((now - c) / (5 * msPerDay) + 1)).
    destruct (catch_up_full_terminates q now
                (Z.to_nat ((now - c) / (5 * msPerDay) + 1)) c B Hq) as (d & D).
    { unfold msPerDay. Z.div_mod_to_equations. lia. }
    exists d. rewrite D. reflexivity.
  - exists 0%nat, Invalid. reflexivity.
Qed.

(** *** The monthly resolver on any host *)

Lemma accepted_valid a now occ :
  accepted (Valid a) (Valid now) occ <-> exists r, occ = Valid r /\ a <= r /\ now < r.
Proof.
  unfold accepted. destruct occ as [r | ]; cbn [Date_getTime].
  - rewrite !num_lt_int. split.
    + intros (H1 & H2). exists r.
      destruct (Z.ltb_spec r a); [discriminate | ].
      destruct (Z.ltb_spec now r); [ | discriminate].
      split; [reflexivity | lia].
    + intros (r' & E & H1 & H2). injection E as <-.
      destruct (Z.ltb_spec r a); [lia | ].
      destruct (Z.ltb_spec now r); [ | lia].
      split; reflexivity.
  - split.
    + intros (_ & H). discriminate H.
    + intros (r & E & _). discriminate E.
Qed.

Lemma monthly_scan_full_eq n a wd wom now cursor :
  monthly_scan_full zone (S n) a wd wom now cursor
  = if negb (num_lt (Date_getTime (occurrence_full zone a wd wom cursor))
                    (Date_getTime a))
       && num_lt (Date_getTime now)
                 (Date_getTime (occurrence_full zone a wd wom cursor))
    then Some (occurrence_full zone a wd wom cursor)
    else monthly_scan_full zone n a wd wom now (addMonths_full zone cursor (Fin 1)).
Proof.
  cbn [monthly_scan_full]. fold (occurrence_full zone a wd wom cursor).
  generalize (occurrence_full zone a wd wom cursor). intros o.
  generalize (monthly_scan_full zone n a wd wom now (addMonths_full zone cursor (Fin 1))).
  intros rest.
  destruct (num_lt (Date_getTime o) (Date_getTime a)); cbn [negb andb]; reflexivity.
Qed.

Lemma accepted_test a now occ :
  negb (num_lt (Date_getTime occ) (Date_getTime a))
  && num_lt (Date_getTime now) (Date_getTime occ) = true
  <-> accepted a now occ.
Proof.
  unfold accepted. rewrite andb_true_iff, negb_true_iff. reflexivity.
Qed.

(** The loop returns the first accepted occurrence of its [n] cursors. *)
Lemma monthly_scan_full_some n a wd wom now cursor d :
  monthly_scan_full zone n a wd wom now cursor = Some d ->
  exists j, (j < n)%nat /\
    d = occurrence_full zone a wd wom
          (Nat.iter j (fun c => addMonths_full zone c (Fin 1)) cursor) /\
    accepted a now d /\
    forall j', (j' < j)%nat ->
      ~ accepted a now
          (occurrence_full zone a wd wom
             (Nat.iter j' (fun c => addMonths_full zone c (Fin 1)) cursor)).
Proof.
  revert cursor. induction n as [ | n IH]; intros cursor H; [discriminate | ].
  rewrite monthly_scan_full_eq in H.
  match type of H with (if ?t then _ else _) = _ => destruct t eqn:T end.
  - apply Some_inj in H. subst d. apply accepted_test in T.
    exists 0%nat. split; [lia | split; [reflexivity | split; [exact T | ]]].
    intros j' Hj'. lia.
  - destruct (IH _ H) as (j & Hj & Hr & Hacc & Hfirst).
    exists (S j). rewrite Nat.iter_succ_r.
    split; [lia | split; [exact Hr | split; [exact Hacc | ]]].
    intros [ | j'] Hj'.
    + cbn [Nat.iter nat_rect]. intros A. apply accepted_test in A.
      rewrite A in T. discriminate T.
    + rewrite Nat.iter_succ_r. apply Hfirst. lia.
Qed.

Lemma monthly_scan_full_none n a wd wom now cursor :
  monthly_scan_full zone n a wd wom now cursor = None <->
  forall j, (j < n)%nat ->
    ~ accepted a now
        (occurrence_full zone a wd wom
           (Nat.iter j (fun c => addMonths_full zone c (Fin 1)) cursor)).
Proof.
  revert cursor. induction n as [ | n IH]; intros cursor.
  - cbn [monthly_scan_full]. split; [intros _ j Hj; lia | reflexivity].
  - rewrite monthly_scan_full_eq.
    match goal with |- (if ?t then _ else _) = _ <-> _ => destruct t eqn:T end.
    + split; [discriminate | ]. intros H. exfalso.
      apply (H 0%nat); [lia | ]. cbn [Nat.iter nat_rect].
      apply accepted_test. exact T.
    + rewrite IH. split; intros H j Hj.
      * destruct j as [ | j].
        -- cbn [Nat.iter nat_rect]. intros A. apply accepted_test in A.
           rewrite A in T. discriminate T.
        -- rewrite Nat.iter_succ_r. apply H. lia.
      * specialize (H (S j) ltac:(lia)). rewrite Nat.iter_succ_r in H. exact H.
Qed.

Lemma valid_monthly_guard weekday weekOfMonth w n :
  valid_monthly weekday weekOfMonth w n ->
  (0 <= inject_Z w)%Q /\ (inject_Z w <= 6)%Q /\
  (1 <= inject_Z n)%Q /\ (inject_Z n <= 5)%Q.
Proof.
  intros (_ & Hw & _ & Hn).
  change 1%Q with (inject_Z 1). change 0%Q with (inject_Z 0).
  change 6%Q with (inject_Z 6). change 5%Q with (inject_Z 5).
  rewrite <- !Zle_Qle. lia.
Qed.

(** The monthly resolver past its guard. *)
Lemma nextMonthlyOccurrence_full_shape a weekday weekOfMonth now v m :
  Number weekday = Ret (Fin v) -> Number weekOfMonth = Ret (Fin m) ->
  (0 <= v)%Q -> (v <= 6)%Q -> (1 <= m)%Q -> (m <= 5)%Q ->
  nextMonthlyOccurrence_full zone (Some a) weekday weekOfMonth now
  = Ret (monthly_scan_full zone 24 a (Fin v) (Fin m) now (cursor_full zone now 0)).
Proof.
  intros Hw Hn Hv0 Hv6 Hm1 Hm5.
  unfold nextMonthlyOccurrence_full. rewrite Hw, Hn. cbn [bind Number_isFinite negb orb].
  rewrite (num_lt_false v 0 Hv0), (num_lt_false 6 v Hv6),
    (num_lt_false m 1 Hm1), (num_lt_false 5 m Hm5).
  reflexivity.
Qed.

Lemma monthly_full_guard a weekday weekOfMonth now d :
  nextMonthlyOccurrence_full zone (Some a) weekday weekOfMonth now = Ret (Some d) ->
  exists v m,
    Number weekday = Ret (Fin v) /\ Number weekOfMonth = Ret (Fin m) /\
    (0 <= v)%Q /\ (v <= 6)%Q /\ (1 <= m)%Q /\ (m <= 5)%Q.
Proof.
  unfold nextMonthlyOccurrence_full.
  destruct (Number weekday) as [wd | | ]; cbn [bind]; [ | discriminate | discriminate].
  destruct (Number weekOfMonth) as [wom | | ]; cbn [bind];
    [ | discriminate | discriminate].
  match goal with |- (if ?g then _ else _) = _ -> _ => destruct g eqn:G end;
    [discriminate | ].
  intros _.
  destruct wd as [ | ? | v]; [discriminate G | discriminate G | ].
  destruct wom as [ | ? | m]; cbn [Number_isFinite negb orb] in G;
    [rewrite orb_true_r in G; discriminate G
    | rewrite orb_true_r in G; discriminate G | ].
  apply orb_false_elim in G. destruct G as (G & G5).
  apply orb_false_elim in G. destruct G as (G & G1).
  rewrite orb_false_r in G.
  apply orb_false_elim in G. destruct G as (G0 & G6).
  apply num_lt_false_inv in G0, G6, G1, G5.
  exists v, m. auto 7.
Qed.

(** *** The monthly resolver on a host whose offset never changes *)

Lemma Date_getFullYear_fixed t :
  constant_offset zone ->
  Date_getFullYear zone (Valid t) = Fin (inject_Z (getFullYear t)).
Proof. intros F. apply local_field_fixed. exact F. Qed.

Lemma Date_getMonth_fixed t :
  constant_offset zone -> Date_getMonth zone (Valid t) = Fin (inject_Z (getMonth t)).
Proof. intros F. apply local_field_fixed. exact F. Qed.

Lemma Date_getDate_fixed t :
  constant_offset zone -> Date_getDate zone (Valid t) = Fin (inject_Z (getDate t)).
Proof. intros F. apply local_field_fixed. exact F. Qed.

(** A valid occurrence computed from a cursor is the occurrence of the
    first model. *)
Lemma occurrence_full_fixed a v m c r :
  constant_offset zone ->
  occurrence_full zone (Valid a) (Fin v) (Fin m) (Valid c) = Valid r ->
  r = occurrence_of a v m c.
Proof.
  intros F. unfold occurrence_full, nthWeekdayOfMonth_full, occurrence_of,
    nthWeekdayOfMonth.
  rewrite Date_getFullYear_fixed, Date_getMonth_fixed by exact F. cbv zeta.
  rewrite (Date_ymd_fixed (getFullYear c) (getMonth c) 1 F).
  destruct (TimeClip_cases (Date_ymd (getFullYear c) (getMonth c) 1))
    as [(_ & E) | E]; rewrite E.
  2: { intros H. discriminate H. }
  rewrite Date_getDay_fixed by exact F.
  cbn [num_sub num_add]. change (num_rem (Fin ?x) (Fin 7)) with (Fin (js_rem x 7)).
  cbn [num_add num_sub num_mul].
  rewrite Date_ymd_fixed by exact F.
  match goal with |- context [TimeClip ?x] => destruct (TimeClip_cases x)
    as [(_ & E') | E']; rewrite E' end.
  2: { intros H. discriminate H. }
  rewrite setTimeFromAnchor_fixed by exact F.
  intros H. apply TimeClip_inv in H. destruct H as (-> & _). reflexivity.
Qed.

Lemma occurrence_full_invalid a wd wom : occurrence_full zone a wd wom Invalid = Invalid.
Proof. reflexivity. Qed.

Lemma occurrence_full_clock a wd wom cursor r :
  constant_offset zone ->
  occurrence_full zone (Valid a) wd wom cursor = Valid r ->
  same_clock zone (Valid r) (Valid a).
Proof.
  intros F. unfold occurrence_full.
  generalize (nthWeekdayOfMonth_full zone (Date_getFullYear zone cursor)
                (Date_getMonth zone cursor) wd wom).
  intros [x | ]; [ | discriminate].
  rewrite setTimeFromAnchor_fixed by exact F.
  intros H. apply TimeClip_inv in H. destruct H as (-> & _).
  apply same_clock_fixed; [exact F | apply setTimeFromAnchor_time].
Qed.

(** The month after a first day of a month. *)
Lemma addMonths_full_month_start k :
  constant_offset zone ->
  addMonths_full zone (Valid (month_start k)) (Fin 1) = TimeClip (month_start (k + 1)).
Proof.
  intros F. unfold addMonths_full. cbv zeta.
  rewrite Date_getDate_fixed, Date_getMonth_fixed by exact F.
  cbn [num_add]. rewrite Date_setMonth_fixed by exact F.
  change 1%Q with (inject_Z 1). rewrite Qtrunc_add_int.
  destruct (month_start_civil k) as (_ & M & D).
  destruct (month_start_civil (k + 1)) as (_ & _ & D').
  rewrite setMonth_month_start, M, D.
  replace (12 * (k / 12) + (k mod 12 + 1)) with (k + 1)
    by (Z.div_mod_to_equations; lia).
  destruct (TimeClip_cases (month_start (k + 1))) as [(_ & E) | E]; rewrite E.
  - rewrite Date_getDate_fixed by exact F. rewrite D', num_eq_int. reflexivity.
  - reflexivity.
Qed.

Lemma cursor_full_succ now j :
  cursor_full zone now (S j) = addMonths_full zone (cursor_full zone now j) (Fin 1).
Proof. unfold cursor_full. apply Nat.iter_succ. Qed.

Lemma cursor_full_iter now j :
  Nat.iter j (fun c => addMonths_full zone c (Fin 1)) (cursor_full zone now 0)
  = cursor_full zone now j.
Proof. unfold cursor_full. cbn [Nat.iter nat_rect]. reflexivity. Qed.

Lemma cursor_full_first now :
  constant_offset zone -> plain_years now ->
  cursor_full zone (Valid now) 0 = TimeClip (month_start (month_index now)).
Proof.
  intros F Hy. unfold cursor_full. cbn [Nat.iter nat_rect].
  rewrite Date_getFullYear_fixed, Date_getMonth_fixed by exact F.
  rewrite (Date_ymd_fixed (getFullYear now) (getMonth now) 1 F).
  rewrite Date_ymd_first, full_year_id by (unfold plain_years in Hy; lia).
  reflexivity.
Qed.

(** The cursors are the first days of the months from the month of [now]
    on, until one of them leaves the range of the time value. *)
Lemma cursor_full_fixed now j :
  constant_offset zone -> plain_years now ->
  cursor_full zone (Valid now) j = Invalid \/
  cursor_full zone (Valid now) j = Valid (month_start (month_index now + Z.of_nat j)).
Proof.
  intros F Hy. induction j as [ | j IH].
  - rewrite cursor_full_first by assumption.
    replace (month_index now + Z.of_nat 0) with (month_index now) by lia.
    destruct (TimeClip_cases (month_start (month_index now)))
      as [(_ & E) | E]; rewrite E; auto.
  - rewrite cursor_full_succ. destruct IH as [-> | ->].
    + left. reflexivity.
    + rewrite addMonths_full_month_start by exact F.
      replace (month_index now + Z.of_nat j + 1)
        with (month_index now + Z.of_nat (S j)) by lia.
      destruct (TimeClip_cases (month_start (month_index now + Z.of_nat (S j))))
        as [(_ & E) | E]; rewrite E; auto.
Qed.

(** A valid cursor follows valid cursors only. *)
Lemma cursor_full_before now j j' c :
  cursor_full zone now j = Valid c -> (j' <= j)%nat ->
  exists c', cursor_full zone now j' = Valid c'.
Proof.
  revert c. induction j as [ | j IH]; intros c H L.
  - replace j' with 0%nat by lia. exists c. exact H.
  - destruct (Nat.eq_dec j' (S j)) as [-> | N]; [exists c; exact H | ].
    rewrite cursor_full_succ in H.
    destruct (cursor_full zone now j) as [x | ]; [ | discriminate H].
    apply (IH x eq_refl). lia.
Qed.

(** What the monthly resolver returns past its guard, on any host: the
    first accepted occurrence of its 24 cursors, a valid date. *)
Lemma monthly_full_returned a weekday weekOfMonth v m now d :
  Number weekday = Ret (Fin v) -> Number weekOfMonth = Ret (Fin m) ->
  (0 <= v)%Q -> (v <= 6)%Q -> (1 <= m)%Q -> (m <= 5)%Q ->
  nextMonthlyOccurrence_full zone (Some (Valid a)) weekday weekOfMonth (Valid now)
  = Ret (Some d) ->
  exists j r, (j < 24)%nat /\ d = Valid r /\
    occurrence_full zone (Valid a) (Fin v) (Fin m) (cursor_full zone (Valid now) j)
    = Valid r /\
    a <= r /\ now < r /\
    forall j', (j' < j)%nat ->
      ~ accepted (Valid a) (Valid now)
          (occurrence_full zone (Valid a) (Fin v) (Fin m)
             (cursor_full zone (Valid now) j')).
Proof.
  intros Hw Hn Hv0 Hv6 Hm1 Hm5 H.
  rewrite (nextMonthlyOccurrence_full_shape _ _ _ _ v m Hw Hn Hv0 Hv6 Hm1 Hm5) in H.
  apply Ret_inj in H.
  destruct (monthly_scan_full_some _ _ _ _ _ _ _ H) as (j & Hj & E & A & First).
  rewrite cursor_full_iter in E.
  apply accepted_valid in A. destruct A as (r & -> & A1 & A2).
  exists j, r. split; [exact Hj | split; [reflexivity | ]].
  split; [symmetry; exact E | split; [exact A1 | split; [exact A2 | ]]].
  intros j' Hj'. specialize (First j' Hj'). rewrite cursor_full_iter in First.
  exact First.
Qed.

Lemma startOfDay_bounds d : d - msPerDay < startOfDay d <= d.
Proof.
  rewrite startOfDay_eq. pose proof (TimeWithinDay_range (LocalTime d)). lia.
Qed.

Lemma startOfDay_mono a b : a <= b -> startOfDay a <= startOfDay b.
Proof.
  intros H. pose proof (startOfDay_local a) as Ea. pose proof (startOfDay_local b) as Eb.
  assert (D : Day (LocalTime a) <= Day (LocalTime b)).
  { unfold Day, LocalTime, msPerDay. apply Z.div_le_mono; lia. }
  unfold MakeDate, LocalTime, msPerDay in *. lia.
Qed.

Lemma cursor_full_in_range now j :
  constant_offset zone -> plain_years now ->
  (forall j', (j' <= j)%nat ->
     Z.abs (month_start (month_index now + Z.of_nat j')) <= maxTime) ->
  cursor_full zone (Valid now) j = Valid (month_start (month_index now + Z.of_nat j)).
Proof.
  intros F Hy. induction j as [ | j IH]; intros R.
  - rewrite cursor_full_first by assumption.
    replace (month_index now + Z.of_nat 0) with (month_index now) by lia.
    apply TimeClip_valid. specialize (R 0%nat ltac:(lia)).
    replace (month_index now + Z.of_nat 0) with (month_index now) in R by lia.
    exact R.
  - rewrite cursor_full_succ, IH by (intros j' Hj'; apply R; lia).
    rewrite addMonths_full_month_start by exact F.
    replace (month_index now + Z.of_nat j + 1)
      with (month_index now + Z.of_nat (S j)) by lia.
    apply TimeClip_valid. apply R. lia.
Qed.

Lemma plain_index now j :
  plain_years now -> (j < 24)%nat ->
  month_index now + Z.of_nat j < 0 \/ 1200 <= month_index now + Z.of_nat j.
Proof.
  intros Hy Hj. pose proof (getMonth_range now) as M.
  unfold plain_years, month_index in *. lia.
Qed.

(** What the monthly resolver returns on a valid descriptor, on a host
    whose offset never changes and for a reference instant whose scan keeps
    clear of the years 0 to 99. *)
Lemma monthly_full_returned_plain a weekday weekOfMonth w n now r :
  constant_offset zone -> valid_monthly weekday weekOfMonth w n -> plain_years now ->
  nextMonthlyOccurrence_full zone (Some (Valid a)) weekday weekOfMonth (Valid now)
  = Ret (Some (Valid r)) ->
  exists j, (j < 24)%nat /\
    r = month_occurrence a w n (month_index now + Z.of_nat j) /\
    acceptable a now r /\
    cursor_full zone (Valid now) j = Valid (month_start (month_index now + Z.of_nat j)) /\
    occurrence_full zone (Valid a) (Fin (inject_Z w)) (Fin (inject_Z n))
      (cursor_full zone (Valid now) j) = Valid r /\
    forall j', (j' < j)%nat ->
      ~ accepted (Valid a) (Valid now)
          (occurrence_full zone (Valid a) (Fin (inject_Z w)) (Fin (inject_Z n))
             (cursor_full zone (Valid now) j')).
Proof.
  intros F V Hy H.
  destruct (valid_monthly_guard _ _ _ _ V) as (Hv0 & Hv6 & Hm1 & Hm5).
  pose proof V as (Hw & Hw06 & Hn & _).
  destruct (monthly_full_returned _ _ _ _ _ _ _ Hw Hn Hv0 Hv6 Hm1 Hm5 H)
    as (j & x & Hj & E & O & A1 & A2 & First).
  injection E as <-.
  exists j. split; [exact Hj | ].
  destruct (cursor_full_fixed now j F Hy) as [C | C].
  { rewrite C, occurrence_full_invalid in O. discriminate O. }
  pose proof O as O'. rewrite C in O'.
  apply (occurrence_full_fixed _ _ _ _ _ F) in O'.
  rewrite occurrence_of_month, month_index_plain in O'
    by (try exact Hw06; apply plain_index; assumption).
  split; [exact O' | ].
  split; [split; assumption | ].
  split; [exact C | split; [exact O | exact First]].
Qed.

(** ** The claims on Date objects *)



(** C5, as amended.  On a host whose offset from UTC never changes, after
    the jump from [base] by [floor(weeksBetween(base, now) / intervalWeeks)]
    interval blocks the catch-up loop ends within one execution of its
    body, with a date strictly after [now] or with an Invalid Date, and the
    weekly resolver returns with that budget.  On a host whose offset is
    never more than a day the loop and the resolver end for every interval
    and weekday that pass the guard, after a number of steps that the
    distance from the candidate to [now] bounds. *)
Theorem catch_up_one_step_on_fixed_offset a interval weekday now :
  (constant_offset zone ->
   forall i w, valid_weekly interval weekday i w ->
     let base := Valid (weekly_base a w) in
     let blocks :=
       num_floor (num_div (weeksBetween_full zone base (Valid now))
                          (Fin (inject_Z i))) in
     let candidate := addWeeks_full zone base (num_mul blocks (Fin (inject_Z i))) in
     (weekly_base a w <= now ->
      exists d,
        catch_up_full zone 1 (Fin (inject_Z i)) (Valid now) candidate = Ret d /\
        (d = Invalid \/ exists r, d = Valid r /\ now < r)) /\
     exists d,
       nextWeeklyOccurrence_full zone 1 (Some (Valid a)) interval weekday (Valid now)
       = Ret (Some d)) /\
  (bounded_offset zone ->
   forall q v,
     Number (nullish interval (VNum (Fin 1))) = Ret (Fin q) ->
     Number weekday = Ret (Fin v) ->
     (1 <= q)%Q -> (0 <= v)%Q -> (v <= 6)%Q ->
     exists fuel d,
       nextWeeklyOccurrence_full zone fuel (Some (Valid a)) interval weekday (Valid now)
       = Ret (Some d)).
Proof.
  split.
  - intros F i w V. cbv zeta. split.
    + intros L.
      assert (K : forall c d,
                 catch_up_full zone 1 (Fin (inject_Z i)) (Valid now) c = Ret d ->
                 exists d',
                   catch_up_full zone 1 (Fin (inject_Z i)) (Valid now) c = Ret d' /\
                   (d' = Invalid \/ exists r, d' = Valid r /\ now < r)).
      { intros c d C. exists d. split; [exact C | ].
        apply (catch_up_full_after _ _ _ _ _ C). }
      destruct V as (_ & Hi & _ & Hw).
      assert (Hq : (1 <= inject_Z i)%Q).
      { change 1%Q with (inject_Z 1). rewrite <- Zle_Qle. exact Hi. }
      destruct (weeksBetween_fixed (weekly_base a w) now F) as [(_ & _ & W) | W];
        rewrite W.
      * rewrite num_div_Fin by exact Hq. cbn [num_floor num_mul].
        rewrite Qfloor_div_int by lia.
        change (inject_Z (weeksBetween (weekly_base a w) now / i) * inject_Z i)%Q
          with (inject_Z (weeksBetween (weekly_base a w) now / i * i)).
        rewrite addWeeks_fixed, addWeeks_interval by exact F.
        destruct (jump_bounds (weekly_base a w) i now Hi L) as (_ & _ & _ & J).
        set (c := weekly_base a w
                  + weeksBetween (weekly_base a w) now / i * i * msPerWeek) in *.
        destruct (TimeClip_cases c) as [(_ & E) | E]; rewrite E.
        -- destruct (Z.leb_spec c now) as [Le | Gt].
           ++ destruct (TimeClip_cases (c + i * msPerWeek)) as [(_ & E') | E'].
              ** apply (K _ (Valid (c + i * msPerWeek))).
                 rewrite catch_up_full_step, addWeeks_fixed, addWeeks_interval, E'
                   by assumption.
                 apply catch_up_full_done. exact J.
              ** apply (K _ Invalid).
                 rewrite catch_up_full_step, addWeeks_fixed, addWeeks_interval, E'
                   by assumption.
                 apply catch_up_full_invalid.
           ++ apply (K _ (Valid c)). apply catch_up_full_done. exact Gt.
        -- apply (K _ Invalid). apply catch_up_full_invalid.
      * cbn [num_div num_floor num_mul]. rewrite addWeeks_full_NaN.
        apply (K _ Invalid). apply catch_up_full_invalid.
    + destruct (weekly_result 1 a _ _ i w now V ltac:(lia)) as (r & O).
      destruct (valid_weekly_guard _ _ _ _ V) as (Hq & Hv0 & Hv6).
      destruct V as (Hi & _ & Hw & _).
      apply (weekly_full_total 1 a _ _ now _ _ r F Hi Hw Hq Hv0 Hv6 O).
  - intros B q v Hi Hw Hq Hv0 Hv6.
    apply (weekly_full_terminates _ _ _ q v now B Hi Hw Hq Hv0 Hv6).
Qed.

(** C6.  Whatever the host, the monthly resolver on a valid descriptor
    completes without throwing after the at most 24 iterations of its loop:
    it returns the first of the 24 occurrences computed from its cursors
    that passes the two tests, and none when none of them does.  On a host
    whose offset from UTC never changes, for a reference instant whose
    calendar year is not from -2 to 99 and whose scan stays within the
    range of the time value, the cursors are the first days of the 24
    consecutive months that start with the month containing [now]. *)
Theorem monthly_scan_horizon a weekday weekOfMonth w n now :
  valid_monthly weekday weekOfMonth w n ->
  let occ j :=
    occurrence_full zone (Valid a) (Fin (inject_Z w)) (Fin (inject_Z n))
                    (cursor_full zone (Valid now) j) in
  (exists o,
     nextMonthlyOccurrence_full zone (Some (Valid a)) weekday weekOfMonth (Valid now)
     = Ret o) /\
  (forall d,
     nextMonthlyOccurrence_full zone (Some (Valid a)) weekday weekOfMonth (Valid now)
     = Ret (Some d) ->
     exists j, (j < 24)%nat /\ d = occ j /\ accepted (Valid a) (Valid now) d /\
       forall j', (j' < j)%nat -> ~ accepted (Valid a) (Valid now) (occ j')) /\
  ((forall j, (j < 24)%nat -> ~ accepted (Valid a) (Valid now) (occ j)) ->
   nextMonthlyOccurrence_full zone (Some (Valid a)) weekday weekOfMonth (Valid now)
   = Ret None) /\
  (constant_offset zone -> plain_years now -> scan_in_range now ->
   let k := month_index now in
   month_start k <= now < month_start (k + 1) /\
   forall j, (j < 24)%nat ->
     cursor_full zone (Valid now) j = Valid (month_start (k + Z.of_nat j))).
Proof.
  intros V. cbv zeta.
  destruct (valid_monthly_guard _ _ _ _ V) as (Hv0 & Hv6 & Hm1 & Hm5).
  destruct V as (Hw & _ & Hn & _).
  pose proof (nextMonthlyOccurrence_full_shape (Valid a) _ _ (Valid now) _ _
                Hw Hn Hv0 Hv6 Hm1 Hm5) as S.
  split; [rewrite S; eexists; reflexivity | ].
  split; [ | split].
  - intros d H. rewrite S in H. apply Ret_inj in H.
    destruct (monthly_scan_full_some _ _ _ _ _ _ _ H) as (j & Hj & E & A & First).
    rewrite cursor_full_iter in E.
    exists j. split; [exact Hj | split; [exact E | split; [exact A | ]]].
    intros j' Hj'. specialize (First j' Hj'). rewrite cursor_full_iter in First.
    exact First.
  - intros H. rewrite S.
    assert (N : monthly_scan_full zone 24 (Valid a) (Fin (inject_Z w))
                  (Fin (inject_Z n)) (Valid now) (cursor_full zone (Valid now) 0)
                = None).
    { apply monthly_scan_full_none. intros j Hj. rewrite cursor_full_iter.
      apply H. exact Hj. }
    rewrite N. reflexivity.
  - intros F Hy (R1 & R2). split; [apply month_index_bounds | ].
    intros j Hj. apply cursor_full_in_range; [exact F | exact Hy | ].
    intros j' Hj'.
    pose proof (month_start_le (month_index now) (month_index now + Z.of_nat j')
                  ltac:(lia)).
    pose proof (month_start_le (month_index now + Z.of_nat j') (month_index now + 24)
                  ltac:(lia)).
    unfold maxTime in *. lia.
Qed.


(** C8.  An event whose [dateStart] is an object with an own property named
    [toString] makes the dispatcher throw, whatever its cadence:
    [parseDate] runs before the discriminant is read, nothing in the source
    catches the [TypeError] of the conversion, and the event is not
    dropped as the others that fail to resolve are. *)
Theorem malformed_anchor_throws fuel now :
  nextOccurrenceForEvent_full zone fuel
    (VObject [("dateStart"%string, VObject [("toString"%string, VNum (Fin 1))]);
              ("cadence"%string, VObject [("type"%string, VStr "yearly")])])
    now
  = Throw.
Proof. reflexivity. Qed.

(** ** Further properties on Date objects *)

Lemma parseDate_full_valid v d :
  parseDate_full v = Ret (Some d) -> exists a, d = Valid a.
Proof.
  unfold parseDate_full. destruct (negb (ToBoolean v)); [discriminate | ].
  destruct (Date_of_value_full v) as [x | | ]; cbn [bind];
    [ | discriminate | discriminate].
  destruct x as [a | ]; cbn [isValidDate_full]; [ | discriminate].
  intros H. apply Ret_inj, Some_inj in H. subst d. exists a. reflexivity.
Qed.

(** The ways in which the dispatcher returns a Date. *)
Lemma dispatcher_full_returned fuel ev now d :
  nextOccurrenceForEvent_full zone fuel ev now = Ret (Some d) ->
  exists a,
    parseDate_full (member ev "dateStart") = Ret (Some (Valid a)) /\
    ((exists interval weekday,
         nextWeeklyOccurrence_full zone fuel (Some (Valid a)) interval weekday now
         = Ret (Some d)) \/
     (exists weekday weekOfMonth,
         nextMonthlyOccurrence_full zone (Some (Valid a)) weekday weekOfMonth now
         = Ret (Some d))).
Proof.
  unfold nextOccurrenceForEvent_full. rewrite GetOptional_member. cbn [bind].
  destruct (ToBoolean (member ev "cadence")) eqn:T; cbn [negb orb];
    [ | discriminate].
  destruct (negb (String.eqb (typeof (member ev "cadence")) "object"));
    [discriminate | ].
  rewrite (Get_member ev "dateStart") by (apply (truthy_member ev "cadence"), T).
  cbn [bind]. rewrite !(Get_member (member ev "cadence")) by exact T.
  destruct (parseDate_full (member ev "dateStart")) as [[x | ] | | ] eqn:P;
    cbn [bind]; try discriminate.
  destruct (parseDate_full_valid _ _ P) as (a & ->).
  intros H. exists a. split; [reflexivity | ].
  destruct (strict_eq_string (member (member ev "cadence") "type") "weekly").
  - left. eexists. eexists. exact H.
  - destruct (strict_eq_string (member (member ev "cadence") "type") "monthly");
      [ | discriminate].
    right. eexists. eexists. exact H.
Qed.

(** Whatever the host and the event, a Date that the dispatcher returns is
    an Invalid Date or a date strictly after [now]. *)
Lemma dispatcher_full_after fuel ev now d :
  nextOccurrenceForEvent_full zone fuel ev (Valid now) = Ret (Some d) ->
  after_or_invalid now d.
Proof.
  intros H.
  destruct (dispatcher_full_returned _ _ _ _ H)
    as (a & P & [(interval & weekday & W) | (weekday & weekOfMonth & M)]).
  - destruct (weekly_full_after _ _ _ _ _ _ W) as [-> | (r & -> & L)];
      [exact I | exact L].
  - destruct (monthly_full_guard _ _ _ _ _ M) as (v & m & Hw & Hn & G0 & G6 & G1 & G5).
    destruct (monthly_full_returned _ _ _ _ _ _ _ Hw Hn G0 G6 G1 G5 M)
      as (j & r & _ & -> & _ & _ & A2 & _).
    exact A2.
Qed.

(** X19: Whatever the event - a valid descriptor or not, whole numbers or
    not - and whatever the host, a Date that the dispatcher returns is an
    Invalid Date or a date strictly after [now], computed from the valid
    date that [parseDate] read from [dateStart]; on a host whose offset from
    UTC never changes a valid date returned is not before that anchor and
    shows the anchor's time of day. *)
Theorem dispatcher_date_bounds fuel ev now d :
  nextOccurrenceForEvent_full zone fuel ev (Valid now) = Ret (Some d) ->
  exists a,
    parseDate_full (member ev "dateStart") = Ret (Some (Valid a)) /\
    (d = Invalid \/
     exists r, d = Valid r /\ now < r /\
       (constant_offset zone -> a <= r /\ same_clock zone (Valid r) (Valid a))).
Proof.
  intros H.
  destruct (dispatcher_full_returned _ _ _ _ H)
    as (a & P & [(interval & weekday & W) | (weekday & weekOfMonth & M)]);
    exists a; (split; [exact P | ]).
  - destruct (weekly_full_after _ _ _ _ _ _ W) as [E | (r & -> & L)];
      [left; exact E | right].
    exists r. split; [reflexivity | split; [exact L | ]].
    intros F. destruct (weekly_full_sim _ _ _ _ _ _ F W) as (O & _).
    destruct (weekly_sound _ _ _ _ _ _ O) as (_ & e & He & ->).
    split; [unfold msPerDay; lia | ].
    apply same_clock_fixed; [exact F | apply same_time_add_days].
  - right.
    destruct (monthly_full_guard _ _ _ _ _ M) as (v & m & Hw & Hn & G0 & G6 & G1 & G5).
    destruct (monthly_full_returned _ _ _ _ _ _ _ Hw Hn G0 G6 G1 G5 M)
      as (j & r & _ & -> & O & A1 & A2 & _).
    exists r. split; [reflexivity | split; [exact A2 | ]].
    intros F. split; [exact A1 | apply (occurrence_full_clock _ _ _ _ _ F O)].
Qed.

Lemma isUpcomingOneOff_full_true e now :
  ToBoolean e = true -> isUpcomingOneOff_full e (Valid now) = Ret true ->
  exists start,
    parseDate_full (member e "dateStart") = Ret (Some (Valid start)) /\
    ((exists en,
        parseDate_full (member e "dateEnd") = Ret (Some (Valid en)) /\ now <= en) \/
     (parseDate_full (member e "dateEnd") = Ret None /\ now <= start)).
Proof.
  intros T. unfold isUpcomingOneOff_full. rewrite !(Get_member e) by exact T.
  cbn [bind].
  destruct (parseDate_full (member e "dateStart")) as [[x | ] | | ] eqn:P;
    cbn [bind]; try discriminate.
  destruct (parseDate_full_valid _ _ P) as (start & ->).
  destruct (parseDate_full (member e "dateEnd")) as [[y | ] | | ] eqn:Q;
    cbn [bind]; try discriminate.
  - destruct (parseDate_full_valid _ _ Q) as (en & ->).
    cbn [Date_getTime]. rewrite num_le_int. intros H. apply Ret_inj in H.
    apply Z.leb_le in H. exists start. split; [reflexivity | ].
    left. exists en. split; [reflexivity | exact H].
  - cbn [Date_getTime]. rewrite num_le_int. intros H. apply Ret_inj in H.
    apply Z.leb_le in H. exists start. split; [reflexivity | ].
    right. split; [reflexivity | exact H].
Qed.

Lemma main_loop_full_invariant fuel all now events :
  (forall e, In e events -> In e all) ->
  forall special0 regular0 special regular,
    Forall (special_entry_full all now) special0 ->
    Forall (regular_entry_full zone fuel all (Valid now)) regular0 ->
    main_loop_full zone fuel events (Valid now) special0 regular0
    = Ret (special, regular) ->
    Forall (special_entry_full all now) special /\
    Forall (regular_entry_full zone fuel all (Valid now)) regular.
Proof.
  induction events as [ | e rest IH]; intros Hin special0 regular0 special regular
    Hs Hr H.
  - cbn [main_loop_full] in H. apply Ret_inj in H. injection H as <- <-.
    split; assumption.
  - assert (Hrest : forall x, In x rest -> In x all)
      by (intros x Hx; apply Hin; right; exact Hx).
    assert (He : In e all) by (apply Hin; left; reflexivity).
    specialize (IH Hrest). cbn [main_loop_full] in H.
    destruct (ToBoolean e) eqn:T; cbn [negb orb] in H;
      [ | apply (IH _ _ _ _ Hs Hr H)].
    destruct (negb (String.eqb (typeof e) "object"));
      [apply (IH _ _ _ _ Hs Hr H) | ].
    destruct (isRecurring e) eqn:R.
    + destruct (nextOccurrenceForEvent_full zone fuel e (Valid now))
        as [[next | ] | | ] eqn:N; cbn [bind] in H; try discriminate H.
      * apply (IH _ _ _ _ Hs) in H; [exact H | ].
        apply Forall_app. split; [exact Hr | ].
        constructor; [ | constructor].
        unfold regular_entry_full. cbn [entry_kind entry_ev entry_when].
        repeat split; assumption.
      * apply (IH _ _ _ _ Hs Hr H).
    + destruct (isUpcomingOneOff_full e (Valid now)) as [[ | ] | | ] eqn:U;
        cbn [bind] in H; try discriminate H.
      * destruct (isUpcomingOneOff_full_true e now T U) as (start & P & C).
        rewrite (Get_member e) in H by exact T. cbn [bind] in H.
        rewrite P in H. cbn [bind] in H.
        apply (fun S => IH _ _ _ _ S Hr) in H; [exact H | ].
        apply Forall_app. split; [exact Hs | ].
        constructor; [ | constructor].
        unfold special_entry_full. cbn [entry_kind entry_ev entry_when].
        split; [reflexivity | ]. split; [exact He | ].
        split; [exact R | ]. exists start.
        split; [reflexivity | split; [exact P | exact C]].
      * apply (IH _ _ _ _ Hs Hr H).
Qed.

(** X24: What the loop of [main] lists, on any host.  Every entry of
    [regular] comes from an event of the input marked [recurring: true] and
    carries the Date the dispatcher returned for it, which is strictly
    after [now] or is an Invalid Date ([if (next)] holds of every Date
    object); every entry of [special] comes from an event not so marked and
    carries the valid date parsed from its [dateStart], and its [dateEnd] -
    its [dateStart] when [dateEnd] gives no date - is not before [now]. *)
Theorem main_loop_full_lists fuel events now special regular :
  main_loop_full zone fuel events (Valid now) [] [] = Ret (special, regular) ->
  Forall (fun it => regular_entry_full zone fuel events (Valid now) it /\
                    after_or_invalid now (entry_when it)) regular /\
  Forall (special_entry_full events now) special.
Proof.
  intros H.
  destruct (main_loop_full_invariant fuel events now events (fun e He => He)
              [] [] special regular (Forall_nil _) (Forall_nil _) H) as (Hs & Hr).
  split; [ | exact Hs].
  apply Forall_forall. intros it Hit.
  pose proof (proj1 (Forall_forall _ _) Hr it Hit) as E.
  split; [exact E | ].
  destruct E as (_ & _ & _ & N). apply (dispatcher_full_after _ _ _ _ N).
Qed.

(** X7: On a host whose offset from UTC never changes, [addDays] by a whole
    number [n] of days gives the date [n] days of 24 hours later when that
    date is within the range of the time value, and an Invalid Date
    otherwise.  A valid result shows the time of day of the original date,
    on a weekday advanced by [n]. *)
Theorem addDays_full_whole_days d n :
  constant_offset zone ->
  addDays_full zone (Valid d) (Fin (inject_Z n)) = TimeClip (d + n * msPerDay) /\
  (forall r,
     addDays_full zone (Valid d) (Fin (inject_Z n)) = Valid r ->
     r = d + n * msPerDay /\ same_clock zone (Valid r) (Valid d) /\
     Date_getDay zone (Valid r) = Fin (inject_Z ((getDay d + n) mod 7))).
Proof.
  intros F.
  assert (E : addDays_full zone (Valid d) (Fin (inject_Z n))
              = TimeClip (d + n * msPerDay)).
  { rewrite addDays_fixed, addDays_int by exact F. reflexivity. }
  split; [exact E | ].
  intros r H. rewrite E in H. apply TimeClip_inv in H. destruct H as (-> & _).
  split; [reflexivity | split].
  - apply same_clock_fixed; [exact F | apply same_time_add_days].
  - rewrite Date_getDay_fixed, getDay_add_days by exact F. reflexivity.
Qed.

(** X10: On a host whose offset from UTC never changes, [addWeeks] by a
    whole number [n] of weeks gives the date [n] weeks of seven days later,
    on the same weekday, or an Invalid Date when that date is outside the
    range of the time value; and when [weeksBetween] counts whole weeks
    from [a] to [b] and from [a] to the moved date, the second count is the
    first plus [n]. *)
Theorem weeksBetween_full_addWeeks a b n :
  constant_offset zone ->
  addWeeks_full zone (Valid b) (Fin (inject_Z n)) = TimeClip (b + n * msPerWeek) /\
  (forall r,
     addWeeks_full zone (Valid b) (Fin (inject_Z n)) = Valid r ->
     Date_getDay zone (Valid r) = Date_getDay zone (Valid b) /\
     forall x y,
       weeksBetween_full zone (Valid a) (Valid b) = Fin x ->
       weeksBetween_full zone (Valid a) (Valid r) = Fin y ->
       exists w, x = inject_Z w /\ y = inject_Z (w + n)).
Proof.
  intros F.
  assert (E : addWeeks_full zone (Valid b) (Fin (inject_Z n))
              = TimeClip (b + n * msPerWeek)).
  { rewrite addWeeks_fixed, addWeeks_interval by exact F. reflexivity. }
  split; [exact E | ].
  intros r H. rewrite E in H. apply TimeClip_inv in H. destruct H as (-> & _).
  split.
  - rewrite !Date_getDay_fixed by exact F. f_equal. f_equal.
    replace (b + n * msPerWeek) with (b + (7 * n) * msPerDay)
      by (unfold msPerWeek; lia).
    rewrite getDay_add_days. pose proof (getDay_range b).
    Z.div_mod_to_equations; lia.
  - intros x y Hx Hy.
    destruct (weeksBetween_fixed a b F) as [(_ & _ & W) | W];
      rewrite W in Hx; [ | discriminate Hx].
    destruct (weeksBetween_fixed a (b + n * msPerWeek) F) as [(_ & _ & W') | W'];
      rewrite W' in Hy; [ | discriminate Hy].
    injection Hx as <-. injection Hy as <-.
    exists (weeksBetween a b). split; [reflexivity | ]. f_equal.
    rewrite <- addWeeks_interval.
    apply (proj1 (weeksBetween_addWeeks a b n)).
Qed.


(** X15: On a host whose offset from UTC never changes, and once the series
    has started, the weekly resolver is periodic in the reference instant:
    when it returns a valid date for [now] and a valid date for [now] moved
    forward by one interval, the second date is the first moved forward by
    one interval. *)
Theorem weekly_full_periodic fuel a interval weekday i w now r r' :
  constant_offset zone -> valid_weekly interval weekday i w -> (1 <= fuel)%nat ->
  weekly_base a w <= now ->
  nextWeeklyOccurrence_full zone fuel (Some (Valid a)) interval weekday (Valid now)
  = Ret (Some (Valid r)) ->
  nextWeeklyOccurrence_full zone fuel (Some (Valid a)) interval weekday
    (Valid (now + i * msPerWeek))
  = Ret (Some (Valid r')) ->
  r' = r + i * msPerWeek.
Proof.
  intros F V Hf L H H'.
  destruct (weekly_full_sim _ _ _ _ _ _ F H) as (O & _).
  destruct (weekly_full_sim _ _ _ _ _ _ F H') as (O' & _).
  destruct (weekly_periodic fuel a _ _ i w now V Hf L) as (x & P & P').
  rewrite P in O. rewrite P' in O'.
  apply Ret_inj, Some_inj in O. apply Ret_inj, Some_inj in O'. lia.
Qed.

(** X16: On a host whose offset from UTC never changes, while [now] is
    before the anchor the weekly resolver returns a Date whatever the
    interval, and when that Date is valid it is the first occurrence: the
    first day on or after the anchor that falls on the target weekday, at
    the anchor's time, less than a week after the anchor - the anchor itself
    when it falls on that weekday. *)
Theorem upcoming_anchor_first_date fuel a interval weekday i w now :
  constant_offset zone -> valid_weekly interval weekday i w -> now < a ->
  exists d,
    nextWeeklyOccurrence_full zone fuel (Some (Valid a)) interval weekday (Valid now)
    = Ret (Some d) /\
    forall r, d = Valid r ->
      a <= r < a + msPerWeek /\ Date_getDay zone (Valid r) = Fin (inject_Z w) /\
      same_clock zone (Valid r) (Valid a) /\
      (Date_getDay zone (Valid a) = Fin (inject_Z w) -> r = a).
Proof.
  intros F V L.
  destruct (upcoming_anchor_first_occurrence fuel a _ _ i w now V L)
    as (x & O & B & D & T & A).
  destruct (valid_weekly_guard _ _ _ _ V) as (Hq & Hv0 & Hv6).
  pose proof V as (Hi & _ & Hw & _).
  destruct (weekly_full_total fuel a _ _ now _ _ x F Hi Hw Hq Hv0 Hv6 O) as (d & H).
  exists d. split; [exact H | ].
  intros r ->. destruct (weekly_full_sim _ _ _ _ _ _ F H) as (O' & _).
  rewrite O in O'. apply Ret_inj, Some_inj in O'. subst x.
  split; [exact B | ].
  split; [rewrite Date_getDay_fixed, D by exact F; reflexivity | ].
  split; [apply same_clock_fixed; assumption | ].
  intros G. apply A. rewrite Date_getDay_fixed in G by exact F.
  injection G as G. exact G.
Qed.

(** X27: On a host whose offset from UTC never changes, and for a reference
    instant whose calendar year is not from -2 to 99, the monthly resolver
    returns none on a valid descriptor whenever the anchor lies 35 days or
    more after the start of the 24th month scanned: a recurring event whose
    first occurrence is beyond the horizon gets no date. *)
Theorem monthly_none_beyond_horizon a weekday weekOfMonth w n now :
  constant_offset zone -> valid_monthly weekday weekOfMonth w n -> plain_years now ->
  month_start (month_index now + 23) + 35 * msPerDay <= a ->
  nextMonthlyOccurrence_full zone (Some (Valid a)) weekday weekOfMonth (Valid now)
  = Ret None.
Proof.
  intros F V Hy Ha.
  destruct (valid_monthly_guard _ _ _ _ V) as (Hv0 & Hv6 & Hm1 & Hm5).
  pose proof V as (Hw & _ & Hn & Hn15).
  pose proof (nextMonthlyOccurrence_full_shape (Valid a) _ _ (Valid now) _ _
                Hw Hn Hv0 Hv6 Hm1 Hm5) as S.
  destruct (nextMonthlyOccurrence_full zone (Some (Valid a)) weekday weekOfMonth
              (Valid now)) as [[d | ] | | ] eqn:E; try discriminate S;
    [ | reflexivity].
  exfalso.
  assert (D : exists r, d = Valid r).
  { destruct (monthly_full_returned _ _ _ _ _ _ _ Hw Hn Hv0 Hv6 Hm1 Hm5 E)
      as (j & r & _ & -> & _). exists r. reflexivity. }
  destruct D as (r & ->).
  destruct (monthly_full_returned_plain _ _ _ _ _ _ _ F V Hy E)
    as (j & Hj & -> & (A1 & _) & _).
  pose proof (month_occurrence_bounds a w n (month_index now + Z.of_nat j) Hn15) as B.
  pose proof (month_start_le (month_index now + Z.of_nat j) (month_index now + 23)
                ltac:(lia)).
  lia.
Qed.

(** X28: How the dispatcher routes.  It returns none when the cadence is
    absent or not an object, and when [parseDate] returns none for
    [dateStart]; when [parseDate] returns a date it returns none for a
    discriminant that is neither ["weekly"] nor ["monthly"], and otherwise
    what the matching resolver returns for the parsed anchor. *)
Theorem dispatcher_full_routes fuel ev now :
  let cadence := member ev "cadence" in
  let dateStart := member ev "dateStart" in
  let type := member cadence "type" in
  (ToBoolean cadence = false \/ typeof cadence <> "object"%string ->
   nextOccurrenceForEvent_full zone fuel ev now = Ret None) /\
  (ToBoolean cadence = true -> typeof cadence = "object"%string ->
   (parseDate_full dateStart = Ret None ->
    nextOccurrenceForEvent_full zone fuel ev now = Ret None) /\
   (parseDate_full dateStart = Throw ->
    nextOccurrenceForEvent_full zone fuel ev now = Throw) /\
   (forall a, parseDate_full dateStart = Ret (Some a) ->
      (strict_eq_string type "weekly" = false ->
       strict_eq_string type "monthly" = false ->
       nextOccurrenceForEvent_full zone fuel ev now = Ret None) /\
      (strict_eq_string type "weekly" = true ->
       nextOccurrenceForEvent_full zone fuel ev now
       = nextWeeklyOccurrence_full zone fuel (Some a) (member cadence "interval")
           (member cadence "weekday") now) /\
      (strict_eq_string type "weekly" = false ->
       strict_eq_string type "monthly" = true ->
       nextOccurrenceForEvent_full zone fuel ev now
       = nextMonthlyOccurrence_full zone (Some a) (member cadence "weekday")
           (member cadence "weekOfMonth") now))).
Proof.
  cbv zeta. unfold nextOccurrenceForEvent_full.
  rewrite GetOptional_member. cbn [bind]. split.
  - intros [H | H].
    + rewrite H. reflexivity.
    + destruct (String.eqb_spec (typeof (member ev "cadence")) "object");
        [contradiction | ].
      rewrite orb_true_r. reflexivity.
  - intros T O. rewrite T, O. cbn [negb orb String.eqb Ascii.eqb Bool.eqb andb].
    rewrite (Get_member ev "dateStart") by (apply (truthy_member ev "cadence"), T).
    cbn [bind]. rewrite !(Get_member (member ev "cadence")) by exact T.
    repeat split.
    + intros ->. reflexivity.
    + intros ->. reflexivity.
    + intros H1 H2. rewrite H. cbn [bind]. rewrite H1, H2. reflexivity.
    + intros H1. rewrite H. cbn [bind]. rewrite H1. reflexivity.
    + intros H1 H2. rewrite H. cbn [bind]. rewrite H1, H2. reflexivity.
Qed.

End Zones.
End Host.

(** ** Worked examples on a host in UTC *)

Example day_2024_01_01 : MakeDay 2024 0 1 = 19723.
Proof. reflexivity. Qed.

Example weekday_2024_01_01 : WeekDay (MakeDate (MakeDay 2024 0 1) 0) = 1.
Proof. reflexivity. Qed.

Example civil_2024_02_29 :
  let t := MakeDate (MakeDay 2024 1 29) (MakeTime 9 30 15 250) in
  (YearFromTime t, MonthFromTime t, DateFromTime t,
   HourFromTime t, MinFromTime t, SecFromTime t, msFromTime t)
  = (2024, 1, 29, 9, 30, 15, 250).
Proof. reflexivity. Qed.

Example civil_before_epoch :
  let t := MakeDate (MakeDay (-1) 11 31) (MakeTime 23 0 0 0) in
  (YearFromTime t, MonthFromTime t, DateFromTime t, HourFromTime t)
  = (-1, 11, 31, 23).
Proof. reflexivity. Qed.

Local Abbreviation utc_weekly :=
  (nextWeeklyOccurrence utc_offset no_number no_string).
Local Abbreviation utc_monthly :=
  (nextMonthlyOccurrence utc_offset no_number no_string).
Local Abbreviation utc_next :=
  (nextOccurrenceForEvent utc_offset no_number no_string no_date).
Local Abbreviation utc_valid_weekly := (valid_weekly no_number no_string).
Local Abbreviation utc_valid_monthly := (valid_monthly no_number no_string).
Local Abbreviation date y m d h mi := (instant utc_offset y m d h mi).
Local Abbreviation int z := (VNum (Fin (inject_Z z))).

Ltac valid_descriptor := repeat split; try reflexivity; lia.

(** Spec, Example 2: interval 2, Wednesday, anchor 2024-01-01 09:00 and
    [now] = 2024-03-01 00:00 give Wednesday 2024-03-13 09:00. *)
Example weekly_every_second_wednesday :
  utc_weekly 1%nat (Some (date 2024 0 1 9 0)) (int 2) (int 3) (date 2024 2 1 0 0)
  = Ret (Some (date 2024 2 13 9 0)).
Proof. vm_compute. reflexivity. Qed.

(** Spec, Example 3: first Friday of the month, anchor 2024-01-01 09:00 and
    [now] = 2024-06-15 give Friday 2024-07-05 09:00. *)
Example monthly_first_friday :
  utc_monthly (Some (date 2024 0 1 9 0)) (int 5) (int 1) (date 2024 5 15 0 0)
  = Ret (Some (date 2024 6 5 9 0)).
Proof. vm_compute. reflexivity. Qed.

(** Spec, Example 4: [weekOfMonth = 6] gives none. *)
Example monthly_sixth_week :
  utc_monthly (Some (date 2024 0 1 9 0)) (int 5) (int 6) (date 2024 5 15 0 0)
  = Ret None.
Proof. vm_compute. reflexivity. Qed.

Ltac by_computation :=
  vm_compute;
  first [ reflexivity | discriminate | intros H; discriminate H ].

(** *** C2 *)

(** The claim of C2 fails for the weekday 2.5: it is no integer, and the
    weekly resolver computes an occurrence from it (Tuesday 2024-01-02 for
    the anchor Monday 2024-01-01 09:00) instead of returning none. *)
Lemma fractional_weekday_resolved :
  is_integer (Fin (5 # 2)) = false /\
  utc_weekly 1%nat (Some (date 2024 0 1 9 0)) (int 1) (VNum (Fin (5 # 2)))
    (date 2024 0 1 9 0)
  = Ret (Some (date 2024 0 2 9 0)).
Proof. split; vm_compute; reflexivity. Qed.

(** Likewise the interval 1.5 is accepted: the steps are of 10 days. *)
Example fractional_interval_resolved :
  is_integer (Fin (3 # 2)) = false /\
  utc_weekly 1%nat (Some (date 2024 0 1 9 0)) (VNum (Fin (3 # 2))) (int 1)
    (date 2024 2 1 9 0)
  = Ret (Some (date 2024 2 3 9 0)).
Proof. split; vm_compute; reflexivity. Qed.

Lemma out_of_range_descriptor_unresolvable_witness :
  outside (Fin (inject_Z 7)) 0 6 /\
  utc_weekly 1%nat (Some (date 2024 0 1 9 0)) (int 1) (int 7) (date 2024 0 1 9 0)
  = Ret None /\
  outside (Fin (inject_Z 6)) 1 5 /\
  utc_monthly (Some (date 2024 0 1 9 0)) (int 5) (int 6) (date 2024 5 15 0 0)
  = Ret None.
Proof.
  assert (O7 : outside (Fin (inject_Z 7)) 0 6) by (right; reflexivity).
  assert (O6 : outside (Fin (inject_Z 6)) 1 5) by (right; reflexivity).
  split; [exact O7 | split; [ | split; [exact O6 | ]]].
  - exact (proj1 (out_of_range_descriptor_unresolvable utc_offset no_number
                    no_string 1%nat (Some (date 2024 0 1 9 0))
                    (date 2024 0 1 9 0))
             (int 1) (int 7) _ _ eq_refl eq_refl (or_intror O7)).
  - exact (proj2 (out_of_range_descriptor_unresolvable utc_offset no_number
                    no_string 1%nat (Some (date 2024 0 1 9 0))
                    (date 2024 5 15 0 0))
             (int 5) (int 6) _ _ eq_refl eq_refl (or_intror O6)).
Defined.

(** *** C7 *)

(** February 2024 has four Mondays; the fifth Monday counted from its start
    is 4 March, and the resolver returns it while scanning February. *)
Lemma fifth_weekday_spills_witness :
  utc_valid_monthly (int 1) (int 5) 1 5 /\
  acceptable (date 2024 0 1 9 0) (date 2024 1 27 0 0) (date 2024 2 4 9 0) /\
  nthWeekdayOfMonth utc_offset 2024 1 (inject_Z 1) 5 = date 2024 2 4 0 0 /\
  month_index utc_offset (nthWeekdayOfMonth utc_offset 2024 1 (inject_Z 1) 5)
  = 12 * 2024 + 1 + 1 /\
  utc_monthly (Some (date 2024 0 1 9 0)) (int 1) (int 5) (date 2024 1 27 0 0)
  = Ret (Some (date 2024 2 4 9 0)) /\
  month_index utc_offset (date 2024 2 4 9 0)
  = month_index utc_offset (date 2024 1 27 0 0) + 1.
Proof.
  assert (V : utc_valid_monthly (int 1) (int 5) 1 5) by valid_descriptor.
  assert (A : acceptable (date 2024 0 1 9 0) (date 2024 1 27 0 0)
                (date 2024 2 4 9 0)) by (split; by_computation).
  pose proof (fifth_weekday_spills utc_offset no_number no_string
                (date 2024 0 1 9 0) (int 1) (int 5) 1 (date 2024 1 27 0 0)
                2024 1 V) as (S1 & S2).
  split; [exact V | split; [exact A | ]].
  split; [by_computation | ].
  split.
  - exact (proj1 (S1 ltac:(lia) ltac:(by_computation))).
  - exact (S2 ltac:(by_computation) A).
Defined.

(** ** Worked examples for the further properties *)

Local Abbreviation utc_escape := (escapeHtml no_string).
Local Abbreviation utc_links := (renderLinks no_string).
Local Abbreviation utc_main_loop :=
  (main_loop utc_offset no_number no_string no_date).
Local Abbreviation epoch_ms z := (VNum (Fin (inject_Z z))).

(** A fortnightly event on Wednesdays anchored on Monday 2024-01-01 09:00,
    a one-off event on the evening of 2024-03-09, and a one-off event that
    was over on 2024-02-09. *)
Local Abbreviation fortnightly_event :=
  (VObject [("recurring", VBool true);
            ("dateStart", epoch_ms (date 2024 0 1 9 0));
            ("cadence", VObject [("type", VStr "weekly"); ("interval", int 2);
                                 ("weekday", int 3)])]%string).
Local Abbreviation evening_event :=
  (VObject [("dateStart", epoch_ms (date 2024 2 9 18 0));
            ("dateEnd", epoch_ms (date 2024 2 9 21 0))]%string).
Local Abbreviation past_event :=
  (VObject [("dateStart", epoch_ms (date 2024 1 9 18 0))]%string).

(** *** Escaping *)

Lemma escapeHtml_no_markup_witness :
  utc_escape (VStr "<a href='x'>R&D</a>")
  = Ret "&lt;a href=&#039;x&#039;&gt;R&amp;D&lt;/a&gt;"%string /\
  count_char "<" "&lt;a href=&#039;x&#039;&gt;R&amp;D&lt;/a&gt;" = O /\
  count_char ">" "&lt;a href=&#039;x&#039;&gt;R&amp;D&lt;/a&gt;" = O /\
  count_char dquote "&lt;a href=&#039;x&#039;&gt;R&amp;D&lt;/a&gt;" = O /\
  count_char "'" "&lt;a href=&#039;x&#039;&gt;R&amp;D&lt;/a&gt;" = O.
Proof.
  assert (H : utc_escape (VStr "<a href='x'>R&D</a>")
              = Ret "&lt;a href=&#039;x&#039;&gt;R&amp;D&lt;/a&gt;"%string)
    by reflexivity.
  exact (conj H (escapeHtml_no_markup no_string _ _ H)).
Defined.

Lemma escapeHtml_ampersand_begins_reference_witness :
  utc_escape (VStr "a<b") = Ret "a&lt;b"%string /\
  starts_with "amp;" "lt;b" || starts_with "lt;" "lt;b"
  || starts_with "gt;" "lt;b" || starts_with "quot;" "lt;b"
  || starts_with "#039;" "lt;b" = true.
Proof.
  assert (H : utc_escape (VStr "a<b") = Ret "a&lt;b"%string) by reflexivity.
  exact (conj H (escapeHtml_ampersand_begins_reference no_string _ _
                   "a"%string "lt;b"%string H eq_refl)).
Defined.

Lemma escapeHtml_injective_witness :
  utc_escape (VStr "R&D") = utc_escape (VStr "R&D") /\ "R&D"%string = "R&D"%string.
Proof.
  assert (H : utc_escape (VStr "R&D") = utc_escape (VStr "R&D")) by reflexivity.
  exact (conj H (escapeHtml_injective no_string _ _ H)).
Defined.

Lemma escapeHtml_unchanged_iff_plain_witness :
  (forall c, is_markup c = true -> count_char c "Village hall" = O) /\
  utc_escape (VStr "Village hall") = Ret "Village hall"%string.
Proof.
  assert (H : forall c, is_markup c = true -> count_char c "Village hall" = O).
  { intros c M. destruct (markup_cases c M) as [-> | [-> | [-> | [-> | ->]]]];
      reflexivity. }
  exact (conj H (proj2 (escapeHtml_unchanged_iff_plain no_string _) H)).
Defined.

Lemma escapeHtml_completes_or_throws_witness :
  convertible (VObject [("toString"%string, VNum (Fin 1))]) = false /\
  utc_escape (VObject [("toString"%string, VNum (Fin 1))]) = Throw.
Proof.
  assert (C : convertible (VObject [("toString"%string, VNum (Fin 1))]) = false)
    by reflexivity.
  exact (conj C (proj2 (escapeHtml_completes_or_throws no_string _) C)).
Defined.

(** *** Calendar arithmetic *)

Lemma weeksBetween_whole_weeks_witness :
  date 2024 0 1 9 0 <= date 2024 0 20 8 0 /\
  0 <= weeksBetween utc_offset (date 2024 0 1 9 0) (date 2024 0 20 8 0).
Proof.
  assert (H : date 2024 0 1 9 0 <= date 2024 0 20 8 0) by by_computation.
  exact (conj H (proj2 (weeksBetween_whole_weeks utc_offset (date 2024 0 1 9 0)
                          (date 2024 0 20 8 0)) H)).
Defined.

(** The first Friday of July 2024 is the 5th. *)
Lemma nthWeekdayOfMonth_in_month_witness :
  0 <= 6 <= 11 /\ 0 <= 5 <= 6 /\ 1 <= 1 <= 5 /\
  getDay utc_offset (nthWeekdayOfMonth utc_offset 2024 6 (inject_Z 5) (inject_Z 1))
  = 5 /\
  getMonth utc_offset (nthWeekdayOfMonth utc_offset 2024 6 (inject_Z 5) (inject_Z 1))
  = 6.
Proof.
  assert (Hm : 0 <= 6 <= 11) by lia.
  assert (Hw : 0 <= 5 <= 6) by lia.
  assert (Hn : 1 <= 1 <= 5) by lia.
  assert (H4 : 1 <= 4) by lia.
  pose proof (nthWeekdayOfMonth_in_month utc_offset 2024 6 5 1 Hm Hw Hn)
    as (_ & D & _ & I).
  split; [exact Hm | split; [exact Hw | split; [exact Hn | ]]].
  split; [exact D | ].
  exact (proj1 (proj2 (I (or_introl H4)))).
Defined.

(** *** The resolvers *)

Lemma monthly_result_on_weekday_witness :
  utc_valid_monthly (int 5) (int 1) 5 1 /\
  utc_monthly (Some (date 2024 0 1 9 0)) (int 5) (int 1) (date 2024 5 15 0 0)
  = Ret (Some (date 2024 6 5 9 0)) /\
  getDay utc_offset (date 2024 6 5 9 0) = 5 /\
  7 * 1 - 6 <= getDate utc_offset (date 2024 6 5 9 0) <= 7 * 1.
Proof.
  assert (V : utc_valid_monthly (int 5) (int 1) 5 1) by valid_descriptor.
  assert (H : utc_monthly (Some (date 2024 0 1 9 0)) (int 5) (int 1)
                (date 2024 5 15 0 0) = Ret (Some (date 2024 6 5 9 0)))
    by (vm_compute; reflexivity).
  pose proof (monthly_result_on_weekday utc_offset no_number no_string
                (date 2024 0 1 9 0) (int 5) (int 1) 5 1 (date 2024 5 15 0 0)
                (date 2024 6 5 9 0) V H) as (D & R & _).
  split; [exact V | split; [exact H | split; [exact D | ]]].
  exact (R ltac:(lia)).
Defined.

Lemma monthly_started_event_resolves_witness :
  utc_valid_monthly (int 5) (int 1) 5 1 /\
  date 2024 0 1 9 0 <= date 2024 5 15 0 0 /\
  exists r,
    utc_monthly (Some (date 2024 0 1 9 0)) (int 5) (int 1) (date 2024 5 15 0 0)
    = Ret (Some r) /\
    date 2024 5 15 0 0 < r.
Proof.
  assert (V : utc_valid_monthly (int 5) (int 1) 5 1) by valid_descriptor.
  assert (L : date 2024 0 1 9 0 <= date 2024 5 15 0 0) by by_computation.
  destruct (monthly_started_event_resolves utc_offset no_number no_string
              (date 2024 0 1 9 0) (int 5) (int 1) 5 1 (date 2024 5 15 0 0) V L)
    as (r & H & G & _).
  split; [exact V | split; [exact L | ]].
  exists r. split; [exact H | exact G].
Defined.

(** *** The dispatcher, the lists and the links *)

Lemma dispatcher_completes_witness :
  event_convertible fortnightly_event = true /\
  exists f0, forall fuel, (f0 <= fuel)%nat ->
    exists o, utc_next fuel fortnightly_event (date 2024 2 1 0 0) = Ret o.
Proof.
  assert (C : event_convertible fortnightly_event = true) by reflexivity.
  exact (conj C (dispatcher_completes utc_offset no_number no_string no_date
                   fortnightly_event (date 2024 2 1 0 0) C)).
Defined.

Lemma main_loop_lists_all_upcoming_witness :
  utc_main_loop 1%nat [VNull; fortnightly_event; past_event; evening_event]
    (date 2024 2 1 0 0) [] []
  = Ret ([{| kind := oneoff; when := date 2024 2 9 18 0; ev := evening_event |}],
         [{| kind := recurring; when := date 2024 2 13 9 0;
             ev := fortnightly_event |}]) /\
  In fortnightly_event [VNull; fortnightly_event; past_event; evening_event] /\
  ToBoolean fortnightly_event = true /\
  typeof fortnightly_event = "object"%string /\
  isRecurring fortnightly_event = true /\
  utc_next 1%nat fortnightly_event (date 2024 2 1 0 0)
  = Ret (Some (date 2024 2 13 9 0)) /\
  In {| kind := recurring; when := date 2024 2 13 9 0; ev := fortnightly_event |}
     [{| kind := recurring; when := date 2024 2 13 9 0; ev := fortnightly_event |}].
Proof.
  assert (H : utc_main_loop 1%nat
                [VNull; fortnightly_event; past_event; evening_event]
                (date 2024 2 1 0 0) [] []
              = Ret ([{| kind := oneoff; when := date 2024 2 9 18 0;
                         ev := evening_event |}],
                     [{| kind := recurring; when := date 2024 2 13 9 0;
                         ev := fortnightly_event |}]))
    by (vm_compute; reflexivity).
  assert (I : In fortnightly_event
                [VNull; fortnightly_event; past_event; evening_event])
    by (right; left; reflexivity).
  assert (T : ToBoolean fortnightly_event = true) by reflexivity.
  assert (O : typeof fortnightly_event = "object"%string) by reflexivity.
  assert (R : isRecurring fortnightly_event = true) by reflexivity.
  assert (N : utc_next 1%nat fortnightly_event (date 2024 2 1 0 0)
              = Ret (Some (date 2024 2 13 9 0))) by (vm_compute; reflexivity).
  split; [exact H | split; [exact I | split; [exact T | split; [exact O | ]]]].
  split; [exact R | split; [exact N | ]].
  exact (proj1 (main_loop_lists_all_upcoming utc_offset no_number no_string
                  no_date 1%nat _ (date 2024 2 1 0 0) _ _ H
                  fortnightly_event I T O) R _ N).
Defined.

Lemma main_loop_completes_witness :
  (forall e, In e [VNull; fortnightly_event; past_event] ->
             event_convertible e = true) /\
  exists f0, forall fuel, (f0 <= fuel)%nat ->
    exists special regular,
      utc_main_loop fuel [VNull; fortnightly_event; past_event]
        (date 2024 2 1 0 0) [] [] = Ret (special, regular).
Proof.
  assert (C : forall e, In e [VNull; fortnightly_event; past_event] ->
                        event_convertible e = true).
  { intros e [<- | [<- | [<- | []]]]; reflexivity. }
  exact (conj C (main_loop_completes utc_offset no_number no_string no_date
                   _ (date 2024 2 1 0 0) C)).
Defined.

(** One link is shown of the three; its ampersand and its angle brackets
    are escaped. *)
Lemma renderLinks_markup_fixed_witness :
  exists out,
    utc_links (VArray [VObject [("href", VStr "http://x?a=1&b=2");
                                ("label", VStr "<X>")];
                       VNull;
                       VObject [("href", VStr "")]]%string) = Ret out /\
    count_char "<" out = 4%nat /\ count_char ">" out = 4%nat /\
    count_char dquote out = 10%nat /\ count_char "'" out = O.
Proof.
  eexists. split; [vm_compute; reflexivity | ].
  exact (proj2 (renderLinks_markup_fixed no_string
                  (VArray [VObject [("href", VStr "http://x?a=1&b=2");
                                    ("label", VStr "<X>")];
                           VNull;
                           VObject [("href", VStr "")]]%string)
                  _ eq_refl)
           ltac:(discriminate)).
Defined.

(** ** Worked examples on Date objects

    The host in UTC, and the host [uk_2024] whose clocks go forward on
    31 March 2024 and back on 27 October 2024. *)

Local Abbreviation utc_weekly_full :=
  (nextWeeklyOccurrence_full no_number no_string utc_zone).
Local Abbreviation utc_monthly_full :=
  (nextMonthlyOccurrence_full no_number no_string utc_zone).
Local Abbreviation utc_next_full :=
  (nextOccurrenceForEvent_full no_number no_string no_date utc_zone).
Local Abbreviation utc_main_loop_full :=
  (main_loop_full no_number no_string no_date utc_zone).
Local Abbreviation uk_weekly_full :=
  (nextWeeklyOccurrence_full no_number no_string uk_2024).
Local Abbreviation uk_monthly_full :=
  (nextMonthlyOccurrence_full no_number no_string uk_2024).
Local Abbreviation uk_date y m d h mi := (instant_at uk_2024 y m d h mi).

Lemma utc_zone_constant : constant_offset utc_offset utc_zone.
Proof. intros t isUTC. reflexivity. Qed.

Lemma uk_2024_bounded : bounded_offset uk_2024.
Proof.
  intros t isUTC. unfold uk_2024. cbv zeta.
  match goal with |- Z.abs (if ?c then _ else _) <= _ => destruct c end;
    unfold msPerHour, msPerDay; cbn; lia.
Qed.

(** The offset of [uk_2024] changes: it is no host of constant offset. *)
Example uk_2024_changes :
  uk_2024 (civil 2024 0 1 9 0) true = 0 /\
  uk_2024 (civil 2024 5 1 9 0) true = msPerHour.
Proof. split; vm_compute; reflexivity. Qed.

(** Spec, Examples 1 to 4, on either host. *)
Example weekly_next_monday_full :
  utc_weekly_full 1%nat (Some (Valid (date 2024 0 1 9 0))) (int 1) (int 1)
    (Valid (date 2024 0 1 9 0))
  = Ret (Some (Valid (date 2024 0 8 9 0))) /\
  uk_weekly_full 1%nat (Some (Valid (uk_date 2024 0 1 9 0))) (int 1) (int 1)
    (Valid (uk_date 2024 0 1 9 0))
  = Ret (Some (Valid (uk_date 2024 0 8 9 0))).
Proof. split; vm_compute; reflexivity. Qed.

Example weekly_every_second_wednesday_full :
  utc_weekly_full 1%nat (Some (Valid (date 2024 0 1 9 0))) (int 2) (int 3)
    (Valid (date 2024 2 1 0 0))
  = Ret (Some (Valid (date 2024 2 13 9 0))) /\
  uk_weekly_full 1%nat (Some (Valid (uk_date 2024 0 1 9 0))) (int 2) (int 3)
    (Valid (uk_date 2024 2 1 0 0))
  = Ret (Some (Valid (uk_date 2024 2 13 9 0))).
Proof. split; vm_compute; reflexivity. Qed.

Example monthly_first_friday_full :
  utc_monthly_full (Some (Valid (date 2024 0 1 9 0))) (int 5) (int 1)
    (Valid (date 2024 5 15 0 0))
  = Ret (Some (Valid (date 2024 6 5 9 0))) /\
  uk_monthly_full (Some (Valid (uk_date 2024 0 1 9 0))) (int 5) (int 1)
    (Valid (uk_date 2024 5 15 0 0))
  = Ret (Some (Valid (uk_date 2024 6 5 9 0))).
Proof. split; vm_compute; reflexivity. Qed.

Example monthly_sixth_week_full :
  utc_monthly_full (Some (Valid (date 2024 0 1 9 0))) (int 5) (int 6)
    (Valid (date 2024 5 15 0 0))
  = Ret None.
Proof. vm_compute. reflexivity. Qed.

(** *** C1 *)



(** *** C3 *)



(** *** C4 *)

(** C4: with the anchor equal to [now] - Monday 2024-01-01 09:00, weekday
    Monday - and the interval 1000000000, a finite integer that passes the
    guard, the weekly resolver returns an Invalid Date on either host: the
    one step of the loop leaves the range of the time value, and
    [NaN <= now] ends the loop.  The result is not none and is not an
    instant after [now].  For the interval 1 the resolver returns
    2024-01-08 09:00, as the claim says. *)
Theorem anchor_equal_to_now_invalid_date :
  valid_weekly no_number no_string (int 1000000000) (int 1) 1000000000 1 /\
  nextWeeklyOccurrence_full no_number no_string utc_zone 1%nat
    (Some (Valid (date 2024 0 1 9 0))) (int 1000000000) (int 1)
    (Valid (date 2024 0 1 9 0))
  = Ret (Some Invalid) /\
  nextWeeklyOccurrence_full no_number no_string uk_2024 1%nat
    (Some (Valid (uk_date 2024 0 1 9 0))) (int 1000000000) (int 1)
    (Valid (uk_date 2024 0 1 9 0))
  = Ret (Some Invalid) /\
  nextWeeklyOccurrence_full no_number no_string utc_zone 1%nat
    (Some (Valid (date 2024 0 1 9 0))) (int 1) (int 1) (Valid (date 2024 0 1 9 0))
  = Ret (Some (Valid (date 2024 0 8 9 0))).
Proof.
  split; [valid_descriptor | repeat split; vm_compute; reflexivity].
Qed.

(** *** C5 *)

(** The claim of C5 fails on a host with daylight saving.  The first
    occurrence is Monday 2024-03-25 at 09:00 and [now] is Monday 2024-04-01
    at 10:00, after the clocks have gone forward: the two midnights are an
    hour less than a week apart, [weeksBetween] counts no week, the jump
    leaves the candidate on 25 March, and the loop runs twice to reach
    2024-04-08 09:00. *)
Lemma summer_time_two_steps :
  utc_valid_weekly (int 1) (int 1) 1 1 /\
  weekly_base utc_offset (uk_date 2024 2 25 9 0) 1 = uk_date 2024 2 25 9 0 /\
  uk_date 2024 2 25 9 0 <= uk_date 2024 3 1 10 0 /\
  weeksBetween_full uk_2024 (Valid (uk_date 2024 2 25 9 0))
    (Valid (uk_date 2024 3 1 10 0))
  = Fin 0 /\
  catch_up_full uk_2024 1%nat (Fin 1) (Valid (uk_date 2024 3 1 10 0))
    (Valid (uk_date 2024 2 25 9 0))
  = OutOfFuel /\
  catch_up_full uk_2024 2%nat (Fin 1) (Valid (uk_date 2024 3 1 10 0))
    (Valid (uk_date 2024 2 25 9 0))
  = Ret (Valid (uk_date 2024 3 8 9 0)) /\
  uk_weekly_full 1%nat (Some (Valid (uk_date 2024 2 25 9 0))) (int 1) (int 1)
    (Valid (uk_date 2024 3 1 10 0))
  = OutOfFuel /\
  uk_weekly_full 2%nat (Some (Valid (uk_date 2024 2 25 9 0))) (int 1) (int 1)
    (Valid (uk_date 2024 3 1 10 0))
  = Ret (Some (Valid (uk_date 2024 3 8 9 0))).
Proof.
  split; [valid_descriptor | ].
  split; [vm_compute; reflexivity | ].
  split; [by_computation | ].
  repeat split; vm_compute; reflexivity.
Qed.

Lemma catch_up_one_step_on_fixed_offset_witness :
  constant_offset utc_offset utc_zone /\ bounded_offset uk_2024 /\
  utc_valid_weekly (int 2) (int 3) 2 3 /\
  weekly_base utc_offset (date 2024 0 1 9 0) 3 <= date 2024 2 1 0 0 /\
  (exists d,
     catch_up_full utc_zone 1%nat (Fin (inject_Z 2)) (Valid (date 2024 2 1 0 0))
       (addWeeks_full utc_zone (Valid (weekly_base utc_offset (date 2024 0 1 9 0) 3))
          (num_mul
             (num_floor
                (num_div
                   (weeksBetween_full utc_zone
                      (Valid (weekly_base utc_offset (date 2024 0 1 9 0) 3))
                      (Valid (date 2024 2 1 0 0)))
                   (Fin (inject_Z 2))))
             (Fin (inject_Z 2))))
     = Ret d /\
     (d = Invalid \/ exists r, d = Valid r /\ date 2024 2 1 0 0 < r)) /\
  (exists fuel d,
     uk_weekly_full fuel (Some (Valid (uk_date 2024 2 25 9 0))) (int 1) (int 1)
       (Valid (uk_date 2024 3 1 10 0))
     = Ret (Some d)).
Proof.
  assert (V : utc_valid_weekly (int 2) (int 3) 2 3) by valid_descriptor.
  assert (B : weekly_base utc_offset (date 2024 0 1 9 0) 3 <= date 2024 2 1 0 0)
    by by_computation.
  pose proof (catch_up_one_step_on_fixed_offset utc_offset no_number no_string
                utc_zone (date 2024 0 1 9 0) (int 2) (int 3) (date 2024 2 1 0 0))
    as (S & _).
  pose proof (catch_up_one_step_on_fixed_offset utc_offset no_number no_string
                uk_2024 (uk_date 2024 2 25 9 0) (int 1) (int 1)
                (uk_date 2024 3 1 10 0)) as (_ & T).
  split; [exact utc_zone_constant | split; [exact uk_2024_bounded | ]].
  split; [exact V | split; [exact B | split]].
  - exact (proj1 (S utc_zone_constant 2 3 V) B).
  - exact (T uk_2024_bounded 1%Q 1%Q eq_refl eq_refl
             ltac:(by_computation) ltac:(by_computation) ltac:(by_computation)).
Defined.

(** *** C6 *)

Lemma monthly_scan_horizon_witness :
  utc_valid_monthly (int 5) (int 1) 5 1 /\
  constant_offset utc_offset utc_zone /\
  plain_years utc_offset (date 2024 5 15 0 0) /\
  scan_in_range utc_offset (date 2024 5 15 0 0) /\
  utc_monthly_full (Some (Valid (date 2024 0 1 9 0))) (int 5) (int 1)
    (Valid (date 2024 5 15 0 0))
  = Ret (Some (Valid (date 2024 6 5 9 0))) /\
  (exists j, (j < 24)%nat /\
     Valid (date 2024 6 5 9 0)
     = occurrence_full utc_zone (Valid (date 2024 0 1 9 0)) (Fin (inject_Z 5))
         (Fin (inject_Z 1)) (cursor_full utc_zone (Valid (date 2024 5 15 0 0)) j) /\
     accepted (Valid (date 2024 0 1 9 0)) (Valid (date 2024 5 15 0 0))
       (Valid (date 2024 6 5 9 0))) /\
  cursor_full utc_zone (Valid (date 2024 5 15 0 0)) 23
  = Valid (month_start utc_offset
             (month_index utc_offset (date 2024 5 15 0 0) + Z.of_nat 23)).
Proof.
  assert (V : utc_valid_monthly (int 5) (int 1) 5 1) by valid_descriptor.
  assert (Y : plain_years utc_offset (date 2024 5 15 0 0))
    by (right; by_computation).
  assert (R : scan_in_range utc_offset (date 2024 5 15 0 0))
    by (split; by_computation).
  assert (H : utc_monthly_full (Some (Valid (date 2024 0 1 9 0))) (int 5) (int 1)
                (Valid (date 2024 5 15 0 0))
              = Ret (Some (Valid (date 2024 6 5 9 0))))
    by (vm_compute; reflexivity).
  pose proof (monthly_scan_horizon utc_offset no_number no_string utc_zone
                (date 2024 0 1 9 0) (int 5) (int 1) 5 1 (date 2024 5 15 0 0) V)
    as (_ & S & _ & C).
  split; [exact V | split; [exact utc_zone_constant | split; [exact Y | ]]].
  split; [exact R | split; [exact H | split]].
  - destruct (S _ H) as (j & Hj & E & A & _).
    exists j. split; [exact Hj | split; [exact E | exact A]].
  - exact (proj2 (C utc_zone_constant Y R) 23%nat ltac:(lia)).
Defined.

(** *** C9 *)



(** *** C10 *)

(** C10: for the anchor Monday 2024-01-01 09:00, weekday Monday and the
    interval 1000000000 - a valid descriptor - and [now] = 2024-03-01, the
    weekly resolver returns an Invalid Date on either host: a Date object,
    not none, and not an instant. *)
Theorem weekly_invalid_date_on_valid_input :
  valid_weekly no_number no_string (int 1000000000) (int 1) 1000000000 1 /\
  nextWeeklyOccurrence_full no_number no_string utc_zone 1%nat
    (Some (Valid (date 2024 0 1 9 0))) (int 1000000000) (int 1)
    (Valid (date 2024 2 1 0 0))
  = Ret (Some Invalid) /\
  nextWeeklyOccurrence_full no_number no_string uk_2024 1%nat
    (Some (Valid (uk_date 2024 0 1 9 0))) (int 1000000000) (int 1)
    (Valid (uk_date 2024 2 1 0 0))
  = Ret (Some Invalid).
Proof.
  split; [valid_descriptor | split; vm_compute; reflexivity].
Qed.

(** *** Further properties on Date objects *)

Local Abbreviation fortnightly_entry :=
  {| entry_kind := recurring; entry_when := Valid (date 2024 2 13 9 0);
     entry_ev := fortnightly_event |}.
Local Abbreviation evening_entry :=
  {| entry_kind := oneoff; entry_when := Valid (date 2024 2 9 18 0);
     entry_ev := evening_event |}.

(** A weekly event with the interval 1000000000. *)
Local Abbreviation remote_event :=
  (VObject [("recurring", VBool true);
            ("dateStart", epoch_ms (date 2024 0 1 9 0));
            ("cadence", VObject [("type", VStr "weekly");
                                 ("interval", int 1000000000);
                                 ("weekday", int 1)])]%string).

Lemma addDays_full_whole_days_witness :
  constant_offset utc_offset utc_zone /\
  addDays_full utc_zone (Valid (date 2024 0 1 9 0)) (Fin (inject_Z 30))
  = Valid (date 2024 0 31 9 0) /\
  addDays_full utc_zone (Valid (date 2024 0 1 9 0)) (Fin (inject_Z 7000000000))
  = Invalid /\
  same_clock utc_zone (Valid (date 2024 0 31 9 0)) (Valid (date 2024 0 1 9 0)).
Proof.
  pose proof (addDays_full_whole_days utc_offset utc_zone (date 2024 0 1 9 0) 30
                utc_zone_constant) as (E & P).
  pose proof (addDays_full_whole_days utc_offset utc_zone (date 2024 0 1 9 0)
                7000000000 utc_zone_constant) as (E' & _).
  assert (H : addDays_full utc_zone (Valid (date 2024 0 1 9 0)) (Fin (inject_Z 30))
              = Valid (date 2024 0 31 9 0))
    by (rewrite E; vm_compute; reflexivity).
  split; [exact utc_zone_constant | split; [exact H | split]].
  - rewrite E'. vm_compute. reflexivity.
  - exact (proj1 (proj2 (P _ H))).
Defined.

Lemma weeksBetween_full_addWeeks_witness :
  constant_offset utc_offset utc_zone /\
  addWeeks_full utc_zone (Valid (date 2024 0 20 8 0)) (Fin (inject_Z 2))
  = Valid (date 2024 1 3 8 0) /\
  Date_getDay utc_zone (Valid (date 2024 1 3 8 0))
  = Date_getDay utc_zone (Valid (date 2024 0 20 8 0)) /\
  weeksBetween_full utc_zone (Valid (date 2024 0 1 9 0)) (Valid (date 2024 0 20 8 0))
  = Fin (inject_Z 2) /\
  weeksBetween_full utc_zone (Valid (date 2024 0 1 9 0)) (Valid (date 2024 1 3 8 0))
  = Fin (inject_Z 4).
Proof.
  pose proof (weeksBetween_full_addWeeks utc_offset utc_zone (date 2024 0 1 9 0)
                (date 2024 0 20 8 0) 2 utc_zone_constant) as (E & P).
  assert (H : addWeeks_full utc_zone (Valid (date 2024 0 20 8 0)) (Fin (inject_Z 2))
              = Valid (date 2024 1 3 8 0))
    by (rewrite E; vm_compute; reflexivity).
  split; [exact utc_zone_constant | split; [exact H | ]].
  split; [exact (proj1 (P _ H)) | ].
  split; vm_compute; reflexivity.
Defined.


Lemma weekly_full_periodic_witness :
  constant_offset utc_offset utc_zone /\
  utc_valid_weekly (int 2) (int 3) 2 3 /\ (1 <= 1)%nat /\
  weekly_base utc_offset (date 2024 0 1 9 0) 3 <= date 2024 2 1 0 0 /\
  utc_weekly_full 1%nat (Some (Valid (date 2024 0 1 9 0))) (int 2) (int 3)
    (Valid (date 2024 2 1 0 0))
  = Ret (Some (Valid (date 2024 2 13 9 0))) /\
  utc_weekly_full 1%nat (Some (Valid (date 2024 0 1 9 0))) (int 2) (int 3)
    (Valid (date 2024 2 1 0 0 + 2 * msPerWeek))
  = Ret (Some (Valid (date 2024 2 27 9 0))) /\
  date 2024 2 27 9 0 = date 2024 2 13 9 0 + 2 * msPerWeek.
Proof.
  assert (V : utc_valid_weekly (int 2) (int 3) 2 3) by valid_descriptor.
  assert (F : (1 <= 1)%nat) by apply le_n.
  assert (B : weekly_base utc_offset (date 2024 0 1 9 0) 3 <= date 2024 2 1 0 0)
    by by_computation.
  assert (H : utc_weekly_full 1%nat (Some (Valid (date 2024 0 1 9 0))) (int 2)
                (int 3) (Valid (date 2024 2 1 0 0))
              = Ret (Some (Valid (date 2024 2 13 9 0))))
    by (vm_compute; reflexivity).
  assert (H' : utc_weekly_full 1%nat (Some (Valid (date 2024 0 1 9 0))) (int 2)
                 (int 3) (Valid (date 2024 2 1 0 0 + 2 * msPerWeek))
               = Ret (Some (Valid (date 2024 2 27 9 0))))
    by (vm_compute; reflexivity).
  split; [exact utc_zone_constant | split; [exact V | split; [exact F | ]]].
  split; [exact B | split; [exact H | split; [exact H' | ]]].
  exact (weekly_full_periodic utc_offset no_number no_string utc_zone 1%nat
           (date 2024 0 1 9 0) (int 2) (int 3) 2 3 (date 2024 2 1 0 0)
           (date 2024 2 13 9 0) (date 2024 2 27 9 0) utc_zone_constant V F B H H').
Defined.

Lemma upcoming_anchor_first_date_witness :
  constant_offset utc_offset utc_zone /\
  utc_valid_weekly (int 2) (int 3) 2 3 /\
  date 2023 11 25 0 0 < date 2024 0 1 9 0 /\
  exists d,
    utc_weekly_full 1%nat (Some (Valid (date 2024 0 1 9 0))) (int 2) (int 3)
      (Valid (date 2023 11 25 0 0))
    = Ret (Some d) /\
    forall r, d = Valid r ->
      date 2024 0 1 9 0 <= r < date 2024 0 1 9 0 + msPerWeek /\
      Date_getDay utc_zone (Valid r) = Fin (inject_Z 3) /\
      same_clock utc_zone (Valid r) (Valid (date 2024 0 1 9 0)) /\
      (Date_getDay utc_zone (Valid (date 2024 0 1 9 0)) = Fin (inject_Z 3) ->
       r = date 2024 0 1 9 0).
Proof.
  assert (V : utc_valid_weekly (int 2) (int 3) 2 3) by valid_descriptor.
  assert (L : date 2023 11 25 0 0 < date 2024 0 1 9 0) by by_computation.
  split; [exact utc_zone_constant | split; [exact V | split; [exact L | ]]].
  exact (upcoming_anchor_first_date utc_offset no_number no_string utc_zone 1%nat
           (date 2024 0 1 9 0) (int 2) (int 3) 2 3 (date 2023 11 25 0 0)
           utc_zone_constant V L).
Defined.

Lemma dispatcher_date_bounds_witness :
  utc_next_full 1%nat fortnightly_event (Valid (date 2024 2 1 0 0))
  = Ret (Some (Valid (date 2024 2 13 9 0))) /\
  utc_next_full 1%nat remote_event (Valid (date 2024 2 1 0 0))
  = Ret (Some Invalid) /\
  exists a,
    parseDate_full no_number no_string no_date
      (member fortnightly_event "dateStart")
    = Ret (Some (Valid a)) /\
    (Valid (date 2024 2 13 9 0) = Invalid \/
     exists r, Valid (date 2024 2 13 9 0) = Valid r /\ date 2024 2 1 0 0 < r /\
       (constant_offset utc_offset utc_zone ->
        a <= r /\ same_clock utc_zone (Valid r) (Valid a))).
Proof.
  assert (H : utc_next_full 1%nat fortnightly_event (Valid (date 2024 2 1 0 0))
              = Ret (Some (Valid (date 2024 2 13 9 0))))
    by (vm_compute; reflexivity).
  split; [exact H | split; [vm_compute; reflexivity | ]].
  exact (dispatcher_date_bounds utc_offset no_number no_string no_date utc_zone
           1%nat fortnightly_event (date 2024 2 1 0 0) _ H).
Defined.

(** The list [regular] holds the Invalid Date of the event whose interval
    is 1000000000. *)
Lemma main_loop_full_lists_witness :
  utc_main_loop_full 1%nat
    [VNull; fortnightly_event; past_event; evening_event; remote_event]
    (Valid (date 2024 2 1 0 0)) [] []
  = Ret ([evening_entry],
         [fortnightly_entry;
          {| entry_kind := recurring; entry_when := Invalid;
             entry_ev := remote_event |}]) /\
  Forall (fun it => after_or_invalid (date 2024 2 1 0 0) (entry_when it))
    [fortnightly_entry;
     {| entry_kind := recurring; entry_when := Invalid; entry_ev := remote_event |}].
Proof.
  assert (H : utc_main_loop_full 1%nat
                [VNull; fortnightly_event; past_event; evening_event; remote_event]
                (Valid (date 2024 2 1 0 0)) [] []
              = Ret ([evening_entry],
                     [fortnightly_entry;
                      {| entry_kind := recurring; entry_when := Invalid;
                         entry_ev := remote_event |}]))
    by (vm_compute; reflexivity).
  split; [exact H | ].
  pose proof (proj1 (main_loop_full_lists no_number no_string no_date utc_zone
                       1%nat _ (date 2024 2 1 0 0) _ _ H)) as R.
  apply Forall_forall. intros it Hit.
  exact (proj2 (proj1 (Forall_forall _ _) R it Hit)).
Defined.

(** An event anchored on 2027-01-01 has no monthly occurrence for
    [now] = 2024-01-15: the 24 months scanned end with December 2025. *)
Lemma monthly_none_beyond_horizon_witness :
  constant_offset utc_offset utc_zone /\
  utc_valid_monthly (int 1) (int 1) 1 1 /\
  plain_years utc_offset (date 2024 0 15 0 0) /\
  month_start utc_offset (month_index utc_offset (date 2024 0 15 0 0) + 23)
  + 35 * msPerDay <= date 2027 0 1 9 0 /\
  utc_monthly_full (Some (Valid (date 2027 0 1 9 0))) (int 1) (int 1)
    (Valid (date 2024 0 15 0 0))
  = Ret None.
Proof.
  assert (V : utc_valid_monthly (int 1) (int 1) 1 1) by valid_descriptor.
  assert (Y : plain_years utc_offset (date 2024 0 15 0 0))
    by (right; by_computation).
  assert (A : month_start utc_offset
                (month_index utc_offset (date 2024 0 15 0 0) + 23)
              + 35 * msPerDay <= date 2027 0 1 9 0) by by_computation.
  split; [exact utc_zone_constant | split; [exact V | split; [exact Y | ]]].
  split; [exact A | ].
  exact (monthly_none_beyond_horizon utc_offset no_number no_string utc_zone
           (date 2027 0 1 9 0) (int 1) (int 1) 1 1 (date 2024 0 15 0 0)
           utc_zone_constant V Y A).
Defined.

Lemma dispatcher_full_routes_witness :
  ToBoolean (member fortnightly_event "cadence") = true /\
  typeof (member fortnightly_event "cadence") = "object"%string /\
  parseDate_full no_number no_string no_date (member fortnightly_event "dateStart")
  = Ret (Some (Valid (date 2024 0 1 9 0))) /\
  utc_next_full 1%nat fortnightly_event (Valid (date 2024 2 1 0 0))
  = utc_weekly_full 1%nat (Some (Valid (date 2024 0 1 9 0))) (int 2) (int 3)
      (Valid (date 2024 2 1 0 0)) /\
  utc_next_full 1%nat past_event (Valid (date 2024 2 1 0 0)) = Ret None.
Proof.
  pose proof (dispatcher_full_routes no_number no_string no_date utc_zone 1%nat
                fortnightly_event (Valid (date 2024 2 1 0 0))) as (_ & D).
  pose proof (dispatcher_full_routes no_number no_string no_date utc_zone 1%nat
                past_event (Valid (date 2024 2 1 0 0))) as (N & _).
  cbv zeta in D, N.
  assert (P : parseDate_full no_number no_string no_date
                (member fortnightly_event "dateStart")
              = Ret (Some (Valid (date 2024 0 1 9 0))))
    by (vm_compute; reflexivity).
  split; [reflexivity | split; [reflexivity | split; [exact P | ]]].
  split.
  - destruct (D eq_refl eq_refl) as (_ & _ & R).
    exact (proj1 (proj2 (R _ P)) eq_refl).
  - exact (N (or_introl eq_refl)).
Defined.
